(** * Truss-Solver: the rendering engine [draw_bridge] of [app.py]

    A shallow embedding of the function [draw_bridge] (app.py, lines 34-384)
    and of its nested helper [add_trace_arrow], of the code of the page that
    writes the model file from its three tables (lines 530-567) and of the
    banner and the beam report of its results panel (lines 627-631 and
    655-659), followed by the properties of the rendering engine that the
    specification states and by further properties of the code.

    Conventions of the embedding.
    - JSON numbers and Python/NumPy floats are real numbers ([R]): there is
      no NaN and no infinity.  Arithmetic is exact wherever the result is
      used as a coordinate, a size or a threshold; where a float is turned
      into an integer (the recommended height, lines 77-80) each operation is
      followed by the rounding [Py.float] to the nearest binary64 number,
      since there the last bit decides the answer.  [np.sqrt] and [** 0.5]
      are [sqrt]; [np.cos], [np.sin] are [cos], [sin]; [np.arctan2] is given
      by its usual case definition over [atan].  A division by a NumPy zero
      does not raise; its quotient (nan or inf in the code) is the one of
      [R], and no property below depends on its value.
    - The two input files are given by their decoded contents: [None] stands
      for a path that does not exist or a file that [json.load] rejects.
    - JSON objects are records.  A key read with [obj['k']] is a field; a key
      read with [obj.get('k', d)] is an [option] field.  Ids are integers.
    - A Plotly figure is the list of its traces (in [add_trace] order), the
      list of its annotations and its layout.  An f-string is kept as the list
      of its pieces, numbers unformatted.
    - [all_nodes] is a Python [dict] that is iterated: it is an association
      list in insertion order.  [simulation_results] and [node_results] are
      only looked up: they are [gmap]s.  The two legend-tracking sets that the
      source stores inside [simulation_results] under the string keys
      ['_legend_set'] and ['_support_legend'] are two optional [gset]s next to
      the integer-keyed entries.
    - An exception that leaves [draw_bridge] is the outcome [Raised].

    The file has two parts: the definitions (the embedding, the reading of a
    figure, the formulas of the specification, the invariants and the
    concrete inputs), then the properties. *)

From Stdlib Require Import Reals Lra Lia ZArith String List.
From stdpp Require Import gmap strings.
Import ListNotations.

Open Scope R_scope.
Open Scope string_scope.

(** ** Decidable comparisons on reals *)

#[global] Instance Rlt_decision : RelDecision Rlt := Rlt_dec.
#[global] Instance Rle_decision : RelDecision Rle := Rle_dec.
#[global] Instance Rgt_decision : RelDecision Rgt := Rgt_dec.
#[global] Instance R_eq_decision : EqDecision R := Req_dec_T.

(** ** Python built-ins *)

Module Py.

(** [max(a, b)]: the second argument wins only when it is strictly greater. *)
Definition max2 (a b : R) : R := if decide (a < b) then b else a.

(** [min(a, b)]: the second argument wins only when it is strictly smaller. *)
Definition min2 (a b : R) : R := if decide (b < a) then b else a.

(** [max(iterable)]; [None] is the [ValueError] on an empty iterable. *)
Definition max (l : list R) : option R :=
  match l with
  | [] => None
  | x :: t => Some (fold_left max2 t x)
  end.

(** [min(iterable)]; [None] is the [ValueError] on an empty iterable. *)
Definition min (l : list R) : option R :=
  match l with
  | [] => None
  | x :: t => Some (fold_left min2 t x)
  end.

(** [int(x)] on a float: truncation toward zero. *)
Definition int (x : R) : Z := if decide (0 <= x) then Zfloor x else Zceil x.

(** The integer nearest to [x], the even one of the two when [x] is halfway
    between them. *)
Definition nearest_even (x : R) : Z :=
  let f := Zfloor x in
  if decide (x - IZR f < 1 / 2) then f
  else if decide (1 / 2 < x - IZR f) then (f + 1)%Z
  else if Z.even f then f else (f + 1)%Z.

(** The binary64 number nearest to [x], ties to the even significand: what
    an operation on floats returns for the exact result [x].  The number is
    written with a significand of 53 bits, [2^52 <= |m| <= 2^53], at the
    exponent [e] of its last bit.  The range of the exponent is not bounded:
    overflow and subnormal numbers are outside the model. *)
Definition float (x : R) : R :=
  if decide (x = 0) then 0
  else
    let e := (Zfloor (ln (Rabs x) / ln 2) - 52)%Z in
    IZR (nearest_even (x * powerRZ 2 (- e))) * powerRZ 2 e.

(** [np.arctan2(y, x)]. *)
Definition arctan2 (y x : R) : R :=
  if decide (0 < x) then atan (y / x)
  else if decide (x < 0) then
    (if decide (0 <= y) then atan (y / x) + PI else atan (y / x) - PI)
  else if decide (0 < y) then PI / 2
  else if decide (y < 0) then - (PI / 2)
  else 0.

(** [sub in s] on strings. *)
Fixpoint contains (sub s : string) : bool :=
  String.prefix sub s ||
  match s with
  | EmptyString => false
  | String _ s' => contains sub s'
  end.

End Py.

(** ** Insertion-ordered dictionary with integer keys *)

Definition odict (V : Type) : Type := list (Z * V).

Fixpoint od_get {V} (k : Z) (d : odict V) : option V :=
  match d with
  | [] => None
  | (k', v) :: d' => if decide (k = k') then Some v else od_get k d'
  end.

(** [d[k] = v]: an existing key keeps its position, a new key goes last. *)
Fixpoint od_set {V} (k : Z) (v : V) (d : odict V) : odict V :=
  match d with
  | [] => [(k, v)]
  | (k', v') :: d' =>
      if decide (k = k') then (k, v) :: d' else (k', v') :: od_set k v d'
  end.

(** ** Input data *)

(** An entry of ['nodes'] in the model file. *)
Record node := {
  nd_id : Z;
  nd_x : R;
  nd_y : R;
  nd_type : option string;
  nd_loadX : option R;
  nd_loadY : option R
}.

(** An entry of ['elements'] in the model file. *)
Record element := {
  el_id : Z;
  el_start : Z;
  el_end : Z
}.

(** The model file; a missing ['nodes'] or ['elements'] key is the empty
    list ([bridge_data.get(..., [])]). *)
Record bridge := {
  br_nodes : list node;
  br_elements : list element
}.

(** An entry of ['elements'] in the result file. *)
Record elem_result := {
  er_id : Z;
  er_force : R;
  er_safety : R
}.

(** An entry of ['nodes'] in the result file. *)
Record node_result := {
  nr_id : Z;
  nr_rx : option R;
  nr_ry : option R
}.

Record results := {
  rs_elements : list elem_result;
  rs_nodes : list node_result
}.

(** ** The figure *)

Inductive piece :=
| Lit (s : string)
| IntStr (z : Z)
| Fixed (digits : nat) (v : R).

Definition text := list piece.

Definition piece_nonempty (p : piece) : bool :=
  match p with
  | Lit s => negb (String.eqb s "")
  | IntStr _ | Fixed _ _ => true
  end.

(** Truth value of a string: it is not empty. *)
Definition truthy (t : text) : bool := existsb piece_nonempty t.

Record line := { line_color : string; line_width : R }.

Record marker := {
  marker_symbol : option string;
  marker_size : R;
  marker_color : string;
  marker_line_color : option string;
  marker_line_width : option R
}.

(** One [go.Scatter]. *)
Record trace := {
  tr_x : list (option R);
  tr_y : list (option R);
  tr_mode : string;
  tr_line : option line;
  tr_fill : option string;
  tr_fillcolor : option string;
  tr_marker : option marker;
  tr_hoverinfo : option string;
  tr_text : option text;
  tr_hovertext : list text;
  tr_name : option string;
  tr_legendgroup : option string;
  tr_showlegend : option bool
}.

Record annotation := {
  an_x : R;
  an_y : R;
  an_text : text;
  an_yshift : option R;
  an_font_color : string;
  an_font_size : R;
  an_font_weight : option string;
  an_bgcolor : string;
  an_bordercolor : string;
  an_borderwidth : R;
  an_borderpad : R;
  an_opacity : R
}.

Record layout := {
  ly_showlegend : bool;
  ly_axis_color : string;
  ly_grid_color : string;
  ly_xaxis_scaleanchor : string;
  ly_xaxis_scaleratio : R;
  ly_dragmode : string;
  ly_legend_x : R;
  ly_legend_y : R
}.

Record figure := {
  fig_data : list trace;
  fig_annotations : list annotation;
  fig_layout : option layout
}.

(** [go.Figure()] *)
Definition new_figure : figure :=
  {| fig_data := []; fig_annotations := []; fig_layout := None |}.

Definition add_trace (fig : figure) (t : trace) : figure :=
  {| fig_data := fig_data fig ++ [t];
     fig_annotations := fig_annotations fig;
     fig_layout := fig_layout fig |}.

Definition add_annotation (fig : figure) (a : annotation) : figure :=
  {| fig_data := fig_data fig;
     fig_annotations := fig_annotations fig ++ [a];
     fig_layout := fig_layout fig |}.

Definition update_layout (fig : figure) (l : layout) : figure :=
  {| fig_data := fig_data fig;
     fig_annotations := fig_annotations fig;
     fig_layout := Some l |}.

(** ** Outcome of a call *)

Inductive exn := ValueError.

Inductive outcome :=
| NoOutput
| Raised (e : exn)
| Rendered (fig : figure) (rec_h : Z).

(** [simulation_results]: the entries of the result file by member id, and
    the two sets that the render adds to the same dictionary. *)
Record sim_results := {
  sr_elements : gmap Z elem_result;
  sr_legend_set : option (gset string);
  sr_support_legend : option (gset string)
}.

(** ** Scene metrics (lines 66-91) *)

(** [{node['id']: node for node in bridge_data.get('nodes', [])}] *)
Definition all_nodes_of (nodes : list node) : odict node :=
  fold_left (fun d n => od_set (nd_id n) n d) nodes [].

(** [max(0.35, (12.0 / max(12.0, len(all_elements)))**0.5)] *)
Definition complexity_factor_of (all_elements : list element) : R :=
  Py.max2 0.35 (sqrt (12 / Py.max2 12 (INR (length all_elements)))).

(** Lines 75-80: the recommended height.  The difference, the quotient and
    the product are float operations whose result [int] truncates: each is
    rounded.  (Coordinates that are integers are subtracted exactly by
    Python; below [2^53] the rounding leaves their difference as it is.) *)
Definition aspect_ratio_of (all_nodes : odict node) : R :=
  let x_coords := map (fun kv => nd_x (snd kv)) all_nodes in
  let y_coords := map (fun kv => nd_y (snd kv)) all_nodes in
  let dx :=
    match Py.max x_coords, Py.min x_coords with
    | Some hi, Some lo => Py.float (hi - lo)
    | _, _ => 10
    end in
  let dy :=
    match Py.max y_coords, Py.min y_coords with
    | Some hi, Some lo => Py.float (hi - lo)
    | _, _ => 5
    end in
  if decide (dx > 0) then Py.float (dy / dx) else 1.

Definition rec_h_of (all_nodes : odict node) : Z :=
  Z.max 500
    (Z.min 900 (500 + Py.int (Py.float (aspect_ratio_of all_nodes * 300)))).

(** The list comprehension of lines 84-86. *)
Definition lengths_of (all_nodes : odict node) (all_elements : list element)
  : list R :=
  flat_map
    (fun e =>
       match od_get (el_start e) all_nodes, od_get (el_end e) all_nodes with
       | Some a, Some b =>
           [sqrt ((nd_x a - nd_x b) ^ 2 + (nd_y a - nd_y b) ^ 2)]
       | _, _ => []
       end)
    all_elements.

(** Lines 82-87; [None] is the [ValueError] of [min] on an empty generator. *)
Definition min_len_of (all_nodes : odict node) (all_elements : list element)
  : option R :=
  match all_elements with
  | [] => Some 2
  | _ :: _ =>
      let lengths := lengths_of all_nodes all_elements in
      match lengths with
      | [] => Some 2
      | _ :: _ => Py.min (List.filter (fun l => bool_decide (l > 0)) lengths)
      end
  end.

(** [0.55 if len(all_elements) > 20
     else (0.75 if len(all_elements) < 8 else 0.65)] *)
Definition auto_mult_of (all_elements : list element) : R :=
  if decide (20 < length all_elements)%nat then 0.55
  else if decide (length all_elements < 8)%nat then 0.75
  else 0.65.

(** Line 91. *)
Definition visual_scale_of (min_len complexity_factor auto_mult : R) : R :=
  Py.max2 0.1 (Py.min2 (min_len * 0.3) 0.6) * complexity_factor * auto_mult.

(** ** [add_trace_arrow] (lines 94-137)

    [visual_scale] and [complexity_factor] are the variables of the enclosing
    call that the nested function reads. *)

Section Render.

Variable visual_scale : R.
Variable complexity_factor : R.

Definition dark_c : string := "#0f172a".

Definition arrow_line (xs ys : list (option R)) (color : string) (width : R)
  (group : string) : trace :=
  {| tr_x := xs; tr_y := ys; tr_mode := "lines";
     tr_line := Some {| line_color := color; line_width := width |};
     tr_fill := None; tr_fillcolor := None; tr_marker := None;
     tr_hoverinfo := Some "skip"; tr_text := None; tr_hovertext := [];
     tr_name := None; tr_legendgroup := Some group;
     tr_showlegend := Some false |}.

Definition arrow_head (xs ys : list (option R)) (color : string) (width : R)
  (group : string) : trace :=
  {| tr_x := xs; tr_y := ys; tr_mode := "lines";
     tr_line := Some {| line_color := color; line_width := width |};
     tr_fill := Some "toself"; tr_fillcolor := Some color; tr_marker := None;
     tr_hoverinfo := Some "skip"; tr_text := None; tr_hovertext := [];
     tr_name := None; tr_legendgroup := Some group;
     tr_showlegend := Some false |}.

(** The six traces of one arrow, lines 95-124. *)
Definition arrow_traces (start_x start_y end_x end_y : R)
  (color group : string) : list trace :=
  let h_sz := 0.48 * visual_scale in
  let angle := Py.arctan2 (end_y - start_y) (end_x - start_x) in
  let sh_len := 0.7 * h_sz in
  let sx_e := end_x - sh_len * cos angle in
  let sy_e := end_y - sh_len * sin angle in
  let bw := 0.08 * h_sz in
  let bx_s := start_x + bw * cos angle in
  let by_s := start_y + bw * sin angle in
  let bx_e := sx_e - bw * cos angle in
  let by_e := sy_e - bw * sin angle in
  let '(cx_s, cy_s, cx_e, cy_e) := (bx_s, by_s, bx_e, by_e) in
  let a1 := angle + PI * 1.11 in
  let a2 := angle - PI * 1.11 in
  let hx := [Some end_x; Some (end_x + h_sz * cos a1);
             Some (end_x + h_sz * cos a2); Some end_x; None] in
  let hy := [Some end_y; Some (end_y + h_sz * sin a1);
             Some (end_y + h_sz * sin a2); Some end_y; None] in
  let w_dark := Py.max2 6 (8 * complexity_factor) in
  let w_white := Py.max2 4 (6 * complexity_factor) in
  let w_color := Py.max2 2 (4 * complexity_factor) in
  [ arrow_line [Some bx_s; Some bx_e; None] [Some by_s; Some by_e; None]
      dark_c w_dark group;
    arrow_head hx hy dark_c 2.5 group;
    arrow_line [Some bx_s; Some bx_e; None] [Some by_s; Some by_e; None]
      "white" w_white group;
    arrow_head hx hy "white" 1.5 group;
    arrow_line [Some cx_s; Some cx_e; None] [Some cy_s; Some cy_e; None]
      color w_color group;
    arrow_head hx hy color 0.8 group ].

(** The badge of an arrow, lines 127-137. *)
Definition arrow_label (start_x start_y end_x end_y : R)
  (color name : string) (txt : text) (text_offset : R) : annotation :=
  let angle := Py.arctan2 (end_y - start_y) (end_x - start_x) in
  let dirs := (cos angle, sin angle) in
  let off := text_offset * visual_scale in
  let '(lx, ly) :=
    if Py.contains "Force" name
    then (end_x + fst dirs * off, end_y + snd dirs * off)
    else (start_x - fst dirs * off, start_y - snd dirs * off) in
  let '(lx, ly) :=
    if Py.contains "Reaction" name
    then (start_x - fst dirs * off, start_y - snd dirs * off)
    else (lx, ly) in
  {| an_x := lx; an_y := ly; an_text := txt; an_yshift := None;
     an_font_color := "white";
     an_font_size := Py.min2 10 (8.0 + 2.5 * complexity_factor);
     an_font_weight := Some "bold";
     an_bgcolor := color; an_bordercolor := dark_c; an_borderwidth := 1.5;
     an_borderpad := 3; an_opacity := 0.98 |}.

Definition add_trace_arrow (fig : figure)
  (start_x start_y end_x end_y : R) (color name group : string)
  (txt : option text) (text_offset : R) : figure :=
  let fig :=
    fold_left add_trace
      (arrow_traces start_x start_y end_x end_y color group) fig in
  match txt with
  | Some t =>
      if truthy t
      then add_annotation fig
             (arrow_label start_x start_y end_x end_y color name t text_offset)
      else fig
  | None => fig
  end.

End Render.

(** ** The layers of [draw_bridge] (lines 139-352)

    The section variables are the locals of [draw_bridge] that the loops
    read and never assign. *)

Section Layers.

Variable all_nodes : odict node.
Variable node_results : gmap Z node_result.
Variable visual_scale : R.
Variable complexity_factor : R.
Variable visualization_scale_multiplier : R.

(** *** 1. Beams (lines 140-237) *)

(** Lines 150-166: colour, width and hover text of the member line. *)
Definition beam_style (simulation_results : sim_results) (element : element)
  : string * R * text :=
  let hover_text := [Lit "Beam #"; IntStr (el_id element)] in
  match sr_elements simulation_results !! el_id element with
  | Some beam_result =>
      let safety_factor := er_safety beam_result in
      let force_magnitude := er_force beam_result in
      let hover_text :=
        (hover_text ++ [Lit "<br>Force: "; Fixed 2 force_magnitude;
                        Lit " kN<br>Safety: "; Fixed 2 safety_factor])%list in
      if decide (safety_factor < 1) then ("#ef4444", 6, hover_text)
      else if decide (safety_factor < 2) then ("#f59e0b", 5, hover_text)
      else ("#10b981", 6, hover_text)
  | None => ("#3b82f6", 4, hover_text)
  end.

(** Lines 153-175: the legend group of the member line. *)
Definition beam_legend_group (simulation_results : sim_results)
  (element : element) : string :=
  let safety_factor :=
    match sr_elements simulation_results !! el_id element with
    | Some beam_result => er_safety beam_result
    | None => 999
    end in
  let is_draft :=
    bool_decide (sr_elements simulation_results !! el_id element = None) in
  if is_draft then "Beam (Draft)"
  else if decide (safety_factor < 1) then "Beam (Unsafe)"
  else if decide (safety_factor < 2) then "Beam (Caution)"
  else "Beam (Safe)".

(** Lines 178-182: [setdefault], membership test and [add]. *)
Definition register_beam_legend (simulation_results : sim_results)
  (legend_group_name : string) : bool * sim_results :=
  let legend_set := default ∅ (sr_legend_set simulation_results) in
  if decide (legend_group_name ∈ legend_set)
  then (false,
        {| sr_elements := sr_elements simulation_results;
           sr_legend_set := Some legend_set;
           sr_support_legend := sr_support_legend simulation_results |})
  else (true,
        {| sr_elements := sr_elements simulation_results;
           sr_legend_set := Some ({[ legend_group_name ]} ∪ legend_set);
           sr_support_legend := sr_support_legend simulation_results |}).

(** Lines 185-195. *)
Definition beam_trace (start_x start_y end_x end_y : R) (beam_color : string)
  (beam_width : R) (hover_text : text) (legend_group_name : string)
  (show_legend_item : bool) : trace :=
  {| tr_x := [Some start_x; Some end_x; None];
     tr_y := [Some start_y; Some end_y; None];
     tr_mode := "lines";
     tr_line := Some {| line_color := beam_color; line_width := beam_width |};
     tr_fill := None; tr_fillcolor := None; tr_marker := None;
     tr_hoverinfo := Some "text"; tr_text := Some hover_text;
     tr_hovertext := [];
     tr_name := Some legend_group_name;
     tr_legendgroup := Some legend_group_name;
     tr_showlegend := Some show_legend_item |}.

(** Lines 199-236: tail and head of the two internal-force arrows, in the
    order of the loop [for sign in [1, -1]]. *)
Definition internal_arrow_ends (start_x start_y end_x end_y force_value : R)
  : list ((R * R) * (R * R)) :=
  let is_compression := bool_decide (force_value <= 0) in
  let length_of_beam := sqrt ((end_x - start_x) ^ 2 + (end_y - start_y) ^ 2) in
  let midpoint_x := (start_x + end_x) / 2 in
  let midpoint_y := (start_y + end_y) / 2 in
  let slope_x := (end_x - start_x) / length_of_beam in
  let slope_y := (end_y - start_y) / length_of_beam in
  let arrow_length := Py.min2 (visual_scale * 1.5) (length_of_beam * 0.35) in
  let inner_gap_distance :=
    Py.min2 (visual_scale * 0.6) (length_of_beam * 0.1) in
  let outer_gap_distance := inner_gap_distance + arrow_length in
  let '(dist_tail, dist_tip) :=
    if is_compression
    then (outer_gap_distance, inner_gap_distance)
    else (inner_gap_distance, outer_gap_distance) in
  map
    (fun sign =>
       let '(t_x, t_y) := (midpoint_x + sign * slope_x * dist_tail,
                           midpoint_y + sign * slope_y * dist_tail) in
       let '(h_x, h_y) := (midpoint_x + sign * slope_x * dist_tip,
                           midpoint_y + sign * slope_y * dist_tip) in
       ((t_x, t_y), (h_x, h_y)))
    [1; -1].

(** Lines 202-207. *)
Definition internal_arrow_style (force_value : R) : string * string :=
  if bool_decide (force_value <= 0)
  then ("#fb923c", "Compression Force")
  else ("#22d3ee", "Tension Force").

(** Lines 198-237. *)
Definition draw_internal_forces (fig : figure)
  (simulation_results : sim_results) (element : element)
  (start_x start_y end_x end_y : R) : figure :=
  match sr_elements simulation_results !! el_id element with
  | Some beam_result =>
      if decide (Rabs (er_force beam_result) > 0.1) then
        let force_value := er_force beam_result in
        let '(arrow_color, legend_group_arrow) :=
          internal_arrow_style force_value in
        fold_left
          (fun fig '((t_x, t_y), (h_x, h_y)) =>
             add_trace_arrow visual_scale complexity_factor fig
               t_x t_y h_x h_y arrow_color "Internal Force"
               legend_group_arrow None 0.45)
          (internal_arrow_ends start_x start_y end_x end_y force_value)
          fig
      else fig
  | None => fig
  end.

(** One iteration of the loop of line 140. *)
Definition beam_body (st : figure * sim_results) (element : element)
  : figure * sim_results :=
  let '(fig, simulation_results) := st in
  match od_get (el_start element) all_nodes,
        od_get (el_end element) all_nodes with
  | Some node_start, Some node_end =>
      let '(start_x, start_y) := (nd_x node_start, nd_y node_start) in
      let '(end_x, end_y) := (nd_x node_end, nd_y node_end) in
      let '(beam_color, beam_width, hover_text) :=
        beam_style simulation_results element in
      let legend_group_name := beam_legend_group simulation_results element in
      let '(show_legend_item, simulation_results) :=
        register_beam_legend simulation_results legend_group_name in
      let fig :=
        add_trace fig
          (beam_trace start_x start_y end_x end_y beam_color beam_width
             hover_text legend_group_name show_legend_item) in
      let fig :=
        draw_internal_forces fig simulation_results element
          start_x start_y end_x end_y in
      (fig, simulation_results)
  | _, _ => st
  end.

(** *** Legend entries (lines 239-240) *)

Definition force_legend : list (string * string) :=
  [("Tension Force", "#22d3ee"); ("Compression Force", "#fb923c");
   ("Load Force", "#f43f5e"); ("Reaction Force", "#8b5cf6")].

Definition legend_entry (n c : string) : trace :=
  {| tr_x := [None]; tr_y := [None]; tr_mode := "markers";
     tr_line := None; tr_fill := None; tr_fillcolor := None;
     tr_marker := Some {| marker_symbol := Some "arrow-bar-up";
                          marker_size := 10; marker_color := c;
                          marker_line_color := None;
                          marker_line_width := None |};
     tr_hoverinfo := None; tr_text := None; tr_hovertext := [];
     tr_name := Some n; tr_legendgroup := Some n; tr_showlegend := None |}.

Definition add_legend_entries (fig : figure) : figure :=
  fold_left (fun fig '(n, c) => add_trace fig (legend_entry n c))
    force_legend fig.

(** *** 2. Nodes and supports (lines 245-312) *)

Definition markers : gmap string (string * string) :=
  list_to_map
    [("Pinned Support", ("triangle-up-dot", "#000000"));
     ("Roller Support", ("circle", "#000000"));
     ("Fixed (Rigid)", ("square-dot", "#000000"))].

(** Lines 265-268: [setdefault], membership test and [add]. *)
Definition register_support_legend (simulation_results : sim_results)
  (legend_group_support : string) : bool * sim_results :=
  let support_legend :=
    default ∅ (sr_support_legend simulation_results) in
  if decide (legend_group_support ∈ support_legend)
  then (false,
        {| sr_elements := sr_elements simulation_results;
           sr_legend_set := sr_legend_set simulation_results;
           sr_support_legend := Some support_legend |})
  else (true,
        {| sr_elements := sr_elements simulation_results;
           sr_legend_set := sr_legend_set simulation_results;
           sr_support_legend :=
             Some ({[ legend_group_support ]} ∪ support_legend) |}).

(** Lines 271-277. *)
Definition support_trace (node_x node_y : R) (support_type : string)
  (marker_symbol marker_color : string) (show_legend_support : bool)
  : trace :=
  let s_sz := Py.max2 22 (55 * visual_scale) in
  {| tr_x := [Some node_x]; tr_y := [Some (node_y - 0.12 * visual_scale)];
     tr_mode := "markers";
     tr_line := None; tr_fill := None; tr_fillcolor := None;
     tr_marker := Some {| marker_symbol := Some marker_symbol;
                          marker_size := s_sz; marker_color := marker_color;
                          marker_line_color := None;
                          marker_line_width := Some 2 |};
     tr_hoverinfo := Some "text"; tr_text := Some [Lit support_type];
     tr_hovertext := [];
     tr_name := Some support_type; tr_legendgroup := Some support_type;
     tr_showlegend := Some show_legend_support |}.

(** Lines 258-277. *)
Definition draw_support (st : figure * sim_results) (node : node)
  : figure * sim_results :=
  let '(fig, simulation_results) := st in
  let support_type := default "Free Joint" (nd_type node) in
  let '(marker_symbol, marker_color) :=
    default ("circle", "#1e3d59") (markers !! support_type) in
  if decide (support_type ≠ "Free Joint") then
    let legend_group_support := support_type in
    let '(show_legend_support, simulation_results) :=
      register_support_legend simulation_results legend_group_support in
    (add_trace fig
       (support_trace (nd_x node) (nd_y node) support_type
          marker_symbol marker_color show_legend_support),
     simulation_results)
  else st.

(** Lines 282-295. *)
Definition draw_load (fig : figure) (node : node) : figure :=
  let '(node_x, node_y) := (nd_x node, nd_y node) in
  let load_component_x := default 0 (nd_loadX node) in
  let load_component_y := default 0 (nd_loadY node) in
  let load_magnitude :=
    sqrt (load_component_x ^ 2 + load_component_y ^ 2) / 1000.0 in
  if decide (load_magnitude > 0.001) then
    let '(direction_x, direction_y) :=
      (load_component_x / 1000.0, load_component_y / 1000.0) in
    let norm := sqrt (direction_x ^ 2 + direction_y ^ 2) in
    let '(unit_dir_x, unit_dir_y) := (direction_x / norm, direction_y / norm) in
    let '(l_start_x, l_start_y) :=
      (node_x + unit_dir_x * 0.15 * visual_scale,
       node_y + unit_dir_y * 0.15 * visual_scale) in
    let '(l_end_x, l_end_y) :=
      (node_x + unit_dir_x * 1.6 * visual_scale,
       node_y + unit_dir_y * 1.6 * visual_scale) in
    add_trace_arrow visual_scale complexity_factor fig
      l_start_x l_start_y l_end_x l_end_y "#f43f5e" "Load Force"
      "Load Force" (Some [Fixed 1 load_magnitude; Lit " kN"]) 0.45
  else fig.

(** Lines 301-309: tail and head of the reaction arrow of a joint whose
    result has the components [rx], [ry]. *)
Definition reaction_ends (node_x node_y rx_val ry_val : R)
  : (R * R) * (R * R) :=
  let norm := sqrt (rx_val ^ 2 + ry_val ^ 2) in
  let '(unit_rx, unit_ry) := (rx_val / norm, ry_val / norm) in
  let '(r_gap, r_len) := (0.25 * visual_scale, 1.6 * visual_scale) in
  let '(r_tail_x, r_tail_y) :=
    (node_x - unit_rx * (r_len + r_gap), node_y - unit_ry * (r_len + r_gap)) in
  let '(r_head_x, r_head_y) :=
    (node_x - unit_rx * r_gap, node_y - unit_ry * r_gap) in
  ((r_tail_x, r_tail_y), (r_head_x, r_head_y)).

(** Lines 300-312. *)
Definition draw_reaction (fig : figure) (node_id : Z) (node : node)
  : figure :=
  match node_results !! node_id with
  | Some node_result =>
      let '(rx_val, ry_val) :=
        (default 0 (nr_rx node_result) / 1000.0,
         default 0 (nr_ry node_result) / 1000.0) in
      let reaction_magnitude := sqrt (rx_val ^ 2 + ry_val ^ 2) in
      if decide (reaction_magnitude > 0.001) then
        let '((r_tail_x, r_tail_y), (r_head_x, r_head_y)) :=
          reaction_ends (nd_x node) (nd_y node) rx_val ry_val in
        add_trace_arrow visual_scale complexity_factor fig
          r_tail_x r_tail_y r_head_x r_head_y "#8b5cf6" "Reaction Force"
          "Reaction Force" (Some [Lit "R: "; Fixed 1 reaction_magnitude]) 0.45
      else fig
  | None => fig
  end.

(** The state of the loop of line 247: the figure, [simulation_results] and
    the three lists [node_plot_x], [node_plot_y], [node_hover_text]. *)
Record node_loop := {
  nl_fig : figure;
  nl_sim : sim_results;
  node_plot_x : list (option R);
  node_plot_y : list (option R);
  node_hover_text : list text
}.

(** One iteration of the loop of line 247. *)
Definition node_body (st : node_loop) (item : Z * node) : node_loop :=
  let '(node_id, node) := item in
  let '(fig, simulation_results) :=
    draw_support (nl_fig st, nl_sim st) node in
  let fig := draw_load fig node in
  let fig := draw_reaction fig node_id node in
  {| nl_fig := fig;
     nl_sim := simulation_results;
     node_plot_x := node_plot_x st ++ [Some (nd_x node)];
     node_plot_y := node_plot_y st ++ [Some (nd_y node)];
     node_hover_text :=
       node_hover_text st ++ [[Lit "Joint "; IntStr node_id]] |}.

(** *** 3. Joints (lines 315-328) *)

Definition joints_trace (xs ys : list (option R)) (hover : list text)
  : trace :=
  {| tr_x := xs; tr_y := ys; tr_mode := "markers";
     tr_line := None; tr_fill := None; tr_fillcolor := None;
     tr_marker :=
       Some {| marker_symbol := None;
               marker_size :=
                 Py.max2 10
                   (12 * visual_scale / visualization_scale_multiplier);
               marker_color := "#1e3d59";
               marker_line_color := Some "white";
               marker_line_width := Some 1 |};
     tr_hoverinfo := Some "text"; tr_text := None; tr_hovertext := hover;
     tr_name := None; tr_legendgroup := None; tr_showlegend := Some false |}.

Definition joint_label (item : Z * node) : annotation :=
  let '(node_id, node) := item in
  {| an_x := nd_x node; an_y := nd_y node; an_text := [IntStr node_id];
     an_yshift := Some (10 * complexity_factor);
     an_font_color := "white";
     an_font_size := Py.min2 10 (8 + 2 * complexity_factor);
     an_font_weight := Some "bold";
     an_bgcolor := "#1e3d59"; an_bordercolor := "white";
     an_borderwidth := 1; an_borderpad := 2; an_opacity := 0.9 |}.

(** *** 4. Beam labels (lines 331-352) *)

(** Lines 340-346. *)
Definition label_bg_color (simulation_results : sim_results)
  (element : element) : string :=
  match sr_elements simulation_results !! el_id element with
  | Some beam_result =>
      let safety_val := er_safety beam_result in
      if decide (safety_val < 1) then "#ef4444"
      else if decide (safety_val < 2) then "#f59e0b"
      else "#10b981"
  | None => "#3b82f6"
  end.

Definition beam_label (simulation_results : sim_results)
  (element : element) (node_1 node_2 : node) : annotation :=
  let center_x := (nd_x node_1 + nd_x node_2) / 2 in
  let center_y := (nd_y node_1 + nd_y node_2) / 2 in
  {| an_x := center_x; an_y := center_y;
     an_text := [Lit "#"; IntStr (el_id element)];
     an_yshift := None;
     an_font_color := "white";
     an_font_size := Py.min2 10 (8 + 2 * complexity_factor);
     an_font_weight := None;
     an_bgcolor := label_bg_color simulation_results element;
     an_bordercolor := "white";
     an_borderwidth := 1; an_borderpad := 1; an_opacity := 0.9 |}.

(** One iteration of the loop of line 331. *)
Definition label_body (simulation_results : sim_results) (fig : figure)
  (element : element) : figure :=
  match od_get (el_start element) all_nodes,
        od_get (el_end element) all_nodes with
  | Some node_1, Some node_2 =>
      add_annotation fig (beam_label simulation_results element node_1 node_2)
  | _, _ => fig
  end.

(** *** Layout (lines 355-381) *)

Definition the_layout : layout :=
  {| ly_showlegend := true;
     ly_axis_color := "#64748b";
     ly_grid_color := "#cbd5e1";
     ly_xaxis_scaleanchor := "y";
     ly_xaxis_scaleratio := 1;
     ly_dragmode := "pan";
     ly_legend_x := 1.02;
     ly_legend_y := 0.99 |}.

(** Lines 139-381: everything after the metrics. *)
Definition draw_layers (all_elements : list element)
  (simulation_results : sim_results) : figure :=
  let fig := new_figure in
  let '(fig, simulation_results) :=
    fold_left beam_body all_elements (fig, simulation_results) in
  let fig := add_legend_entries fig in
  let st :=
    fold_left node_body all_nodes
      {| nl_fig := fig; nl_sim := simulation_results;
         node_plot_x := []; node_plot_y := []; node_hover_text := [] |} in
  let fig := nl_fig st in
  let simulation_results := nl_sim st in
  let fig :=
    add_trace fig
      (joints_trace (node_plot_x st) (node_plot_y st) (node_hover_text st)) in
  let fig :=
    fold_left (fun fig item => add_annotation fig (joint_label item))
      all_nodes fig in
  let fig := fold_left (label_body simulation_results) all_elements fig in
  update_layout fig the_layout.

End Layers.

(** ** [draw_bridge] (lines 34-384) *)

(** Lines 55-64: the two dictionaries read from the result file. *)
Definition simulation_results_of (output_file : option results)
  : sim_results :=
  {| sr_elements :=
       match output_file with
       | Some results_data =>
           fold_left (fun m element => <[ er_id element := element ]> m)
             (rs_elements results_data) ∅
       | None => ∅
       end;
     sr_legend_set := None;
     sr_support_legend := None |}.

Definition node_results_of (output_file : option results)
  : gmap Z node_result :=
  match output_file with
  | Some results_data =>
      fold_left (fun m node => <[ nr_id node := node ]> m)
        (rs_nodes results_data) ∅
  | None => ∅
  end.

(** Lines 72 and 82-91: the visual scale of a model; [None] is the
    [ValueError] of line 87. *)
Definition visual_scale_in (bridge_data : bridge) : option R :=
  let all_nodes := all_nodes_of (br_nodes bridge_data) in
  let all_elements := br_elements bridge_data in
  let complexity_factor := complexity_factor_of all_elements in
  match min_len_of all_nodes all_elements with
  | None => None
  | Some min_len =>
      let auto_mult := auto_mult_of all_elements in
      Some (visual_scale_of min_len complexity_factor auto_mult)
  end.

Definition draw_bridge (input_file : option bridge)
  (output_file : option results) (deformation_scale : R)
  (visualization_scale_multiplier : R) : outcome :=
  match input_file with
  | None => NoOutput
  | Some bridge_data =>
      let simulation_results := simulation_results_of output_file in
      let node_results := node_results_of output_file in
      let all_nodes := all_nodes_of (br_nodes bridge_data) in
      let all_elements := br_elements bridge_data in
      let complexity_factor := complexity_factor_of all_elements in
      let rec_h := rec_h_of all_nodes in
      match visual_scale_in bridge_data with
      | None => Raised ValueError
      | Some visual_scale =>
          Rendered
            (draw_layers all_nodes node_results visual_scale
               complexity_factor visualization_scale_multiplier
               all_elements simulation_results)
            rec_h
      end
  end.

(** ** Reading the output *)

(** A trace has a legend item unless it says [showlegend=False] (the layout
    sets [showlegend=True]). *)
Definition in_legend (t : trace) : bool :=
  match tr_showlegend t with
  | Some false => false
  | _ => true
  end.

(** The names of the legend items of a figure, in order. *)
Definition legend_names (fig : figure) : list (option string) :=
  map tr_name (List.filter in_legend (fig_data fig)).

(** A trace that draws nothing: its only point is [None]. *)
Definition legend_only (t : trace) : bool :=
  bool_decide (tr_x t = [None] /\ tr_y t = [None]).

(** The kinds of legend items: the line of a member, the glyph of a support
    and the entry of a force.  The render tells them apart by what they
    draw: a force entry draws no point, a member line is in mode ['lines'],
    a support glyph in mode ['markers']. *)
Inductive kind := MemberLine | SupportGlyph | ForceEntry.

Definition kind_of (t : trace) : kind :=
  if legend_only t then ForceEntry
  else if bool_decide (tr_mode t = "lines") then MemberLine
  else SupportGlyph.

(** The legend category of a trace: its kind and its name. *)
Definition category_of (t : trace) : option (kind * string) :=
  match tr_name t with
  | Some n => Some (kind_of t, n)
  | None => None
  end.

(** The categories of the legend items of a figure, in order. *)
Definition legend_categories (fig : figure) : list (option (kind * string)) :=
  map category_of (List.filter in_legend (fig_data fig)).

#[global] Instance kind_eq_dec : EqDecision kind.
Proof. solve_decision. Defined.

(** A figure with more traces and annotations. *)
Definition fig_app (fig : figure) (ts : list trace) (ans : list annotation)
  : figure :=
  {| fig_data := fig_data fig ++ ts;
     fig_annotations := fig_annotations fig ++ ans;
     fig_layout := fig_layout fig |}.

(** A member both of whose joints exist. *)
Definition resolvable (all_nodes : odict node) (e : element) : bool :=
  bool_decide (is_Some (od_get (el_start e) all_nodes)) &&
  bool_decide (is_Some (od_get (el_end e) all_nodes)).

(** [m] is the largest (smallest) element of [l]. *)
Definition is_max (l : list R) (m : R) : Prop :=
  In m l /\ forall x, In x l -> x <= m.

Definition is_min (l : list R) (m : R) : Prop :=
  In m l /\ forall x, In x l -> m <= x.

(** ** The formulas of the specification *)

Module Spec.

Inductive category := Draft | Unsafe | Caution | Safe.

(** Section 4.3: the classification of a member by its safety factor. *)
Definition classify (safety_factor : option R) : category :=
  match safety_factor with
  | None => Draft
  | Some sf =>
      if decide (sf < 1) then Unsafe
      else if decide (sf < 2) then Caution
      else Safe
  end.

Definition color (c : category) : string :=
  match c with
  | Draft => "#3b82f6"
  | Unsafe => "#ef4444"
  | Caution => "#f59e0b"
  | Safe => "#10b981"
  end.

Definition width (c : category) : R :=
  match c with
  | Draft => 4
  | Unsafe => 6
  | Caution => 5
  | Safe => 6
  end.

Definition label (c : category) : string :=
  match c with
  | Draft => "Beam (Draft)"
  | Unsafe => "Beam (Unsafe)"
  | Caution => "Beam (Caution)"
  | Safe => "Beam (Safe)"
  end.

(** Section 3: [VisualScale], the product floored at 0.1. *)
Definition visual_scale (min_member_length complexity_factor
  density_multiplier : R) : R :=
  Rmax 0.1
    (Rmin (min_member_length * 0.3) 0.6 * complexity_factor
     * density_multiplier).

(** Rounding to the nearest integer, ties to the even one (Python's
    [round]). *)
Definition round (x : R) : Z :=
  let f := Zfloor x in
  if decide (x - IZR f < 1 / 2) then f
  else if decide (1 / 2 < x - IZR f) then (f + 1)%Z
  else if Z.even f then f else (f + 1)%Z.

(** Section 3: [RecommendedHeight]. *)
Definition recommended_height (aspect_ratio : R) : Z :=
  Z.max 500 (Z.min 900 (500 + round (aspect_ratio * 300))).

End Spec.

(** ** Names and joints *)

(** The names that the render itself gives to legend items. *)
Definition beam_labels : list string :=
  ["Beam (Draft)"; "Beam (Unsafe)"; "Beam (Caution)"; "Beam (Safe)"].

Definition force_labels : list string :=
  ["Tension Force"; "Compression Force"; "Load Force"; "Reaction Force"].

(** The type of support of a joint, ['Free Joint'] when it has none. *)
Definition support_type_of (n : node) : string :=
  default "Free Joint" (nd_type n).

(** The badge of a reaction arrow: an annotation on the purple of the
    reactions. *)
Definition is_reaction_label (a : annotation) : bool :=
  bool_decide (an_bgcolor a = "#8b5cf6").

(** Lines 300-304: the joint has a result, of magnitude above 0.001. *)
Definition has_reaction (node_results : gmap Z node_result)
  (item : Z * node) : bool :=
  match node_results !! item.1 with
  | Some res =>
      bool_decide
        (sqrt ((default 0 (nr_rx res) / 1000.0) ^ 2
               + (default 0 (nr_ry res) / 1000.0) ^ 2) > 0.001)
  | None => false
  end.

(** ** How a figure grows, and what the loops keep *)

(** A trace without a legend item, without a name, and that draws points. *)
Definition hidden (t : trace) : Prop :=
  tr_showlegend t = Some false /\ tr_name t = None /\ legend_only t = false.

(** [fig'] is [fig] with more traces and annotations. *)
Definition extends (fig fig' : figure) : Prop :=
  exists ts ans, fig' = fig_app fig ts ans.

(** [fig'] is [fig] with more traces, all hidden, and more annotations. *)
Definition extends_hidden (fig fig' : figure) : Prop :=
  exists ts ans, fig' = fig_app fig ts ans /\ Forall hidden ts.

(** [fig'] is [fig] with more traces and annotations, [k] of which are
    badges of reaction arrows. *)
Definition adds_reaction_labels (k : nat) (fig fig' : figure) : Prop :=
  exists ts ans,
    fig' = fig_app fig ts ans /\
    length (List.filter is_reaction_label ans) = k.

(** The legend of [fig] shows each category once: those of kind [k] with a
    name in the registry [S] and those in [B]; and each trace with a
    category has it in the legend. *)
Definition legend_inv (k : kind) (S : gset string)
  (B : kind * string -> Prop) (fig : figure) : Prop :=
  NoDup (legend_categories fig) /\
  (forall c, In (Some c) (legend_categories fig) <->
             (c.1 = k /\ c.2 ∈ S) \/ B c) /\
  ~ In None (legend_categories fig) /\
  (forall t c, In t (fig_data fig) -> category_of t = Some c ->
               In (Some c) (legend_categories fig)).

(** Invariant of the loop over the members: the legend shows the registered
    classifications once each, and the loop changes nothing else of
    [simulation_results]. *)
Definition beam_loop_inv (sim0 : sim_results) (st : figure * sim_results)
  : Prop :=
  legend_inv MemberLine (default ∅ (sr_legend_set (snd st)))
    (fun _ => False) (fst st) /\
  (forall n, n ∈ default ∅ (sr_legend_set (snd st)) -> In n beam_labels) /\
  sr_support_legend (snd st) = sr_support_legend sim0 /\
  sr_elements (snd st) = sr_elements sim0 /\
  List.filter legend_only (fig_data (fst st)) = [].

(** Invariants of the loop over the joints. *)
Definition node_shape_inv (sim0 : sim_results) (L : list trace)
  (st : node_loop) : Prop :=
  sr_elements (nl_sim st) = sr_elements sim0 /\
  List.filter legend_only (fig_data (nl_fig st)) = L /\
  ~ In None (node_plot_x st).

Definition node_legend_inv (all_nodes : odict node)
  (B : kind * string -> Prop) (st : node_loop) : Prop :=
  legend_inv SupportGlyph (default ∅ (sr_support_legend (nl_sim st))) B
    (nl_fig st) /\
  (forall g, g ∈ default ∅ (sr_support_legend (nl_sim st)) ->
             exists item, In item all_nodes /\ g = support_type_of item.2).

(** ** Concrete inputs *)

Definition mk_node (id : Z) (x y : R) (ty : option string) : node :=
  {| nd_id := id; nd_x := x; nd_y := y; nd_type := ty;
     nd_loadX := None; nd_loadY := None |}.

Definition mk_element (id s e : Z) : element :=
  {| el_id := id; el_start := s; el_end := e |}.

(** The truss that the application starts with (lines 15-26): four joints,
    five members and 50 kN downward on joint 2. *)
Definition default_truss : bridge :=
  {| br_nodes :=
       [ mk_node 1 0 0 (Some "Pinned Support");
         {| nd_id := 2; nd_x := 4; nd_y := 0; nd_type := Some "Free Joint";
            nd_loadX := Some 0; nd_loadY := Some (-50000) |};
         mk_node 3 8 0 (Some "Roller Support");
         mk_node 4 4 4 (Some "Free Joint") ];
     br_elements :=
       [ mk_element 1 1 2; mk_element 2 2 3; mk_element 3 1 4;
         mk_element 4 2 4; mk_element 5 4 3 ] |}.

(** A result file for [default_truss]. *)
Definition default_results : results :=
  {| rs_elements :=
       [ {| er_id := 1; er_force := 25; er_safety := 3.2 |};
         {| er_id := 2; er_force := 25; er_safety := 1.5 |};
         {| er_id := 3; er_force := -35.4; er_safety := 0.8 |};
         {| er_id := 4; er_force := 50; er_safety := 2 |};
         {| er_id := 5; er_force := -35.4; er_safety := 1 |} ];
     rs_nodes :=
       [ {| nr_id := 1; nr_rx := Some 0; nr_ry := Some 25000 |};
         {| nr_id := 3; nr_rx := None; nr_ry := Some 25000 |} ] |}.

(** Two joints, 400 apart in [x] and 1 apart in [y]; no member. *)
Definition wide_flat : bridge :=
  {| br_nodes := [mk_node 1 0 0 None; mk_node 2 400 1 None];
     br_elements := [] |}.

(** Two joints, 100 apart in [x] and 41 apart in [y]; no member. *)
Definition slope_41 : bridge :=
  {| br_nodes := [mk_node 1 0 0 None; mk_node 2 100 41 None];
     br_elements := [] |}.

(** One member of length 1/4. *)
Definition short_member : bridge :=
  {| br_nodes := [mk_node 1 0 0 None; mk_node 2 (1 / 4) 0 None];
     br_elements := [mk_element 1 1 2] |}.

(** One joint and eight members that all end at a joint 9 that does not
    exist. *)
Definition eight_dangling : bridge :=
  {| br_nodes := [mk_node 1 0 0 None];
     br_elements :=
       map (fun i => mk_element i 1 9) [1; 2; 3; 4; 5; 6; 7; 8]%Z |}.

(** Two joints at the same place and one member between them. *)
Definition coincident_joints : bridge :=
  {| br_nodes := [mk_node 1 0 0 None; mk_node 2 0 0 None];
     br_elements := [mk_element 1 1 2] |}.



(** One joint and one member from it to itself. *)
Definition self_loop : bridge :=
  {| br_nodes := [mk_node 1 0 0 None];
     br_elements := [mk_element 1 1 1] |}.

(** ** Further readings of a figure *)

(** [fig'] is [fig] with more traces, all in [P], and more annotations, all
    in [Q]. *)
Definition extends_with (P : trace -> Prop) (Q : annotation -> Prop)
  (fig fig' : figure) : Prop :=
  exists ts ans, fig' = fig_app fig ts ans /\ Forall P ts /\ Forall Q ans.

(** The sizes of a trace are in the ranges of the render: markers from 10 to
    24.75, strokes from 0.8 to 8. *)
Definition trace_sizes_ok (t : trace) : Prop :=
  (forall m, tr_marker t = Some m -> 10 <= marker_size m <= 24.75) /\
  (forall l, tr_line t = Some l -> 0.8 <= line_width l <= 8).

(** The font of a badge is between 8.7 and 10. *)
Definition badge_font_ok (a : annotation) : Prop :=
  8.7 <= an_font_size a <= 10.

(** Lines 284-287: the joint carries a load of more than 0.001 kN. *)
Definition is_loaded (n : node) : bool :=
  bool_decide
    (sqrt (default 0 (nd_loadX n) ^ 2 + default 0 (nd_loadY n) ^ 2) / 1000.0
     > 0.001).

(** Line 262: the joint has a support. *)
Definition is_support (n : node) : bool :=
  bool_decide (support_type_of n ≠ "Free Joint").


(** The badges that one step draws, read off the step run on the empty
    figure: of the load of a joint, of its reaction, and of a member. *)
Definition load_badge (vs cf : R) (n : node) : list annotation :=
  fig_annotations (draw_load vs cf new_figure n).

Definition reaction_badge (node_results : gmap Z node_result) (vs cf : R)
  (item : Z * node) : list annotation :=
  fig_annotations (draw_reaction node_results vs cf new_figure item.1 item.2).

Definition member_badge (all_nodes : odict node) (cf : R) (sim : sim_results)
  (e : element) : list annotation :=
  fig_annotations (label_body all_nodes cf sim new_figure e).


(** The figure has an arrow of colour [color] from [tail] to [head], at the
    scale [vs].  With [u] the unit vector from [tail] to [head]: a stroke of
    that colour from [tail + 0.0384 * vs * u] to [head - 0.3744 * vs * u],
    and a filled triangle of that colour whose apex is [head] and whose two
    other corners are [0.48 * vs] away from it, in the directions of [u]
    turned by [1.11 * pi] one way and the other. *)
Definition arrow_drawn (fig : figure) (vs : R) (tail head : R * R)
  (color : string) : Prop :=
  let len := sqrt ((head.1 - tail.1) ^ 2 + (head.2 - tail.2) ^ 2) in
  let ux := (head.1 - tail.1) / len in
  let uy := (head.2 - tail.2) / len in
  let k := cos (PI * 1.11) in
  let s := sin (PI * 1.11) in
  (exists t w,
     In t (fig_data fig) /\
     tr_x t = [Some (tail.1 + 0.0384 * vs * ux);
               Some (head.1 - 0.3744 * vs * ux); None] /\
     tr_y t = [Some (tail.2 + 0.0384 * vs * uy);
               Some (head.2 - 0.3744 * vs * uy); None] /\
     tr_line t = Some {| line_color := color; line_width := w |}) /\
  (exists t,
     In t (fig_data fig) /\
     tr_x t = [Some head.1; Some (head.1 + 0.48 * vs * (k * ux - s * uy));
               Some (head.1 + 0.48 * vs * (k * ux + s * uy));
               Some head.1; None] /\
     tr_y t = [Some head.2; Some (head.2 + 0.48 * vs * (k * uy + s * ux));
               Some (head.2 + 0.48 * vs * (k * uy - s * ux));
               Some head.2; None] /\
     tr_fill t = Some "toself" /\ tr_fillcolor t = Some color).

(** A filled outline of colour [color]: the head of an arrow of that
    colour. *)
Definition is_head_of (color : string) (t : trace) : bool :=
  bool_decide (tr_fill t = Some "toself" /\ tr_fillcolor t = Some color).


(** ** Counting the traces of a figure *)

(** [fig'] is [fig] with more traces, of total weight [k] under [w], and
    exactly the annotations [ans] more. *)
Definition grows (w : trace -> nat) (k : nat) (ans : list annotation)
  (fig fig' : figure) : Prop :=
  exists ts, fig' = fig_app fig ts ans /\ list_sum (map w ts) = k.

(** The weight that counts every trace, and the one that counts the heads
    of the arrows of one colour. *)
Definition every_trace (t : trace) : nat := 1%nat.

Definition head_of (color : string) (t : trace) : nat :=
  if is_head_of color t then 1%nat else 0%nat.

(** The weight of what the loop over the members adds for one member: its
    line ([wb]) and its two internal arrows ([wa] of their colour each). *)
Definition member_weight (wb : nat) (wa : string -> nat)
  (all_nodes : odict node) (sim : sim_results) (e : element) : nat :=
  let arrows :=
    match sr_elements sim !! el_id e with
    | Some res =>
        if bool_decide (Rabs (er_force res) > 0.1)
        then (2 * wa (internal_arrow_style (er_force res)).1)%nat
        else 0%nat
    | None => 0%nat
    end in
  if resolvable all_nodes e then (wb + arrows)%nat else 0%nat.

(** The weight of what the loop over the joints adds for one joint: the
    glyph of its support ([ws]), the arrow of its load and that of its
    reaction. *)
Definition joint_weight (ws : nat) (wa : string -> nat)
  (node_results : gmap Z node_result) (item : Z * node) : nat :=
  ((if is_support item.2 then ws else 0) +
   (if is_loaded item.2 then wa "#f43f5e" else 0) +
   (if has_reaction node_results item then wa "#8b5cf6" else 0))%nat.

(** ** The page: from the three tables to the model file (lines 530-567)

    The three tables that the page edits are lists of rows; a cell that is
    empty ([pd.isna]) is [None].  The cells of the column "Support Type" are
    strings: the column is a required select box with the default
    "Free Joint".  The dictionaries that the page builds for the joints are
    Python objects shared by [final_nodes_list] and [node_map]: the list is
    the store, and [node_map] maps an id to the position in the list of the
    object that it names. *)

Record node_row := {
  row_joint : option R;
  row_x : option R;
  row_y : option R;
  row_support : string
}.

Record load_row := {
  row_target : option R;
  row_weight : option R;
  row_angle : option R
}.

Record beam_row := {
  row_beam : option R;
  row_from : option R;
  row_to : option R
}.

(** A joint and a member as they are written to the model file. *)
Record written_node := {
  wn_id : Z;
  wn_x : R;
  wn_y : R;
  wn_isFixedX : string;
  wn_isFixedY : string;
  wn_loadX : R;
  wn_loadY : R;
  wn_type : string
}.

Record written_beam := {
  wb_id : Z;
  wb_start : Z;
  wb_end : Z;
  wb_E : R;
  wb_A : R;
  wb_yield : R
}.

(** [str(b).lower()] *)
Definition str_lower (b : bool) : string := if b then "true" else "false".

(** [np.radians] *)
Definition radians (deg : R) : R := deg * PI / 180.

(** Lines 535-548: the loop over the rows of the joints; the state is
    [valid_node_ids] and [final_nodes_list]. *)
Definition node_step (st : gset Z * list written_node) (row : node_row)
  : gset Z * list written_node :=
  let '(valid_node_ids, final_nodes_list) := st in
  match row_joint row, row_x row, row_y row with
  | Some idx, Some x, Some y =>
      let nid := Py.int idx in
      let stype := row_support row in
      let fx :=
        str_lower (bool_decide (stype = "Pinned Support")
                   || bool_decide (stype = "Fixed (Rigid)")) in
      let fy := str_lower (negb (bool_decide (stype = "Free Joint"))) in
      ({[ nid ]} ∪ valid_node_ids,
       final_nodes_list ++
       [ {| wn_id := nid; wn_x := x; wn_y := y;
            wn_isFixedX := fx; wn_isFixedY := fy;
            wn_loadX := 0; wn_loadY := 0; wn_type := stype |} ])%list
  | _, _, _ => st
  end.

Definition process_nodes (rows : list node_row) : gset Z * list written_node :=
  fold_left node_step rows (∅, []).

(** Line 551: [{n["id"]: n for n in final_nodes_list}], each object named by
    its position in the list. *)
Definition node_map_of (final_nodes_list : list written_node) : gmap Z nat :=
  fold_left (fun m '(i, n) => <[ wn_id n := i ]> m)
    (zip (seq 0 (length final_nodes_list)) final_nodes_list) ∅.

(** Lines 556-557: the two [+=] on the object. *)
Definition add_load (mag rad : R) (n : written_node) : written_node :=
  {| wn_id := wn_id n; wn_x := wn_x n; wn_y := wn_y n;
     wn_isFixedX := wn_isFixedX n; wn_isFixedY := wn_isFixedY n;
     wn_loadX := wn_loadX n + mag * cos rad * 1000.0;
     wn_loadY := wn_loadY n + mag * sin rad * 1000.0;
     wn_type := wn_type n |}.

(** Lines 552-557: one row of the loads. *)
Definition load_step (node_map : gmap Z nat)
  (final_nodes_list : list written_node) (row : load_row)
  : list written_node :=
  match row_target row, row_weight row, row_angle row with
  | Some tj, Some mag, Some ang =>
      match node_map !! Py.int tj with
      | Some ref =>
          let rad := radians ang in
          alter (add_load mag rad) ref final_nodes_list
      | None => final_nodes_list
      end
  | _, _, _ => final_nodes_list
  end.

Definition process_loads (final_nodes_list : list written_node)
  (rows : list load_row) : list written_node :=
  let node_map := node_map_of final_nodes_list in
  fold_left (load_step node_map) rows final_nodes_list.

(** Lines 559-564: the loop over the rows of the members. *)
Definition beam_step (valid_node_ids : gset Z) (E A yield : R)
  (final_beams_list : list written_beam) (row : beam_row)
  : list written_beam :=
  match row_beam row, row_from row, row_to row with
  | Some bid, Some start, Some end_ =>
      let '(s, e) := (Py.int start, Py.int end_) in
      if bool_decide (s ≠ e) && bool_decide (s ∈ valid_node_ids)
         && bool_decide (e ∈ valid_node_ids)
      then (final_beams_list ++
            [ {| wb_id := Py.int bid; wb_start := s; wb_end := e;
                 wb_E := E; wb_A := A; wb_yield := yield |} ])%list
      else final_beams_list
  | _, _, _ => final_beams_list
  end.

Definition process_beams (valid_node_ids : gset Z) (E A yield : R)
  (rows : list beam_row) : list written_beam :=
  fold_left (beam_step valid_node_ids E A yield) rows [].

(** Lines 566-567 and 49-53: the file written by [json.dump] and read back
    by [draw_bridge]. *)
Definition read_node (n : written_node) : node :=
  {| nd_id := wn_id n; nd_x := wn_x n; nd_y := wn_y n;
     nd_type := Some (wn_type n);
     nd_loadX := Some (wn_loadX n); nd_loadY := Some (wn_loadY n) |}.

Definition read_beam (e : written_beam) : element :=
  {| el_id := wb_id e; el_start := wb_start e; el_end := wb_end e |}.

Definition written_nodes (nodes : list node_row) (loads : list load_row)
  : list written_node :=
  process_loads (process_nodes nodes).2 loads.

Definition written_beams (nodes : list node_row) (beams : list beam_row)
  (E A yield : R) : list written_beam :=
  process_beams (process_nodes nodes).1 E A yield beams.

Definition written_model (nodes : list node_row) (loads : list load_row)
  (beams : list beam_row) (E A yield : R) : bridge :=
  {| br_nodes := map read_node (written_nodes nodes loads);
     br_elements := map read_beam (written_beams nodes beams E A yield) |}.

(** The load that the rows of the loads put on the joint [id], one
    component: the sum, in the order of the rows, over the rows with no
    empty cell whose target is [id]. *)
Definition load_term (component : R -> R) (id : Z) (acc : R)
  (row : load_row) : R :=
  match row_target row, row_weight row, row_angle row with
  | Some tj, Some mag, Some ang =>
      if bool_decide (Py.int tj = id)
      then acc + mag * component (radians ang) * 1000.0
      else acc
  | _, _, _ => acc
  end.


(** Two written joints that differ at most by their load. *)
Definition same_joint (w w' : written_node) : Prop :=
  wn_id w = wn_id w' /\ wn_x w = wn_x w' /\ wn_y w = wn_y w' /\
  wn_isFixedX w = wn_isFixedX w' /\ wn_isFixedY w = wn_isFixedY w' /\
  wn_type w = wn_type w'.

(** The three tables that a new session starts with (lines 13-29). *)
Definition default_node_rows : list node_row :=
  [ {| row_joint := Some 1; row_x := Some 0; row_y := Some 0;
       row_support := "Pinned Support" |};
    {| row_joint := Some 2; row_x := Some 4; row_y := Some 0;
       row_support := "Free Joint" |};
    {| row_joint := Some 3; row_x := Some 8; row_y := Some 0;
       row_support := "Roller Support" |};
    {| row_joint := Some 4; row_x := Some 4; row_y := Some 4;
       row_support := "Free Joint" |} ].

Definition default_beam_rows : list beam_row :=
  [ {| row_beam := Some 1; row_from := Some 1; row_to := Some 2 |};
    {| row_beam := Some 2; row_from := Some 2; row_to := Some 3 |};
    {| row_beam := Some 3; row_from := Some 1; row_to := Some 4 |};
    {| row_beam := Some 4; row_from := Some 2; row_to := Some 4 |};
    {| row_beam := Some 5; row_from := Some 4; row_to := Some 3 |} ].

Definition default_load_rows : list load_row :=
  [ {| row_target := Some 2; row_weight := Some 50;
       row_angle := Some 270 |} ].



(** ** The results panel (lines 627-631 and 655-659) *)




(** Lines 627-628: [min(safety_factors) if safety_factors else 0]. *)
Definition min_safety_factor (results_data : results) : R :=
  let safety_factors := map er_safety (rs_elements results_data) in
  default 0 (Py.min safety_factors).

(** Line 630: the banner reads "System is SAFE", and "System is FAILING"
    otherwise. *)
Definition banner_safe (results_data : results) : bool :=
  bool_decide (min_safety_factor results_data > 1).

(** A result file for [default_truss] in which every member is at least at
    its limit, one of them exactly. *)
Definition limit_results : results :=
  {| rs_elements :=
       [ {| er_id := 1; er_force := 25; er_safety := 3.2 |};
         {| er_id := 2; er_force := 5; er_safety := 1 |} ];
     rs_nodes := [] |}.

(** A result file in which every member is above its limit. *)
Definition safe_results : results :=
  {| rs_elements :=
       [ {| er_id := 1; er_force := 25000; er_safety := 3.2 |};
         {| er_id := 2; er_force := -5; er_safety := 1.5 |} ];
     rs_nodes := [] |}.


(** * Properties *)

(** ** Python's [max] and [min] are the mathematical ones *)

Lemma max2_Rmax a b : Py.max2 a b = Rmax a b.
Proof.
  unfold Py.max2, Rmax.
  destruct (decide (a < b)), (Rle_dec a b); lra.
Qed.

Lemma min2_Rmin a b : Py.min2 a b = Rmin a b.
Proof.
  unfold Py.min2, Rmin.
  destruct (decide (b < a)), (Rle_dec a b); lra.
Qed.

Lemma fold_max2_is_max t : forall x, is_max (x :: t) (fold_left Py.max2 t x).
Proof.
  induction t as [|y t IH]; intros x; simpl.
  - split; [now left|]. intros z [<-|[]]. lra.
  - destruct (IH (Py.max2 x y)) as [Hin Hub]. split.
    + destruct Hin as [Heq|Hin]; [|now right; right].
      rewrite <- Heq. unfold Py.max2. destruct (decide (x < y)); simpl; auto.
    + intros z Hz.
      assert (x <= Py.max2 x y /\ y <= Py.max2 x y) as [Hx Hy]
        by (unfold Py.max2; destruct (decide (x < y)); lra).
      assert (Py.max2 x y <= fold_left Py.max2 t (Py.max2 x y))
        by (apply Hub; now left).
      destruct Hz as [<-|[<-|Hz]]; [lra|lra|].
      apply Hub. now right.
Qed.

Lemma fold_min2_is_min t : forall x, is_min (x :: t) (fold_left Py.min2 t x).
Proof.
  induction t as [|y t IH]; intros x; simpl.
  - split; [now left|]. intros z [<-|[]]. lra.
  - destruct (IH (Py.min2 x y)) as [Hin Hlb]. split.
    + destruct Hin as [Heq|Hin]; [|now right; right].
      rewrite <- Heq. unfold Py.min2. destruct (decide (y < x)); simpl; auto.
    + intros z Hz.
      assert (Py.min2 x y <= x /\ Py.min2 x y <= y) as [Hx Hy]
        by (unfold Py.min2; destruct (decide (y < x)); lra).
      assert (fold_left Py.min2 t (Py.min2 x y) <= Py.min2 x y)
        by (apply Hlb; now left).
      destruct Hz as [<-|[<-|Hz]]; [lra|lra|].
      apply Hlb. now right.
Qed.

Lemma py_max_is_max l m : Py.max l = Some m -> is_max l m.
Proof.
  destruct l as [|x t]; simpl; [discriminate|].
  intros [= <-]. apply fold_max2_is_max.
Qed.

Lemma py_min_is_min l m : Py.min l = Some m -> is_min l m.
Proof.
  destruct l as [|x t]; simpl; [discriminate|].
  intros [= <-]. apply fold_min2_is_min.
Qed.

Lemma is_max_unique l m m' : is_max l m -> is_max l m' -> m = m'.
Proof. intros [H1 H2] [H3 H4]. apply Rle_antisym; auto. Qed.

Lemma is_min_unique l m m' : is_min l m -> is_min l m' -> m = m'.
Proof. intros [H1 H2] [H3 H4]. apply Rle_antisym; auto. Qed.

Lemma is_min_le_is_max l lo hi : is_min l lo -> is_max l hi -> lo <= hi.
Proof. intros [H1 H2] [H3 H4]. auto. Qed.

(** ** Scene metrics *)

Lemma complexity_factor_range es :
  0.35 <= complexity_factor_of es <= 1.
Proof.
  unfold complexity_factor_of. rewrite !max2_Rmax.
  split; [apply Rmax_l|].
  apply Rmax_lub; [lra|].
  assert (H12 : 12 <= Rmax 12 (INR (length es))) by apply Rmax_l.
  rewrite <- sqrt_1. apply sqrt_le_1_alt.
  apply Rmult_le_reg_r with (Rmax 12 (INR (length es))); [lra|].
  unfold Rdiv. rewrite Rmult_assoc, Rinv_l by lra. lra.
Qed.

Lemma auto_mult_cases es :
  auto_mult_of es = 0.55 \/ auto_mult_of es = 0.75 \/ auto_mult_of es = 0.65.
Proof.
  unfold auto_mult_of. repeat case_decide; auto.
Qed.

Lemma auto_mult_pos es : 0 < auto_mult_of es.
Proof. destruct (auto_mult_cases es) as [->|[->| ->]]; lra. Qed.

Lemma visual_scale_of_clamp ml cf am :
  visual_scale_of ml cf am = Rmax 0.1 (Rmin (ml * 0.3) 0.6) * cf * am.
Proof. unfold visual_scale_of. now rewrite max2_Rmax, min2_Rmin. Qed.

Lemma visual_scale_of_pos ml es :
  0 < visual_scale_of ml (complexity_factor_of es) (auto_mult_of es).
Proof.
  rewrite visual_scale_of_clamp.
  pose proof (complexity_factor_range es) as [Hc _].
  pose proof (auto_mult_pos es) as Ha.
  pose proof (Rmax_l 0.1 (Rmin (ml * 0.3) 0.6)) as Hm.
  apply Rmult_lt_0_compat; [apply Rmult_lt_0_compat|]; lra.
Qed.

Lemma visual_scale_in_pos b vs : visual_scale_in b = Some vs -> 0 < vs.
Proof.
  unfold visual_scale_in.
  destruct (min_len_of _ _); [|discriminate].
  intros [= <-]. apply visual_scale_of_pos.
Qed.

Lemma rec_h_range an : (500 <= rec_h_of an <= 900)%Z.
Proof. unfold rec_h_of. lia. Qed.

(** ** When the metrics exist *)

Lemma sqrt_zero_vec a b : sqrt ((a - a) ^ 2 + (b - b) ^ 2) = 0.
Proof.
  replace ((a - a) ^ 2 + (b - b) ^ 2) with 0 by ring. apply sqrt_0.
Qed.

Lemma filter_pos_In (l : list R) x :
  In x (List.filter (fun l => bool_decide (l > 0)) l) <-> In x l /\ x > 0.
Proof. rewrite filter_In, bool_decide_eq_true. tauto. Qed.

(** [min_len] is defined as soon as no member is drawable or one of the
    drawable members has a positive length; it is then the smallest positive
    length, or 2 without drawable member. *)
Lemma min_len_of_defined an es :
  lengths_of an es = [] \/ (exists l, In l (lengths_of an es) /\ l > 0) ->
  exists ml,
    min_len_of an es = Some ml /\
    ((lengths_of an es = [] /\ ml = 2) \/
     (is_min (List.filter (fun l => bool_decide (l > 0)) (lengths_of an es))
        ml)).
Proof.
  intros H. unfold min_len_of.
  destruct es as [|e es]; [exists 2; split; auto|].
  destruct (lengths_of an (e :: es)) as [|l0 ls] eqn:El.
  - exists 2. auto.
  - destruct H as [H|(l & Hl & Hpos)]; [discriminate|].
    destruct (Py.min (List.filter (fun l => bool_decide (l > 0)) (l0 :: ls)))
      as [ml|] eqn:Em.
    + exists ml. split; [reflexivity|]. right. now apply py_min_is_min.
    + exfalso.
      assert (Hin : In l (List.filter (fun l => bool_decide (l > 0))
                            (l0 :: ls)))
        by (apply filter_pos_In; auto).
      destruct (List.filter _ (l0 :: ls)); [destruct Hin|discriminate].
Qed.

(** Conversely the [ValueError] of line 87 is raised exactly when there are
    drawable members and none has a positive length. *)
Lemma min_len_of_none an es :
  min_len_of an es = None <->
  lengths_of an es <> [] /\ (forall l, In l (lengths_of an es) -> ~ l > 0).
Proof.
  split.
  - intros Hn.
    destruct (lengths_of an es) as [|l0 ls] eqn:El.
    + destruct (min_len_of_defined an es) as (ml & Hml & _); [now left|].
      congruence.
    + split; [discriminate|]. intros l Hl Hpos.
      destruct (min_len_of_defined an es) as (ml & Hml & _); [|congruence].
      right. exists l. rewrite El. auto.
  - intros [Hne Hall]. unfold min_len_of.
    destruct es as [|e es]; [now elim Hne|].
    destruct (lengths_of an (e :: es)) as [|l0 ls] eqn:El; [now elim Hne|].
    destruct (List.filter (fun l => bool_decide (l > 0)) (l0 :: ls))
      as [|x xs] eqn:Ef; [reflexivity|].
    exfalso. apply (Hall x).
    + eapply filter_pos_In. rewrite Ef. now left.
    + eapply filter_pos_In. rewrite Ef. now left.
Qed.

(** ** Evaluation on the degenerate models *)

Lemma visual_scale_in_coincident : visual_scale_in coincident_joints = None.
Proof.
  unfold visual_scale_in.
  replace (min_len_of _ _) with (@None R); [reflexivity|].
  symmetry. apply min_len_of_none.
  change (lengths_of _ _) with [sqrt ((0 - 0) ^ 2 + (0 - 0) ^ 2)].
  rewrite sqrt_zero_vec. split; [discriminate|].
  intros l [<-|[]]. lra.
Qed.

Lemma visual_scale_in_self_loop : visual_scale_in self_loop = None.
Proof.
  unfold visual_scale_in.
  replace (min_len_of _ _) with (@None R); [reflexivity|].
  symmetry. apply min_len_of_none.
  change (lengths_of _ _) with [sqrt ((0 - 0) ^ 2 + (0 - 0) ^ 2)].
  rewrite sqrt_zero_vec. split; [discriminate|].
  intros l [<-|[]]. lra.
Qed.

(** ** What a successful call returns *)

Lemma draw_bridge_rendered b r ds mult fig h :
  draw_bridge (Some b) r ds mult = Rendered fig h ->
  h = rec_h_of (all_nodes_of (br_nodes b)) /\
  exists vs,
    visual_scale_in b = Some vs /\
    fig = draw_layers (all_nodes_of (br_nodes b)) (node_results_of r) vs
            (complexity_factor_of (br_elements b)) mult (br_elements b)
            (simulation_results_of r).
Proof.
  unfold draw_bridge. destruct (visual_scale_in b) as [vs|]; [|discriminate].
  intros [= <- <-]. eauto.
Qed.

Lemma draw_bridge_defined b r ds mult vs :
  visual_scale_in b = Some vs ->
  draw_bridge (Some b) r ds mult =
  Rendered
    (draw_layers (all_nodes_of (br_nodes b)) (node_results_of r) vs
       (complexity_factor_of (br_elements b)) mult (br_elements b)
       (simulation_results_of r))
    (rec_h_of (all_nodes_of (br_nodes b))).
Proof. unfold draw_bridge. now intros ->. Qed.

(** ** Rounding to binary64 *)

Lemma nearest_even_bound x : Rabs (IZR (Py.nearest_even x) - x) <= 1 / 2.
Proof.
  unfold Py.nearest_even. pose proof (Zfloor_bound x) as Hb.
  destruct (decide (x - IZR (Zfloor x) < 1 / 2)).
  - rewrite Rabs_left1; lra.
  - destruct (decide (1 / 2 < x - IZR (Zfloor x))).
    + rewrite plus_IZR. rewrite Rabs_right; lra.
    + destruct (Z.even (Zfloor x)).
      * rewrite Rabs_left1; lra.
      * rewrite plus_IZR. rewrite Rabs_right; lra.
Qed.

Lemma IZR_lt_succ a b : IZR a < IZR b + 1 -> (a <= b)%Z.
Proof.
  intros H. rewrite <- plus_IZR in H. apply lt_IZR in H. lia.
Qed.

Lemma nearest_even_eq x n :
  Rabs (x - IZR n) < 1 / 2 -> Py.nearest_even x = n.
Proof.
  intros H. apply Rabs_def2 in H. destruct H as [H1 H2].
  pose proof (Zfloor_bound x) as Hb.
  unfold Py.nearest_even.
  destruct (decide (x - IZR (Zfloor x) < 1 / 2)) as [Hlt|Hge].
  - assert (Zfloor x <= n)%Z by (apply IZR_lt_succ; lra).
    assert (n <= Zfloor x)%Z by (apply IZR_lt_succ; lra).
    lia.
  - assert (Hn : (Zfloor x + 1 = n)%Z).
    { assert (Zfloor x + 1 <= n)%Z
        by (apply IZR_lt_succ; rewrite plus_IZR; lra).
      assert (n <= Zfloor x + 1)%Z
        by (apply IZR_lt_succ; rewrite plus_IZR; lra).
      lia. }
    destruct (decide (1 / 2 < x - IZR (Zfloor x))) as [Hgt|Hle];
      [exact Hn|].
    exfalso. rewrite <- Hn, plus_IZR in H1, H2. lra.
Qed.

(** The exponent of a number. *)
Lemma ln_2_pos : 0 < ln 2.
Proof. rewrite <- ln_1. apply ln_increasing; lra. Qed.

Lemma powerRZ_2_exp k : powerRZ 2 k = exp (IZR k * ln 2).
Proof. rewrite powerRZ_Rpower by lra. reflexivity. Qed.

Lemma exponent_bound x :
  x <> 0 ->
  let k := Zfloor (ln (Rabs x) / ln 2) in
  powerRZ 2 k <= Rabs x < powerRZ 2 (k + 1).
Proof.
  intros Hx k. pose proof ln_2_pos as H2.
  assert (Hpos : 0 < Rabs x) by (apply Rabs_pos_lt; exact Hx).
  pose proof (Zfloor_bound (ln (Rabs x) / ln 2)) as [Hlo Hhi].
  fold k in Hlo, Hhi.
  rewrite !powerRZ_2_exp, plus_IZR.
  assert (Hl : IZR k * ln 2 <= ln (Rabs x)).
  { apply (Rmult_le_compat_r (ln 2)) in Hlo; [|lra].
    unfold Rdiv in Hlo. rewrite Rmult_assoc, Rinv_l, Rmult_1_r in Hlo; lra. }
  assert (Hh : ln (Rabs x) < (IZR k + 1) * ln 2).
  { apply (Rmult_lt_compat_r (ln 2)) in Hhi; [|lra].
    unfold Rdiv in Hhi. rewrite Rmult_assoc, Rinv_l, Rmult_1_r in Hhi; lra. }
  split; rewrite <- (exp_ln (Rabs x) Hpos).
  - destruct Hl as [Hl|Hl];
      [left; now apply exp_increasing|right; now rewrite Hl].
  - now apply exp_increasing.
Qed.

Lemma exponent_eq x k :
  powerRZ 2 k <= Rabs x < powerRZ 2 (k + 1) ->
  Zfloor (ln (Rabs x) / ln 2) = k.
Proof.
  intros [Hlo Hhi]. pose proof ln_2_pos as H2.
  assert (Hpos : 0 < Rabs x).
  { eapply Rlt_le_trans; [|exact Hlo]. apply powerRZ_lt. lra. }
  rewrite !powerRZ_2_exp, plus_IZR in *.
  rewrite <- (exp_ln (Rabs x)) in Hlo, Hhi by exact Hpos.
  apply exp_lt_inv in Hhi.
  assert (Hl : IZR k * ln 2 <= ln (Rabs x)).
  { destruct Hlo as [Hlo|Hlo];
      [left; now apply exp_lt_inv|right; now apply exp_inv]. }
  apply Zfloor_eq. split.
  - apply (Rmult_le_reg_r (ln 2)); [lra|].
    unfold Rdiv. rewrite Rmult_assoc, Rinv_l, Rmult_1_r; lra.
  - apply (Rmult_lt_reg_r (ln 2)); [lra|].
    unfold Rdiv. rewrite Rmult_assoc, Rinv_l, Rmult_1_r; lra.
Qed.

Lemma Rabs_le_between a b : Rabs a <= b -> - b <= a <= b.
Proof. unfold Rabs. destruct (Rcase_abs a); lra. Qed.

Lemma powerRZ_2_pos k : 0 < powerRZ 2 k.
Proof. apply powerRZ_lt. lra. Qed.

Lemma powerRZ_2_add a b : powerRZ 2 (a + b) = powerRZ 2 a * powerRZ 2 b.
Proof. apply powerRZ_add. lra. Qed.

Lemma powerRZ_2_52 : powerRZ 2 52 = 4503599627370496.
Proof. simpl. lra. Qed.

(** The significand of [x] at the exponent of its last bit. *)
Lemma float_scaled x :
  x <> 0 ->
  let k := Zfloor (ln (Rabs x) / ln 2) in
  let y := x * powerRZ 2 (- (k - 52)) in
  x = y * powerRZ 2 (k - 52) /\ powerRZ 2 52 <= Rabs y /\
  Py.float x = IZR (Py.nearest_even y) * powerRZ 2 (k - 52).
Proof.
  intros Hx k y.
  pose proof (exponent_bound x Hx) as [Hlo _]. fold k in Hlo.
  split; [|split].
  - unfold y. rewrite Rmult_assoc, <- powerRZ_2_add.
    replace (- (k - 52) + (k - 52))%Z with 0%Z by lia. simpl. lra.
  - unfold y. rewrite Rabs_mult, (Rabs_right (powerRZ 2 _))
      by (apply Rle_ge, Rlt_le, powerRZ_2_pos).
    replace 52%Z with (k + - (k - 52))%Z at 1 by lia.
    rewrite powerRZ_2_add.
    apply Rmult_le_compat_r; [apply Rlt_le, powerRZ_2_pos|exact Hlo].
  - unfold Py.float. destruct (decide (x = 0)); [contradiction|reflexivity].
Qed.

Lemma float_0 : Py.float 0 = 0.
Proof. unfold Py.float. now destruct (decide (0 = 0)). Qed.

(** Rounding keeps the sign. *)
Lemma float_pos x : 0 < x -> 0 < Py.float x.
Proof.
  intros Hx. destruct (float_scaled x) as (Hxy & Hy & ->); [lra|].
  set (k := Zfloor (ln (Rabs x) / ln 2)) in *.
  set (y := x * powerRZ 2 (- (k - 52))) in *.
  pose proof (powerRZ_2_pos (k - 52)) as Hp.
  pose proof (powerRZ_2_pos (- (k - 52))) as Hq.
  assert (0 < y) by (unfold y; apply Rmult_lt_0_compat; assumption).
  rewrite Rabs_right, powerRZ_2_52 in Hy by lra.
  pose proof (nearest_even_bound y) as Hn. apply Rabs_le_between in Hn.
  apply Rmult_lt_0_compat; [lra|exact Hp].
Qed.

Lemma float_neg x : x < 0 -> Py.float x < 0.
Proof.
  intros Hx. destruct (float_scaled x) as (Hxy & Hy & ->); [lra|].
  set (k := Zfloor (ln (Rabs x) / ln 2)) in *.
  set (y := x * powerRZ 2 (- (k - 52))) in *.
  pose proof (powerRZ_2_pos (k - 52)) as Hp.
  pose proof (powerRZ_2_pos (- (k - 52))) as Hq.
  assert (y < 0) by (unfold y; nra).
  rewrite Rabs_left, powerRZ_2_52 in Hy by lra.
  pose proof (nearest_even_bound y) as Hn. apply Rabs_le_between in Hn.
  nra.
Qed.

Lemma float_nonneg x : 0 <= x -> 0 <= Py.float x.
Proof.
  intros [H|<-]; [left; now apply float_pos|rewrite float_0; lra].
Qed.

Lemma float_gt_0 x : Py.float x > 0 <-> x > 0.
Proof.
  split; [|apply float_pos].
  intros H.
  destruct (Rtotal_order x 0) as [Hn|[->|Hp]];
    [|rewrite float_0 in H; lra|exact Hp].
  apply float_neg in Hn. lra.
Qed.

(** The relative error of one rounding is at most [2^-53]. *)
Lemma float_error x : Rabs (Py.float x - x) <= powerRZ 2 (-53) * Rabs x.
Proof.
  destruct (decide (x = 0)) as [->|Hx].
  - rewrite float_0, Rminus_0_r, Rabs_R0. lra.
  - destruct (float_scaled x Hx) as (Hxy & Hy & ->).
    pose proof (exponent_bound x Hx) as [Hlo _].
    set (k := Zfloor (ln (Rabs x) / ln 2)) in *.
    set (y := x * powerRZ 2 (- (k - 52))) in *.
    pose proof (powerRZ_2_pos (k - 52)) as Hp.
    rewrite Hxy at 1. rewrite <- Rmult_minus_distr_r, Rabs_mult.
    rewrite (Rabs_right (powerRZ 2 _)) by lra.
    pose proof (nearest_even_bound y) as Hn.
    assert (Hk : powerRZ 2 k = powerRZ 2 (k - 52) * powerRZ 2 52).
    { rewrite <- powerRZ_2_add. f_equal. lia. }
    assert (H53 : powerRZ 2 (-53) * powerRZ 2 52 = 1 / 2).
    { rewrite <- powerRZ_2_add. simpl. lra. }
    pose proof (powerRZ_2_pos (-53)) as Hc.
    apply Rle_trans with (1 / 2 * powerRZ 2 (k - 52)).
    + apply Rmult_le_compat_r; [lra|exact Hn].
    + rewrite <- H53.
      replace (powerRZ 2 (-53) * powerRZ 2 52 * powerRZ 2 (k - 52))
        with (powerRZ 2 (-53) * powerRZ 2 k) by (rewrite Hk; ring).
      apply Rmult_le_compat_l; [lra|exact Hlo].
Qed.

(** How a rounding is computed: the exponent from two powers of 2 around
    [x], the significand from an integer within 1/2 of the scaled value. *)
Lemma float_eq x k n :
  powerRZ 2 k <= Rabs x < powerRZ 2 (k + 1) ->
  Rabs (x * powerRZ 2 (52 - k) - IZR n) < 1 / 2 ->
  Py.float x = IZR n * powerRZ 2 (k - 52).
Proof.
  intros Hk Hn.
  assert (Hx : x <> 0).
  { intros ->. rewrite Rabs_R0 in Hk. pose proof (powerRZ_2_pos k). lra. }
  destruct (float_scaled x Hx) as (_ & _ & ->).
  rewrite (exponent_eq x k Hk).
  replace (- (k - 52))%Z with (52 - k)%Z by lia.
  now rewrite (nearest_even_eq _ n Hn).
Qed.

(** ** Recommended height *)

Lemma aspect_ratio_of_extents an xlo xhi ylo yhi :
  is_min (map (fun kv => nd_x (snd kv)) an) xlo ->
  is_max (map (fun kv => nd_x (snd kv)) an) xhi ->
  is_min (map (fun kv => nd_y (snd kv)) an) ylo ->
  is_max (map (fun kv => nd_y (snd kv)) an) yhi ->
  aspect_ratio_of an =
  if decide (xhi - xlo > 0)
  then Py.float (Py.float (yhi - ylo) / Py.float (xhi - xlo))
  else 1.
Proof.
  intros Hxlo Hxhi Hylo Hyhi. unfold aspect_ratio_of.
  destruct (Py.max (map (fun kv => nd_x (snd kv)) an)) as [xhi'|] eqn:E1;
    [|destruct an; [destruct Hxlo as [[] _]|discriminate]].
  destruct (Py.min (map (fun kv => nd_x (snd kv)) an)) as [xlo'|] eqn:E2;
    [|destruct an; [destruct Hxlo as [[] _]|discriminate]].
  destruct (Py.max (map (fun kv => nd_y (snd kv)) an)) as [yhi'|] eqn:E3;
    [|destruct an; [destruct Hxlo as [[] _]|discriminate]].
  destruct (Py.min (map (fun kv => nd_y (snd kv)) an)) as [ylo'|] eqn:E4;
    [|destruct an; [destruct Hxlo as [[] _]|discriminate]].
  apply py_max_is_max in E1, E3. apply py_min_is_min in E2, E4.
  rewrite (is_max_unique _ _ _ E1 Hxhi), (is_min_unique _ _ _ E2 Hxlo),
    (is_max_unique _ _ _ E3 Hyhi), (is_min_unique _ _ _ E4 Hylo).
  pose proof (float_gt_0 (xhi - xlo)) as Hgt.
  destruct (decide (Py.float (xhi - xlo) > 0)),
    (decide (xhi - xlo > 0)); tauto.
Qed.

Lemma aspect_ratio_of_nonneg an : 0 <= aspect_ratio_of an.
Proof.
  unfold aspect_ratio_of.
  set (xs := map (fun kv => nd_x (snd kv)) an).
  set (ys := map (fun kv => nd_y (snd kv)) an).
  assert (Hdy : 0 <= match Py.max ys, Py.min ys with
                     | Some hi, Some lo => Py.float (hi - lo)
                     | _, _ => 5
                     end).
  { destruct (Py.max ys) as [hi|] eqn:E1; [|lra].
    destruct (Py.min ys) as [lo|] eqn:E2; [|lra].
    apply py_max_is_max in E1. apply py_min_is_min in E2.
    pose proof (is_min_le_is_max _ _ _ E2 E1).
    apply float_nonneg. lra. }
  case_decide; [|lra].
  apply float_nonneg, Rmult_le_pos; [assumption|].
  apply Rlt_le, Rinv_0_lt_compat. lra.
Qed.

Lemma py_int_nonneg x : 0 <= x -> Py.int x = Zfloor x.
Proof. intros H. unfold Py.int. case_decide; [reflexivity|lra]. Qed.

Lemma rec_h_of_floor an :
  rec_h_of an =
  Z.max 500
    (Z.min 900 (500 + Zfloor (Py.float (aspect_ratio_of an * 300)))).
Proof.
  unfold rec_h_of. rewrite py_int_nonneg; [reflexivity|].
  apply float_nonneg.
  pose proof (aspect_ratio_of_nonneg an). nra.
Qed.

(** Rounding [x], given two powers of 2 around it and the integer nearest
    to its significand. *)
Ltac float_by k n :=
  rewrite (float_eq _ k n);
  [simpl; lra
  |rewrite Rabs_right by lra; simpl; lra
  |simpl; apply Rabs_def1; lra].

Lemma aspect_ratio_wide_flat :
  aspect_ratio_of (all_nodes_of (br_nodes wide_flat)) =
  5764607523034235 / 2305843009213693952.
Proof.
  rewrite (aspect_ratio_of_extents _ 0 400 0 1).
  - destruct (decide (400 - 0 > 0)); [|lra].
    replace (Py.float (1 - 0)) with 1 by (float_by 0%Z 4503599627370496%Z).
    replace (Py.float (400 - 0)) with 400
      by (float_by 8%Z 7036874417766400%Z).
    float_by (-9)%Z 5764607523034235%Z.
  - split; [now left|]. intros x [<-|[<-|[]]]; simpl; lra.
  - split; [now right; left|]. intros x [<-|[<-|[]]]; simpl; lra.
  - split; [now left|]. intros x [<-|[<-|[]]]; simpl; lra.
  - split; [now right; left|]. intros x [<-|[<-|[]]]; simpl; lra.
Qed.

Lemma product_wide_flat :
  Py.float (aspect_ratio_of (all_nodes_of (br_nodes wide_flat)) * 300)
  = 0.75.
Proof.
  rewrite aspect_ratio_wide_flat. float_by (-1)%Z 6755399441055744%Z.
Qed.

Lemma visual_scale_in_wide_flat :
  visual_scale_in wide_flat =
  Some (visual_scale_of 2 (complexity_factor_of []) (auto_mult_of [])).
Proof. reflexivity. Qed.

(** C6, as stated, fails.  For two joints at (0, 0) and (400, 1) the aspect
    ratio times 300 is 0.75, in binary64 as in exact arithmetic: the call
    returns the height 500, where [clamp(500 + round(0.75), 500, 900)] is
    501. *)
Lemma recommended_height_round_counterexample :
  Py.float (aspect_ratio_of (all_nodes_of (br_nodes wide_flat)) * 300)
    = 0.75 /\
  (exists fig, draw_bridge (Some wide_flat) None 0 0.6 = Rendered fig 500) /\
  Spec.recommended_height
    (aspect_ratio_of (all_nodes_of (br_nodes wide_flat))) = 501%Z /\
  Spec.recommended_height ((1 - 0) / (400 - 0)) = 501%Z.
Proof.
  split; [apply product_wide_flat|]. split; [|split].
  - rewrite (draw_bridge_defined _ _ _ _ _ visual_scale_in_wide_flat).
    eexists. f_equal.
    rewrite rec_h_of_floor, product_wide_flat.
    rewrite (Zfloor_eq 0); [reflexivity|]. simpl; lra.
  - unfold Spec.recommended_height, Spec.round.
    rewrite aspect_ratio_wide_flat.
    rewrite (Zfloor_eq 0) by (simpl; lra).
    repeat case_decide; try reflexivity; simpl in *; lra.
  - unfold Spec.recommended_height, Spec.round.
    rewrite (Zfloor_eq 0) by (simpl; lra).
    repeat case_decide; try reflexivity; simpl in *; lra.
Qed.

(** The rounding of the product decides the answer.  For two joints at
    (0, 0) and (100, 41) the quotient 41/100 is rounded down to binary64 and
    its product by 300 is rounded to the float just below 123: the call
    returns 622, where exact arithmetic would give 623. *)
Lemma recommended_height_rounded_product :
  Py.float (aspect_ratio_of (all_nodes_of (br_nodes slope_41)) * 300)
    = 8655355533852671 / 70368744177664 /\
  (exists fig, draw_bridge (Some slope_41) None 0 0.6 = Rendered fig 622) /\
  Zfloor ((41 - 0) / (100 - 0) * 300) = 123%Z.
Proof.
  assert (Har : aspect_ratio_of (all_nodes_of (br_nodes slope_41)) =
                7385903388887613 / 18014398509481984).
  { rewrite (aspect_ratio_of_extents _ 0 100 0 41).
    - destruct (decide (100 - 0 > 0)); [|lra].
      replace (Py.float (41 - 0)) with 41
        by (float_by 5%Z 5770237022568448%Z).
      replace (Py.float (100 - 0)) with 100
        by (float_by 6%Z 7036874417766400%Z).
      float_by (-2)%Z 7385903388887613%Z.
    - split; [now left|]. intros x [<-|[<-|[]]]; simpl; lra.
    - split; [now right; left|]. intros x [<-|[<-|[]]]; simpl; lra.
    - split; [now left|]. intros x [<-|[<-|[]]]; simpl; lra.
    - split; [now right; left|]. intros x [<-|[<-|[]]]; simpl; lra. }
  assert (Hp : Py.float
                 (aspect_ratio_of (all_nodes_of (br_nodes slope_41)) * 300)
               = 8655355533852671 / 70368744177664).
  { rewrite Har. float_by 6%Z 8655355533852671%Z. }
  split; [exact Hp|]. split.
  - assert (Hvs : visual_scale_in slope_41 =
                  Some (visual_scale_of 2 (complexity_factor_of [])
                          (auto_mult_of []))) by reflexivity.
    rewrite (draw_bridge_defined _ _ _ _ _ Hvs).
    eexists. f_equal. rewrite rec_h_of_floor, Hp.
    rewrite (Zfloor_eq 122); [reflexivity|]. simpl; lra.
  - apply Zfloor_eq. simpl; lra.
Qed.

(** C6, amended: for every model with at least one joint, a successful call
    returns the height [clamp(500 + floor(P), 500, 900)], where [P] is the
    float product of [AspectRatio] by 300: the product is truncated, not
    rounded to the nearest integer.  [AspectRatio] is the float quotient
    [spanY / spanX] of the two float extents of the bounding box of the
    joints, 1 when [spanX] is not positive, and is never negative.  Each
    float operation is exact up to the relative error [2^-53]. *)
Theorem recommended_height_truncates b r ds mult fig h xlo xhi ylo yhi :
  draw_bridge (Some b) r ds mult = Rendered fig h ->
  is_min (map (fun kv => nd_x (snd kv)) (all_nodes_of (br_nodes b))) xlo ->
  is_max (map (fun kv => nd_x (snd kv)) (all_nodes_of (br_nodes b))) xhi ->
  is_min (map (fun kv => nd_y (snd kv)) (all_nodes_of (br_nodes b))) ylo ->
  is_max (map (fun kv => nd_y (snd kv)) (all_nodes_of (br_nodes b))) yhi ->
  let span_x := Py.float (xhi - xlo) in
  let span_y := Py.float (yhi - ylo) in
  let aspect_ratio :=
    if decide (xhi - xlo > 0) then Py.float (span_y / span_x) else 1 in
  0 <= aspect_ratio /\
  h = Z.max 500 (Z.min 900 (500 + Zfloor (Py.float (aspect_ratio * 300)))) /\
  (forall x, Rabs (Py.float x - x) <= powerRZ 2 (-53) * Rabs x).
Proof.
  intros Hd Hxlo Hxhi Hylo Hyhi span_x span_y ar.
  apply draw_bridge_rendered in Hd as [-> _].
  pose proof (aspect_ratio_of_extents _ _ _ _ _ Hxlo Hxhi Hylo Hyhi) as Har.
  fold span_x span_y ar in Har. rewrite <- Har.
  split; [apply aspect_ratio_of_nonneg|].
  split; [apply rec_h_of_floor|apply float_error].
Qed.

(** [recommended_height_truncates] on the model [wide_flat]. *)
Lemma recommended_height_truncates_witness :
  exists fig h,
    draw_bridge (Some wide_flat) None 0 0.6 = Rendered fig h /\
    h = Z.max 500
          (Z.min 900
             (500 + Zfloor
                      (Py.float
                         ((if decide (400 - 0 > 0)
                           then Py.float
                                  (Py.float (1 - 0) / Py.float (400 - 0))
                           else 1) * 300)))).
Proof.
  eexists _, _. split.
  - apply (draw_bridge_defined _ _ _ _ _ visual_scale_in_wide_flat).
  - eapply (recommended_height_truncates wide_flat None 0 0.6 _ _ 0 400 0 1).
    + apply (draw_bridge_defined _ _ _ _ _ visual_scale_in_wide_flat).
    + split; [now left|]. intros x [<-|[<-|[]]]; simpl; lra.
    + split; [now right; left|]. intros x [<-|[<-|[]]]; simpl; lra.
    + split; [now left|]. intros x [<-|[<-|[]]]; simpl; lra.
    + split; [now right; left|]. intros x [<-|[<-|[]]]; simpl; lra.
Defined.

(** ** Visual scale *)

Lemma lengths_short_member :
  lengths_of (all_nodes_of (br_nodes short_member))
    (br_elements short_member) = [1 / 4].
Proof.
  change (lengths_of _ _)
    with [sqrt ((0 - 1 / 4) ^ 2 + (0 - 0) ^ 2)].
  f_equal. apply sqrt_lem_1; lra.
Qed.

Lemma min_len_short_member :
  min_len_of (all_nodes_of (br_nodes short_member))
    (br_elements short_member) = Some (1 / 4).
Proof.
  unfold min_len_of. rewrite lengths_short_member.
  unfold br_elements, short_member, List.filter.
  rewrite bool_decide_eq_true_2 by lra. reflexivity.
Qed.

Lemma complexity_factor_one_element e : complexity_factor_of [e] = 1.
Proof.
  unfold complexity_factor_of. change (INR (length [e])) with 1.
  rewrite !max2_Rmax. rewrite (Rmax_left 12 1) by lra.
  replace (12 / 12) with 1 by lra. rewrite sqrt_1. apply Rmax_right. lra.
Qed.

Lemma auto_mult_one_element e : auto_mult_of [e] = 0.75.
Proof.
  unfold auto_mult_of. simpl length. repeat case_decide; try lia; reflexivity.
Qed.

Lemma visual_scale_in_short_member :
  visual_scale_in short_member = Some 0.075.
Proof.
  unfold visual_scale_in. rewrite min_len_short_member.
  unfold br_elements, short_member.
  rewrite complexity_factor_one_element, auto_mult_one_element.
  rewrite visual_scale_of_clamp. f_equal.
  rewrite (Rmin_left (1 / 4 * 0.3) 0.6) by lra.
  rewrite (Rmax_left 0.1 _) by lra. lra.
Qed.

(** C5, as stated, fails.  For a single member of length 1/4 the clamped
    length term is 0.075, [ComplexityFactor] is 1 and [DensityMultiplier] is
    0.75; the code floors the length term and gives 0.1 * 1 * 0.75 = 0.075,
    where flooring the product gives 0.1. *)
Lemma visual_scale_floor_counterexample :
  min_len_of (all_nodes_of (br_nodes short_member))
    (br_elements short_member) = Some (1 / 4) /\
  visual_scale_in short_member = Some 0.075 /\
  Spec.visual_scale (1 / 4)
    (complexity_factor_of (br_elements short_member))
    (auto_mult_of (br_elements short_member)) = 0.1.
Proof.
  split; [apply min_len_short_member|].
  split; [apply visual_scale_in_short_member|].
  unfold br_elements, short_member.
  rewrite complexity_factor_one_element, auto_mult_one_element.
  unfold Spec.visual_scale.
  rewrite (Rmin_left (1 / 4 * 0.3) 0.6) by lra.
  apply Rmax_left. lra.
Qed.

(** C5, amended: for every model in which no member has both joints or some
    such member has a positive length,
    [VisualScale = max(0.1, min(MinMemberLength * 0.3, 0.6))
                   * ComplexityFactor * DensityMultiplier]:
    the floor 0.1 bounds the length term, not the product.
    [MinMemberLength] is the smallest positive length of a member with both
    joints, 2 when there is none; [ComplexityFactor] and [DensityMultiplier]
    are those of section 3, over the count of all members. *)
Theorem visual_scale_floor_inside (b : bridge) :
  let all_nodes := all_nodes_of (br_nodes b) in
  let lengths := lengths_of all_nodes (br_elements b) in
  let n := length (br_elements b) in
  lengths = [] \/ (exists l, In l lengths /\ l > 0) ->
  exists min_len vs,
    visual_scale_in b = Some vs /\
    ((lengths = [] /\ min_len = 2) \/
     is_min (List.filter (fun l => bool_decide (l > 0)) lengths) min_len) /\
    vs = Rmax 0.1 (Rmin (min_len * 0.3) 0.6)
         * Rmax 0.35 (sqrt (12 / Rmax 12 (INR n)))
         * (if decide (20 < n)%nat then 0.55
            else if decide (n < 8)%nat then 0.75 else 0.65).
Proof.
  intros all_nodes lengths n H.
  destruct (min_len_of_defined all_nodes (br_elements b) H)
    as (ml & Hml & Hchar).
  exists ml, (visual_scale_of ml (complexity_factor_of (br_elements b))
                (auto_mult_of (br_elements b))).
  split; [|split; [exact Hchar|]].
  - unfold visual_scale_in. fold all_nodes. now rewrite Hml.
  - rewrite visual_scale_of_clamp. unfold complexity_factor_of.
    now rewrite !max2_Rmax.
Qed.

(** [visual_scale_floor_inside] on the model [short_member]. *)
Lemma visual_scale_floor_inside_witness :
  exists min_len vs,
    visual_scale_in short_member = Some vs /\
    ((lengths_of (all_nodes_of (br_nodes short_member))
        (br_elements short_member) = [] /\ min_len = 2) \/
     is_min (List.filter (fun l => bool_decide (l > 0))
               (lengths_of (all_nodes_of (br_nodes short_member))
                  (br_elements short_member))) min_len) /\
    vs = Rmax 0.1 (Rmin (min_len * 0.3) 0.6)
         * Rmax 0.35 (sqrt (12 / Rmax 12 (INR 1)))
         * (if decide (20 < 1)%nat then 0.55
            else if decide (1 < 8)%nat then 0.75 else 0.65).
Proof.
  apply (visual_scale_floor_inside short_member).
  right. exists (1 / 4). rewrite lengths_short_member.
  split; [now left|lra].
Defined.

(** ** Degenerate geometry *)

(** Wherever the metrics are derived they are in range. *)
Lemma rendered_metrics_in_range b r ds mult fig h :
  draw_bridge (Some b) r ds mult = Rendered fig h ->
  (500 <= h <= 900)%Z /\ exists vs, visual_scale_in b = Some vs /\ 0 < vs.
Proof.
  intros Hd. apply draw_bridge_rendered in Hd as (-> & vs & Hvs & _).
  split; [apply rec_h_range|].
  exists vs. split; [exact Hvs|now apply visual_scale_in_pos in Hvs].
Qed.

(** C8: the bounds hold wherever the metrics are derived
    ([rendered_metrics_in_range]), but for two joints at the same place
    joined by a member no metrics are derived: the lengths are [[0]], [min]
    of line 87 runs over no positive length and the call ends in
    [ValueError]. *)
Theorem coincident_joints_no_metrics r ds mult :
  lengths_of (all_nodes_of (br_nodes coincident_joints))
    (br_elements coincident_joints) = [0] /\
  visual_scale_in coincident_joints = None /\
  draw_bridge (Some coincident_joints) r ds mult = Raised ValueError.
Proof.
  split; [|split].
  - change (lengths_of _ _) with [sqrt ((0 - 0) ^ 2 + (0 - 0) ^ 2)].
    now rewrite sqrt_zero_vec.
  - apply visual_scale_in_coincident.
  - unfold draw_bridge. now rewrite visual_scale_in_coincident.
Qed.

(** ** No output, and the render that raises *)

Lemma missing_model_no_output r ds mult :
  draw_bridge None r ds mult = NoOutput.
Proof. reflexivity. Qed.

(** C2: a model that is missing or unreadable gives no output, but a render
    can raise.  Two joints at the same place joined by a member, or a
    member from a joint to itself, give a member of length 0; when no member
    of the model has a positive length, [min] of line 87 runs over nothing
    and the call ends in [ValueError], with or without a result file. *)
Theorem zero_length_members_raise r ds mult :
  draw_bridge None r ds mult = NoOutput /\
  draw_bridge (Some coincident_joints) r ds mult = Raised ValueError /\
  draw_bridge (Some self_loop) r ds mult = Raised ValueError.
Proof.
  split; [reflexivity|]. unfold draw_bridge.
  now rewrite visual_scale_in_coincident, visual_scale_in_self_loop.
Qed.

(** ** Figures grow by appending *)

Lemma fig_app_nil fig : fig_app fig [] [] = fig.
Proof. destruct fig. unfold fig_app. simpl. now rewrite !app_nil_r. Qed.

Lemma fig_app_app fig ts1 as1 ts2 as2 :
  fig_app (fig_app fig ts1 as1) ts2 as2 =
  fig_app fig (ts1 ++ ts2) (as1 ++ as2).
Proof. unfold fig_app. simpl. now rewrite <- !app_assoc. Qed.

Lemma add_trace_app fig t : add_trace fig t = fig_app fig [t] [].
Proof. unfold add_trace, fig_app. now rewrite app_nil_r. Qed.

Lemma add_annotation_app fig a : add_annotation fig a = fig_app fig [] [a].
Proof. unfold add_annotation, fig_app. now rewrite app_nil_r. Qed.

Lemma fold_add_trace ts : forall fig,
  fold_left add_trace ts fig = fig_app fig ts [].
Proof.
  induction ts as [|t ts IH]; intros fig; simpl.
  - now rewrite fig_app_nil.
  - now rewrite IH, add_trace_app, fig_app_app.
Qed.

(** A loop whose body only appends, appends the concatenation. *)
Lemma fold_fig_app {A} (f : figure -> A -> figure)
  (T : A -> list trace) (N : A -> list annotation) (l : list A) :
  (forall fig x, f fig x = fig_app fig (T x) (N x)) ->
  forall fig,
    fold_left f l fig = fig_app fig (flat_map T l) (flat_map N l).
Proof.
  intros Hf. induction l as [|x l IH]; intros fig; simpl.
  - now rewrite fig_app_nil.
  - now rewrite IH, Hf, fig_app_app.
Qed.


Lemma extends_hidden_refl fig : extends_hidden fig fig.
Proof. exists [], []. now rewrite fig_app_nil. Qed.

Lemma extends_hidden_trans f1 f2 f3 :
  extends_hidden f1 f2 -> extends_hidden f2 f3 -> extends_hidden f1 f3.
Proof.
  intros (t1 & a1 & -> & H1) (t2 & a2 & -> & H2).
  exists (t1 ++ t2)%list, (a1 ++ a2)%list.
  rewrite fig_app_app. split; [reflexivity|]. now apply Forall_app.
Qed.

Lemma extends_hidden_extends f1 f2 : extends_hidden f1 f2 -> extends f1 f2.
Proof. intros (ts & ans & -> & _). now exists ts, ans. Qed.

Lemma extends_refl fig : extends fig fig.
Proof. exists [], []. now rewrite fig_app_nil. Qed.

Lemma extends_trans f1 f2 f3 : extends f1 f2 -> extends f2 f3 -> extends f1 f3.
Proof.
  intros (t1 & a1 & ->) (t2 & a2 & ->).
  exists (t1 ++ t2)%list, (a1 ++ a2)%list. now rewrite fig_app_app.
Qed.

Lemma extends_data f1 f2 t :
  extends f1 f2 -> In t (fig_data f1) -> In t (fig_data f2).
Proof. intros (ts & ans & ->) H. simpl. apply in_or_app. now left. Qed.

Lemma extends_annotations f1 f2 a :
  extends f1 f2 -> In a (fig_annotations f1) -> In a (fig_annotations f2).
Proof. intros (ts & ans & ->) H. simpl. apply in_or_app. now left. Qed.

Lemma hidden_not_in_legend ts :
  Forall hidden ts -> List.filter in_legend ts = [].
Proof.
  induction 1 as [|t ts (Hs & _ & _) _ IH]; [reflexivity|].
  simpl. unfold in_legend at 1. now rewrite Hs.
Qed.

Lemma hidden_not_legend_only ts :
  Forall hidden ts -> List.filter legend_only ts = [].
Proof.
  induction 1 as [|t ts (_ & _ & Hl) _ IH]; [reflexivity|].
  simpl. now rewrite Hl.
Qed.

Lemma legend_categories_app fig ts ans :
  legend_categories (fig_app fig ts ans) =
  (legend_categories fig ++ map category_of (List.filter in_legend ts))%list.
Proof.
  unfold legend_categories, fig_app. simpl.
  now rewrite List.filter_app, map_app.
Qed.

Lemma extends_hidden_legend_categories f1 f2 :
  extends_hidden f1 f2 -> legend_categories f2 = legend_categories f1.
Proof.
  intros (ts & ans & -> & H). rewrite legend_categories_app.
  rewrite (hidden_not_in_legend _ H). simpl. apply app_nil_r.
Qed.

Lemma legend_names_categories fig :
  legend_names fig = map (fmap snd) (legend_categories fig).
Proof.
  unfold legend_names, legend_categories. rewrite map_map.
  apply map_ext. intros t. unfold category_of. now destruct (tr_name t).
Qed.

Lemma extends_hidden_legend_only f1 f2 :
  extends_hidden f1 f2 ->
  List.filter legend_only (fig_data f2) = List.filter legend_only (fig_data f1).
Proof.
  intros (ts & ans & -> & H). simpl.
  rewrite List.filter_app, (hidden_not_legend_only _ H). apply app_nil_r.
Qed.

Lemma extends_hidden_named f1 f2 t n :
  extends_hidden f1 f2 -> In t (fig_data f2) -> tr_name t = Some n ->
  In t (fig_data f1).
Proof.
  intros (ts & ans & -> & H) Hin Hn. simpl in Hin.
  apply in_app_or in Hin as [Hin|Hin]; [assumption|].
  rewrite List.Forall_forall in H. destruct (H t Hin) as (_ & Hnone & _).
  congruence.
Qed.

Lemma fold_extends_hidden {A} (f : figure -> A -> figure) (l : list A) :
  (forall fig x, extends_hidden fig (f fig x)) ->
  forall fig, extends_hidden fig (fold_left f l fig).
Proof.
  intros Hf. induction l as [|x l IH]; intros fig; simpl.
  - apply extends_hidden_refl.
  - eapply extends_hidden_trans; [apply Hf|apply IH].
Qed.

Lemma add_annotation_hidden fig a : extends_hidden fig (add_annotation fig a).
Proof. exists [], [a]. now rewrite add_annotation_app. Qed.

Section Builders.

Variable all_nodes : odict node.
Variable node_results : gmap Z node_result.
Variable visual_scale : R.
Variable complexity_factor : R.
Variable visualization_scale_multiplier : R.

Lemma add_trace_arrow_app fig sx sy ex ey color name group txt off :
  add_trace_arrow visual_scale complexity_factor fig sx sy ex ey color name
    group txt off =
  fig_app fig
    (arrow_traces visual_scale complexity_factor sx sy ex ey color group)
    (match txt with
     | Some t =>
         if truthy t
         then [arrow_label visual_scale complexity_factor sx sy ex ey color
                 name t off]
         else []
     | None => []
     end).
Proof.
  unfold add_trace_arrow. rewrite fold_add_trace.
  destruct txt as [t|]; [destruct (truthy t)|];
    now rewrite ?add_annotation_app, ?fig_app_app, ?app_nil_r.
Qed.

(** Every trace of an arrow stays out of the legend and draws points. *)
Lemma arrow_traces_hidden sx sy ex ey color group :
  Forall hidden
    (arrow_traces visual_scale complexity_factor sx sy ex ey color group).
Proof.
  unfold arrow_traces. simpl.
  repeat constructor; apply bool_decide_eq_false; simpl; intros [? _];
    discriminate.
Qed.

Lemma add_trace_arrow_hidden fig sx sy ex ey color name group txt off :
  extends_hidden fig
    (add_trace_arrow visual_scale complexity_factor fig sx sy ex ey color
       name group txt off).
Proof.
  rewrite add_trace_arrow_app. eexists _, _. split; [reflexivity|].
  apply arrow_traces_hidden.
Qed.

Lemma draw_internal_forces_hidden fig sim e sx sy ex ey :
  extends_hidden fig
    (draw_internal_forces visual_scale complexity_factor fig sim e
       sx sy ex ey).
Proof.
  unfold draw_internal_forces.
  destruct (sr_elements sim !! el_id e) as [res|];
    [|apply extends_hidden_refl].
  case_decide; [|apply extends_hidden_refl].
  destruct (internal_arrow_style (er_force res)) as [color group].
  apply fold_extends_hidden.
  intros f [[tx ty] [hx hy]]. apply add_trace_arrow_hidden.
Qed.

Lemma draw_load_hidden fig n :
  extends_hidden fig (draw_load visual_scale complexity_factor fig n).
Proof.
  unfold draw_load. case_decide; [|apply extends_hidden_refl].
  apply add_trace_arrow_hidden.
Qed.

Lemma draw_reaction_hidden fig id n :
  extends_hidden fig
    (draw_reaction node_results visual_scale complexity_factor fig id n).
Proof.
  unfold draw_reaction.
  destruct (node_results !! id) as [nr|]; [|apply extends_hidden_refl].
  case_decide; [|apply extends_hidden_refl].
  apply add_trace_arrow_hidden.
Qed.

End Builders.

(** ** The legend registry *)

Lemma fold_left_invariant {A B} (P : A -> Prop) (f : A -> B -> A)
  (l : list B) :
  (forall a x, In x l -> P a -> P (f a x)) ->
  forall a, P a -> P (fold_left f l a).
Proof.
  induction l as [|x l IH]; intros Hf a Ha; simpl; [assumption|].
  apply IH.
  - intros a' x' Hx. apply Hf. now right.
  - apply Hf; [now left|assumption].
Qed.

Lemma legend_inv_hidden k S B fig fig' :
  legend_inv k S B fig -> extends_hidden fig fig' -> legend_inv k S B fig'.
Proof.
  intros (Hnd & Hiff & Hnone & Hnamed) Hext.
  unfold legend_inv. rewrite (extends_hidden_legend_categories _ _ Hext).
  split; [exact Hnd|split; [exact Hiff|split; [exact Hnone|]]].
  intros t c Hin Hc. eapply Hnamed; [|eassumption].
  unfold category_of in Hc. destruct (tr_name t) as [n|] eqn:Hn;
    [|discriminate].
  eapply extends_hidden_named; eassumption.
Qed.

(** A trace of kind [k] whose [showlegend] follows the registry. *)
Lemma legend_inv_add k S B fig t g show :
  legend_inv k S B fig ->
  tr_name t = Some g -> kind_of t = k -> tr_showlegend t = Some show ->
  (show = true <-> g ∉ S) -> ~ B (k, g) ->
  legend_inv k ({[ g ]} ∪ S) B (add_trace fig t).
Proof.
  intros (Hnd & Hiff & Hnone & Hnamed) Hname Hkind Hshow Hs HB.
  assert (Hcat : category_of t = Some (k, g))
    by (unfold category_of; now rewrite Hname, Hkind).
  unfold legend_inv. rewrite add_trace_app, legend_categories_app.
  destruct show.
  - assert (Hg : g ∉ S) by now apply Hs.
    assert (Hnew : ~ In (Some (k, g)) (legend_categories fig))
      by (rewrite Hiff; simpl; tauto).
    assert (Hl : in_legend t = true) by (unfold in_legend; now rewrite Hshow).
    cbn [List.filter map]. rewrite Hl. cbn [map]. rewrite Hcat.
    split; [|split; [|split]].
    + apply NoDup_app. repeat split; [assumption| |apply NoDup_singleton].
      intros x Hx Hx'%list_elem_of_In. destruct Hx' as [<-|[]].
      now apply Hnew, list_elem_of_In.
    + intros c. split.
      * intros Hin. apply in_app_or in Hin as [Hin|[[= <-]|[]]].
        -- apply Hiff in Hin as [[Hk Hin]|Hin]; [left|now right].
           split; [exact Hk|]. apply elem_of_union. now right.
        -- left. split; [reflexivity|].
           apply elem_of_union. left. now apply elem_of_singleton.
      * intros [[Hk Hin]|Hin]; apply in_or_app.
        -- apply elem_of_union in Hin as [Hin%elem_of_singleton|Hin].
           ++ right. left. destruct c; simpl in *; congruence.
           ++ left. apply Hiff. now left.
        -- left. apply Hiff. now right.
    + intros Hin. apply in_app_or in Hin as [Hin|[Hin|[]]];
        [now apply Hnone|discriminate].
    + intros t' c Hin Hc. apply in_or_app.
      cbn [fig_data fig_app] in Hin.
      apply in_app_or in Hin as [Hin|[<-|[]]].
      * left. eapply Hnamed; eassumption.
      * right. left. congruence.
  - assert (Hg : g ∈ S).
    { destruct (decide (g ∈ S)) as [Hin|Hout]; [assumption|].
      apply Hs in Hout. discriminate. }
    assert (Hl : in_legend t = false) by (unfold in_legend; now rewrite Hshow).
    cbn [List.filter map]. rewrite Hl. cbn [map]. rewrite app_nil_r.
    split; [exact Hnd|split; [|split; [exact Hnone|]]].
    + intros c. split.
      * intros Hin. apply Hiff in Hin as [[Hk Hin]|Hin]; [left|now right].
        split; [exact Hk|]. apply elem_of_union. now right.
      * intros [[Hk Hin]|Hin]; apply Hiff; [|now right].
        left. split; [exact Hk|].
        apply elem_of_union in Hin as [Hin%elem_of_singleton|Hin];
          [now rewrite Hin|exact Hin].
    + intros t' c Hin Hc. cbn [fig_data fig_app] in Hin.
      apply in_app_or in Hin as [Hin|[<-|[]]].
      * eapply Hnamed; eassumption.
      * apply Hiff. left. rewrite Hcat in Hc. injection Hc as <-. now split.
Qed.

Lemma register_beam_legend_spec sim g :
  let '(show, sim') := register_beam_legend sim g in
  (show = true <-> g ∉ default ∅ (sr_legend_set sim)) /\
  default ∅ (sr_legend_set sim') = {[ g ]} ∪ default ∅ (sr_legend_set sim) /\
  sr_elements sim' = sr_elements sim /\
  sr_support_legend sim' = sr_support_legend sim.
Proof.
  unfold register_beam_legend. case_decide; simpl.
  - repeat split; try done.
    symmetry. apply subseteq_union_1_L. now apply singleton_subseteq_l.
  - repeat split; done.
Qed.

Lemma register_support_legend_spec sim g :
  let '(show, sim') := register_support_legend sim g in
  (show = true <-> g ∉ default ∅ (sr_support_legend sim)) /\
  default ∅ (sr_support_legend sim') =
    {[ g ]} ∪ default ∅ (sr_support_legend sim) /\
  sr_elements sim' = sr_elements sim /\
  sr_legend_set sim' = sr_legend_set sim.
Proof.
  unfold register_support_legend. case_decide; simpl.
  - repeat split; try done.
    symmetry. apply subseteq_union_1_L. now apply singleton_subseteq_l.
  - repeat split; done.
Qed.

Lemma beam_legend_group_label sim e :
  In (beam_legend_group sim e) beam_labels.
Proof.
  unfold beam_legend_group, beam_labels.
  case_bool_decide; repeat case_decide; simpl; auto.
Qed.

(** ** The loop over the members *)

Section BeamLayer.

Variable all_nodes : odict node.
Variable visual_scale : R.
Variable complexity_factor : R.

Lemma resolvable_true e :
  resolvable all_nodes e = true <->
  exists a b, od_get (el_start e) all_nodes = Some a /\
              od_get (el_end e) all_nodes = Some b.
Proof.
  unfold resolvable.
  rewrite andb_true_iff, !bool_decide_eq_true. unfold is_Some.
  split; [intros [[a Ha] [b Hb]]|intros (a & b & Ha & Hb)]; eauto.
Qed.

Lemma beam_body_dangling st e :
  resolvable all_nodes e = false ->
  beam_body all_nodes visual_scale complexity_factor st e = st.
Proof.
  intros H. unfold beam_body. destruct st as [fig sim].
  destruct (od_get (el_start e) all_nodes) as [a|] eqn:Ea; [|reflexivity].
  destruct (od_get (el_end e) all_nodes) as [b|] eqn:Eb; [|reflexivity].
  assert (resolvable all_nodes e = true) by (apply resolvable_true; eauto).
  congruence.
Qed.

Lemma beam_body_resolved fig sim e a b :
  od_get (el_start e) all_nodes = Some a ->
  od_get (el_end e) all_nodes = Some b ->
  let g := beam_legend_group sim e in
  let rs := register_beam_legend sim g in
  let t := beam_trace (nd_x a) (nd_y a) (nd_x b) (nd_y b)
             (beam_style sim e).1.1 (beam_style sim e).1.2
             (beam_style sim e).2 g rs.1 in
  let st' := beam_body all_nodes visual_scale complexity_factor (fig, sim) e in
  snd st' = rs.2 /\ extends_hidden (add_trace fig t) (fst st').
Proof.
  intros Ea Eb g rs t st'. subst st' t rs g.
  unfold beam_body. rewrite Ea, Eb.
  destruct (beam_style sim e) as [[c w] h].
  destruct (register_beam_legend sim (beam_legend_group sim e)) as [show sim'].
  simpl. split; [reflexivity|apply draw_internal_forces_hidden].
Qed.

Lemma beam_trace_kind sx sy ex ey c w hov g show :
  kind_of (beam_trace sx sy ex ey c w hov g show) = MemberLine.
Proof.
  assert (H : legend_only (beam_trace sx sy ex ey c w hov g show) = false)
    by (apply bool_decide_eq_false; simpl; intros [? _]; discriminate).
  unfold kind_of. now rewrite H.
Qed.

Lemma beam_loop_inv_step sim0 st e :
  beam_loop_inv sim0 st ->
  beam_loop_inv sim0 (beam_body all_nodes visual_scale complexity_factor st e).
Proof.
  intros Hinv.
  destruct (resolvable all_nodes e) eqn:Hres;
    [|now rewrite beam_body_dangling].
  apply resolvable_true in Hres as (a & b & Ea & Eb).
  destruct st as [fig sim].
  destruct (beam_body_resolved fig sim e a b Ea Eb) as [Hsim Hext].
  destruct Hinv as (Hleg & Hlab & Hsup & Hel & Hlo). simpl in *.
  pose proof (register_beam_legend_spec sim (beam_legend_group sim e)) as Hreg.
  destruct (register_beam_legend sim (beam_legend_group sim e))
    as [show sim'] eqn:Er.
  destruct Hreg as (Hshow & Hset & Hel' & Hsup'). simpl in *.
  unfold beam_loop_inv. rewrite Hsim.
  split; [|split; [|split; [|split]]].
  - rewrite Hset. eapply legend_inv_hidden; [|exact Hext].
    eapply legend_inv_add;
      [exact Hleg|reflexivity|apply beam_trace_kind|reflexivity|exact Hshow|].
    tauto.
  - rewrite Hset. intros n [->%elem_of_singleton|Hn]%elem_of_union.
    + apply beam_legend_group_label.
    + now apply Hlab.
  - congruence.
  - congruence.
  - rewrite (extends_hidden_legend_only _ _ Hext), add_trace_app. simpl.
    rewrite List.filter_app, Hlo. reflexivity.
Qed.

Lemma beam_loop_inv_init sim0 :
  sr_legend_set sim0 = None -> beam_loop_inv sim0 (new_figure, sim0).
Proof.
  intros H. unfold beam_loop_inv. simpl. rewrite H. simpl.
  split; [|split; [|split; [|split]]]; try done.
  - unfold legend_inv. simpl. repeat split; try done.
    + constructor.
    + intros [[_ Hn]|[]]. now apply not_elem_of_empty in Hn.
    + tauto.
Qed.

Lemma beam_loop_inv_fold sim0 es :
  sr_legend_set sim0 = None ->
  beam_loop_inv sim0
    (fold_left (beam_body all_nodes visual_scale complexity_factor) es
       (new_figure, sim0)).
Proof.
  intros H. apply fold_left_invariant.
  - intros st e _. apply beam_loop_inv_step.
  - now apply beam_loop_inv_init.
Qed.

End BeamLayer.

(** ** The loop over the joints *)

Lemma od_set_In {V} k (v : V) d k' v' :
  In (k', v') (od_set k v d) -> (k', v') = (k, v) \/ In (k', v') d.
Proof.
  induction d as [|[k0 v0] d IH]; simpl.
  - intros [H|[]]; auto.
  - destruct (decide (k = k0)); simpl; intros [H|H]; auto.
    destruct (IH H); auto.
Qed.

Lemma all_nodes_of_In nodes k n :
  In (k, n) (all_nodes_of nodes) -> In n nodes /\ nd_id n = k.
Proof.
  unfold all_nodes_of. revert k n.
  apply (fold_left_invariant
           (fun d => forall k n, In (k, n) d -> In n nodes /\ nd_id n = k)).
  - intros d x Hx Hd k n [[= -> ->]|Hin]%od_set_In; auto.
  - intros k n [].
Qed.

Section NodeLayer.

Variable node_results : gmap Z node_result.
Variable visual_scale : R.
Variable complexity_factor : R.

Lemma draw_support_cases fig sim n :
  (support_type_of n = "Free Joint" /\
   draw_support visual_scale (fig, sim) n = (fig, sim)) \/
  (support_type_of n <> "Free Joint" /\
   exists sym col,
     draw_support visual_scale (fig, sim) n =
     (add_trace fig
        (support_trace visual_scale (nd_x n) (nd_y n) (support_type_of n)
           sym col (register_support_legend sim (support_type_of n)).1),
      (register_support_legend sim (support_type_of n)).2)).
Proof.
  unfold draw_support. fold (support_type_of n).
  destruct (default ("circle", "#1e3d59") (markers !! support_type_of n))
    as [sym col].
  case_decide as Hs.
  - right. split; [assumption|]. exists sym, col.
    now destruct (register_support_legend sim (support_type_of n)).
  - left. split; [|reflexivity].
    destruct (decide (support_type_of n = "Free Joint")); tauto.
Qed.

Lemma support_trace_draws x y s sym col show :
  legend_only (support_trace visual_scale x y s sym col show) = false.
Proof. apply bool_decide_eq_false. simpl. intros [? _]. discriminate. Qed.

Lemma node_body_after_support st id n :
  extends_hidden
    (fst (draw_support visual_scale (nl_fig st, nl_sim st) n))
    (nl_fig (node_body node_results visual_scale complexity_factor st (id, n)))
  /\ nl_sim (node_body node_results visual_scale complexity_factor st (id, n))
     = snd (draw_support visual_scale (nl_fig st, nl_sim st) n)
  /\ node_plot_x
       (node_body node_results visual_scale complexity_factor st (id, n))
     = (node_plot_x st ++ [Some (nd_x n)])%list.
Proof.
  unfold node_body.
  destruct (draw_support visual_scale (nl_fig st, nl_sim st) n) as [fig sim].
  simpl. split; [|split; reflexivity].
  eapply extends_hidden_trans;
    [apply draw_load_hidden|apply draw_reaction_hidden].
Qed.

Lemma node_shape_inv_step sim0 L st item :
  node_shape_inv sim0 L st ->
  node_shape_inv sim0 L
    (node_body node_results visual_scale complexity_factor st item).
Proof.
  intros (Hel & Hlo & Hx). destruct item as [id n].
  destruct (node_body_after_support st id n) as (Hext & Hsim & Hpx).
  unfold node_shape_inv. rewrite Hsim, Hpx.
  rewrite (extends_hidden_legend_only _ _ Hext).
  destruct (draw_support_cases (nl_fig st) (nl_sim st) n)
    as [[_ ->]|(_ & sym & col & ->)]; cbn [fst snd].
  - repeat split; try assumption.
    intros [H|[H|[]]]%in_app_or; [tauto|discriminate].
  - pose proof (register_support_legend_spec (nl_sim st) (support_type_of n))
      as Hreg.
    destruct (register_support_legend (nl_sim st) (support_type_of n))
      as [show sim'].
    destruct Hreg as (_ & _ & Hel' & _). cbn [fst snd].
    rewrite add_trace_app. cbn [fig_data fig_app].
    rewrite List.filter_app. cbn [List.filter].
    rewrite support_trace_draws, app_nil_r.
    repeat split; try congruence.
    intros [H|[H|[]]]%in_app_or; [tauto|discriminate].
Qed.

Lemma support_trace_kind x y s sym col show :
  kind_of (support_trace visual_scale x y s sym col show) = SupportGlyph.
Proof. unfold kind_of. now rewrite support_trace_draws. Qed.

Lemma node_legend_inv_step all_nodes (B : kind * string -> Prop) st id n :
  In (id, n) all_nodes ->
  ~ B (SupportGlyph, support_type_of n) ->
  node_legend_inv all_nodes B st ->
  node_legend_inv all_nodes B
    (node_body node_results visual_scale complexity_factor st (id, n)).
Proof.
  intros Hin HB [Hinv Hreg].
  destruct (node_body_after_support st id n) as (Hext & Hsim & _).
  unfold node_legend_inv. rewrite Hsim.
  destruct (draw_support_cases (nl_fig st) (nl_sim st) n)
    as [[_ E]|(_ & sym & col & E)]; rewrite E in Hext |- *; cbn [fst snd] in *.
  - split; [|exact Hreg]. eapply legend_inv_hidden; [exact Hinv|exact Hext].
  - pose proof (register_support_legend_spec (nl_sim st) (support_type_of n))
      as Hspec.
    destruct (register_support_legend (nl_sim st) (support_type_of n))
      as [show sim'].
    destruct Hspec as (Hshow & Hset & _ & _). cbn [fst snd] in *.
    rewrite Hset. split.
    + eapply legend_inv_hidden; [|exact Hext].
      eapply legend_inv_add;
        [exact Hinv|reflexivity|apply support_trace_kind|reflexivity
        |exact Hshow|exact HB].
    + intros g [->%elem_of_singleton|Hg]%elem_of_union.
      * now exists (id, n).
      * now apply Hreg.
Qed.

End NodeLayer.

(** ** The whole figure *)

Lemma add_legend_entries_app fig :
  add_legend_entries fig =
  fig_app fig (map (fun nc => legend_entry nc.1 nc.2) force_legend) [].
Proof.
  unfold add_legend_entries. simpl.
  now rewrite !add_trace_app, !fig_app_app.
Qed.

Lemma beam_label_not_force n : In n beam_labels -> ~ In n force_labels.
Proof.
  unfold beam_labels, force_labels. simpl.
  intros [<-|[<-|[<-|[<-|[]]]]] [H|[H|[H|[H|[]]]]]; discriminate.
Qed.

Section Assembly.

Variable all_nodes : odict node.
Variable node_results : gmap Z node_result.
Variable visual_scale : R.
Variable complexity_factor : R.
Variable visualization_scale_multiplier : R.
Variable all_elements : list element.
Variable sim0 : sim_results.

(** The five phases of [draw_layers]. *)
Lemma draw_layers_phases :
  exists fig1 sim1 st,
    fold_left (beam_body all_nodes visual_scale complexity_factor)
      all_elements (new_figure, sim0) = (fig1, sim1) /\
    st = fold_left (node_body node_results visual_scale complexity_factor)
           all_nodes
           {| nl_fig := add_legend_entries fig1; nl_sim := sim1;
              node_plot_x := []; node_plot_y := [];
              node_hover_text := [] |} /\
    draw_layers all_nodes node_results visual_scale complexity_factor
      visualization_scale_multiplier all_elements sim0 =
    update_layout
      (fold_left (label_body all_nodes complexity_factor (nl_sim st))
         all_elements
         (fold_left
            (fun fig item =>
               add_annotation fig (joint_label complexity_factor item))
            all_nodes
            (add_trace (nl_fig st)
               (joints_trace visual_scale visualization_scale_multiplier
                  (node_plot_x st) (node_plot_y st) (node_hover_text st)))))
      the_layout.
Proof.
  unfold draw_layers.
  destruct (fold_left (beam_body all_nodes visual_scale complexity_factor)
              all_elements (new_figure, sim0)) as [fig1 sim1].
  now eexists _, _, _.
Qed.

Lemma label_body_hidden sim fig e :
  extends_hidden fig (label_body all_nodes complexity_factor sim fig e).
Proof.
  unfold label_body.
  destruct (od_get (el_start e) all_nodes); [|apply extends_hidden_refl].
  destruct (od_get (el_end e) all_nodes); [|apply extends_hidden_refl].
  apply add_annotation_hidden.
Qed.

Lemma joints_trace_hidden fig xs ys hover :
  ~ In None xs ->
  extends_hidden fig
    (add_trace fig
       (joints_trace visual_scale visualization_scale_multiplier xs ys hover)).
Proof.
  intros Hx. rewrite add_trace_app. eexists _, _. split; [reflexivity|].
  repeat constructor. apply bool_decide_eq_false. simpl.
  intros [-> _]. apply Hx. now left.
Qed.

(** After the loop over the joints only hidden traces are added. *)
Lemma draw_layers_tail st :
  ~ In None (node_plot_x st) ->
  extends_hidden (nl_fig st)
    (fold_left (label_body all_nodes complexity_factor (nl_sim st))
       all_elements
       (fold_left
          (fun fig item =>
             add_annotation fig (joint_label complexity_factor item))
          all_nodes
          (add_trace (nl_fig st)
             (joints_trace visual_scale visualization_scale_multiplier
                (node_plot_x st) (node_plot_y st) (node_hover_text st))))).
Proof.
  intros Hx.
  eapply extends_hidden_trans; cycle 1.
  { apply fold_extends_hidden. intros fig e. apply label_body_hidden. }
  eapply extends_hidden_trans; cycle 1.
  { apply fold_extends_hidden. intros fig item. apply add_annotation_hidden. }
  now apply joints_trace_hidden.
Qed.

Hypothesis legend_set_fresh : sr_legend_set sim0 = None.
Hypothesis support_legend_fresh : sr_support_legend sim0 = None.

(** The traces that draw nothing are the four force entries. *)
Lemma draw_layers_legend_only :
  List.filter legend_only
    (fig_data
       (draw_layers all_nodes node_results visual_scale complexity_factor
          visualization_scale_multiplier all_elements sim0)) =
  map (fun nc => legend_entry nc.1 nc.2) force_legend.
Proof.
  destruct draw_layers_phases as (fig1 & sim1 & st & E1 & Est & ->).
  pose proof (beam_loop_inv_fold all_nodes visual_scale complexity_factor
                sim0 all_elements legend_set_fresh) as Hb.
  rewrite E1 in Hb. destruct Hb as (_ & _ & _ & Hel & Hlo). simpl in Hel, Hlo.
  assert (Hst : node_shape_inv sim1
                  (map (fun nc => legend_entry nc.1 nc.2) force_legend) st).
  { rewrite Est. apply fold_left_invariant.
    - intros a x _. apply node_shape_inv_step.
    - unfold node_shape_inv. cbn [nl_fig nl_sim node_plot_x].
      rewrite add_legend_entries_app. cbn [fig_data fig_app].
      rewrite List.filter_app, Hlo. repeat split; auto. }
  destruct Hst as (_ & Hlo' & Hx).
  cbn [update_layout fig_data].
  rewrite (extends_hidden_legend_only _ _ (draw_layers_tail st Hx)).
  exact Hlo'.
Qed.

(** Every category of the legend is there once, every trace with a category
    has it in the legend, and the names of each kind are those that the
    render gives. *)
Lemma draw_layers_legend :
  let fig := draw_layers all_nodes node_results visual_scale
               complexity_factor visualization_scale_multiplier
               all_elements sim0 in
  NoDup (legend_categories fig) /\
  ~ In None (legend_categories fig) /\
  (forall t c, In t (fig_data fig) -> category_of t = Some c ->
               In (Some c) (legend_categories fig)) /\
  (forall c, In (Some c) (legend_categories fig) ->
     match c.1 with
     | MemberLine => In c.2 beam_labels
     | ForceEntry => In c.2 force_labels
     | SupportGlyph =>
         exists item, In item all_nodes /\ c.2 = support_type_of item.2
     end).
Proof.
  destruct draw_layers_phases as (fig1 & sim1 & st & E1 & Est & ->).
  pose proof (beam_loop_inv_fold all_nodes visual_scale complexity_factor
                sim0 all_elements legend_set_fresh) as Hb.
  rewrite E1 in Hb.
  destruct Hb as ((Hnd & Hiff & Hnone & Hnamed) & Hlab & Hsup & Hel & Hlo).
  cbn [fst snd] in *.
  set (Sb := default ∅ (sr_legend_set sim1)) in *.
  set (B := fun c : kind * string =>
              (c.1 = MemberLine /\ c.2 ∈ Sb) \/
              (c.1 = ForceEntry /\ In c.2 force_labels)).
  assert (Hshape : node_shape_inv sim1
                     (map (fun nc => legend_entry nc.1 nc.2) force_legend) st).
  { rewrite Est. apply fold_left_invariant.
    - intros a x _. apply node_shape_inv_step.
    - unfold node_shape_inv. cbn [nl_fig nl_sim node_plot_x].
      rewrite add_legend_entries_app. cbn [fig_data fig_app].
      rewrite List.filter_app, Hlo. repeat split; auto. }
  assert (Hleg : node_legend_inv all_nodes B st).
  { rewrite Est. apply fold_left_invariant.
    - intros a [k n] Hin. apply node_legend_inv_step; [exact Hin|].
      intros [[Hk _]|[Hk _]]; discriminate.
    - unfold node_legend_inv. cbn [nl_fig nl_sim].
      rewrite Hsup, support_legend_fresh. cbn [default].
      split; [|intros g Hg; now apply not_elem_of_empty in Hg].
      rewrite add_legend_entries_app.
      unfold legend_inv. rewrite legend_categories_app.
      change (map category_of (List.filter in_legend
                (map (fun nc => legend_entry nc.1 nc.2) force_legend)))
        with (map (fun n => Some (ForceEntry, n)) force_labels).
      split; [|split; [|split]].
      + apply NoDup_app. split; [exact Hnd|split].
        * intros [c|] Hx%list_elem_of_In Hy%list_elem_of_In;
            [|now apply Hnone].
          apply Hiff in Hx as [[Hk _]|[]].
          apply in_map_iff in Hy as (n' & [= <-] & _). discriminate.
        * apply (bool_decide_unpack _). vm_compute. exact I.
      + intros c. split.
        * intros [Hc|Hc]%in_app_or; right.
          -- apply Hiff in Hc as [Hc|[]]. now left.
          -- apply in_map_iff in Hc as (n' & [= <-] & Hn). now right.
        * intros [[_ Hc]|[[Hk Hc]|[Hk Hc]]];
            [now apply not_elem_of_empty in Hc| |]; apply in_or_app.
          -- left. apply Hiff. now left.
          -- right. apply in_map_iff. exists c.2. split; [|exact Hc].
             destruct c; simpl in *; congruence.
      + intros [Hc|Hc]%in_app_or; [now apply Hnone|].
        apply in_map_iff in Hc as (n' & [=] & _).
      + intros t c Hin Hc. apply in_or_app. cbn [fig_data fig_app] in Hin.
        apply in_app_or in Hin as [Hin|Hin].
        * left. eapply Hnamed; eassumption.
        * right. simpl in Hin.
          destruct Hin as [<-|[<-|[<-|[<-|[]]]]]; injection Hc as <-;
            simpl; auto. }
  destruct Hshape as (_ & _ & Hx). destruct Hleg as [Hleg Hreg].
  pose proof (legend_inv_hidden _ _ _ _ _ Hleg (draw_layers_tail st Hx))
    as (Hnd' & Hiff' & Hnone' & Hnamed').
  split; [exact Hnd'|split; [exact Hnone'|split; [exact Hnamed'|]]].
  intros c [[Hk Hc]|[[Hk Hc]|[Hk Hc]]]%Hiff'; rewrite Hk.
  - now apply Hreg.
  - now apply Hlab.
  - exact Hc.
Qed.

End Assembly.

(** ** The default truss renders *)

Lemma default_truss_has_length :
  let lengths := lengths_of (all_nodes_of (br_nodes default_truss))
                   (br_elements default_truss) in
  lengths = [] \/ (exists l, In l lengths /\ l > 0).
Proof.
  right. exists (sqrt ((0 - 4) ^ 2 + (0 - 0) ^ 2)). split; [now left|].
  apply sqrt_lt_R0. lra.
Qed.

Lemma visual_scale_in_defined b :
  lengths_of (all_nodes_of (br_nodes b)) (br_elements b) = [] \/
  (exists l, In l (lengths_of (all_nodes_of (br_nodes b)) (br_elements b))
             /\ l > 0) ->
  exists vs, visual_scale_in b = Some vs.
Proof.
  intros H. destruct (min_len_of_defined _ _ H) as (ml & Hml & _).
  unfold visual_scale_in. rewrite Hml. eauto.
Qed.

Lemma default_truss_renders r ds mult :
  exists vs,
    0 < vs /\
    visual_scale_in default_truss = Some vs /\
    draw_bridge (Some default_truss) r ds mult =
    Rendered
      (draw_layers (all_nodes_of (br_nodes default_truss))
         (node_results_of r) vs
         (complexity_factor_of (br_elements default_truss)) mult
         (br_elements default_truss) (simulation_results_of r))
      (rec_h_of (all_nodes_of (br_nodes default_truss))).
Proof.
  destruct (visual_scale_in_defined default_truss default_truss_has_length)
    as (vs & Hvs).
  exists vs. split; [now apply visual_scale_in_pos in Hvs|].
  split; [exact Hvs|now apply draw_bridge_defined].
Qed.

(** ** Legend *)

(** C9: in a successful render no legend category (a member
    classification, a support type or a force kind) occurs twice in the
    legend, and every trace that has a category (member line, support
    glyph, force entry) has it in the legend: each category with a
    primitive is listed exactly once, however many primitives it has.  The
    two registries start empty in every call.  When moreover no support
    type is spelled like one of the eight names of member classes and force
    kinds, no name occurs twice in the legend. *)
Theorem legend_categories_once b r ds mult fig h :
  draw_bridge (Some b) r ds mult = Rendered fig h ->
  sr_legend_set (simulation_results_of r) = None /\
  sr_support_legend (simulation_results_of r) = None /\
  NoDup (legend_categories fig) /\
  ~ In None (legend_categories fig) /\
  (forall t c, In t (fig_data fig) -> category_of t = Some c ->
               In (Some c) (legend_categories fig)) /\
  ((forall n, In n (br_nodes b) ->
              ~ In (support_type_of n) (beam_labels ++ force_labels)) ->
   NoDup (legend_names fig)).
Proof.
  intros Hd.
  apply draw_bridge_rendered in Hd as (_ & vs & _ & ->).
  split; [reflexivity|split; [reflexivity|]].
  destruct (draw_layers_legend (all_nodes_of (br_nodes b)) (node_results_of r)
              vs (complexity_factor_of (br_elements b)) mult (br_elements b)
              (simulation_results_of r) eq_refl eq_refl)
    as (Hnd & Hnone & Hnamed & Hkinds).
  split; [exact Hnd|split; [exact Hnone|split; [exact Hnamed|]]].
  intros Hsup. rewrite legend_names_categories.
  apply NoDup_fmap_2_strong; [|exact Hnd].
  assert (Hsupport : forall c,
            In (Some c) (legend_categories
                           (draw_layers (all_nodes_of (br_nodes b))
                              (node_results_of r) vs
                              (complexity_factor_of (br_elements b)) mult
                              (br_elements b) (simulation_results_of r))) ->
            c.1 = SupportGlyph ->
            ~ In c.2 (beam_labels ++ force_labels)).
  { intros c Hc Hk. apply Hkinds in Hc. rewrite Hk in Hc.
    destruct Hc as ([k n] & Hin & ->). apply Hsup.
    now apply all_nodes_of_In in Hin. }
  intros [[k1 n1]|] [[k2 n2]|] Hx%list_elem_of_In Hy%list_elem_of_In Heq;
    try discriminate; try (now elim Hnone).
  injection Heq as ->.
  pose proof (Hkinds _ Hx) as H1. pose proof (Hkinds _ Hy) as H2.
  pose proof (Hsupport _ Hx) as S1. pose proof (Hsupport _ Hy) as S2.
  cbn [fst snd] in *.
  destruct k1, k2; try reflexivity; exfalso;
    try (apply (beam_label_not_force n2); assumption);
    try (apply S1; [reflexivity|apply in_or_app; auto]);
    try (apply S2; [reflexivity|apply in_or_app; auto]).
Qed.

(** [legend_categories_once] on the default truss with its results. *)
Lemma legend_categories_once_witness :
  exists fig h,
    draw_bridge (Some default_truss) (Some default_results) 0 0.6 =
      Rendered fig h /\
    NoDup (legend_categories fig) /\
    (forall t c, In t (fig_data fig) -> category_of t = Some c ->
                 In (Some c) (legend_categories fig)) /\
    NoDup (legend_names fig).
Proof.
  destruct (default_truss_renders (Some default_results) 0 0.6)
    as (vs & _ & _ & Hd).
  eexists _, _. split; [exact Hd|].
  destruct (legend_categories_once default_truss (Some default_results) 0 0.6
              _ _ Hd) as (_ & _ & Hnd & _ & Hnamed & Hnames).
  split; [exact Hnd|split; [exact Hnamed|]].
  apply Hnames.
  intros n [<-|[<-|[<-|[<-|[]]]]]; vm_compute;
    intros H; repeat destruct H as [H|H]; try discriminate H; exact H.
Defined.

(** C10: in every successful render the traces that draw no point are
    exactly the four force entries, in the order Tension, Compression, Load,
    Reaction; each has a legend item under its own name, whatever was drawn;
    and the six traces of any arrow have [showlegend=False] and no name. *)
Theorem force_legend_entries_always b r ds mult fig h :
  draw_bridge (Some b) r ds mult = Rendered fig h ->
  List.filter legend_only (fig_data fig) =
    map (fun nc => legend_entry nc.1 nc.2) force_legend /\
  map tr_name (List.filter legend_only (fig_data fig)) =
    map Some force_labels /\
  Forall (fun t => in_legend t = true)
    (List.filter legend_only (fig_data fig)) /\
  (forall vs cf sx sy ex ey color group,
     Forall hidden (arrow_traces vs cf sx sy ex ey color group)).
Proof.
  intros Hd.
  apply draw_bridge_rendered in Hd as (_ & vs & _ & ->).
  rewrite draw_layers_legend_only by reflexivity.
  split; [reflexivity|split; [reflexivity|split]].
  - repeat constructor.
  - intros. apply arrow_traces_hidden.
Qed.

(** [force_legend_entries_always] on a model without member, load or
    result: the four entries are there. *)
Lemma force_legend_entries_always_witness :
  exists fig h,
    draw_bridge (Some wide_flat) None 0 0.6 = Rendered fig h /\
    List.filter legend_only (fig_data fig) =
      map (fun nc => legend_entry nc.1 nc.2) force_legend /\
    map tr_name (List.filter legend_only (fig_data fig)) =
      map Some force_labels /\
    Forall (fun t => in_legend t = true)
      (List.filter legend_only (fig_data fig)) /\
    (forall vs cf sx sy ex ey color group,
       Forall hidden (arrow_traces vs cf sx sy ex ey color group)).
Proof.
  eexists _, _. split.
  - apply (draw_bridge_defined _ _ _ _ _ visual_scale_in_wide_flat).
  - apply (force_legend_entries_always wide_flat None 0 0.6 _ _
             (draw_bridge_defined _ _ _ _ _ visual_scale_in_wide_flat)).
Defined.

(** ** Members that reference a joint that does not exist *)

Section Dangling.

Variable all_nodes : odict node.

Lemma resolvable_false e :
  resolvable all_nodes e = false ->
  od_get (el_start e) all_nodes = None \/ od_get (el_end e) all_nodes = None.
Proof.
  intros H.
  destruct (od_get (el_start e) all_nodes) as [a|] eqn:Ea; [|now left].
  destruct (od_get (el_end e) all_nodes) as [b|] eqn:Eb; [|now right].
  assert (resolvable all_nodes e = true) by (apply resolvable_true; eauto).
  congruence.
Qed.

Lemma label_body_dangling cf sim fig e :
  resolvable all_nodes e = false -> label_body all_nodes cf sim fig e = fig.
Proof.
  intros [H|H]%resolvable_false; unfold label_body; rewrite H;
    [reflexivity|now destruct (od_get (el_start e) all_nodes)].
Qed.

Lemma fold_filter_skip {A} (f : A -> element -> A) es :
  (forall a e, resolvable all_nodes e = false -> f a e = a) ->
  forall a,
    fold_left f (List.filter (resolvable all_nodes) es) a = fold_left f es a.
Proof.
  intros Hf. induction es as [|e es IH]; intros a; simpl; [reflexivity|].
  destruct (resolvable all_nodes e) eqn:He; simpl.
  - apply IH.
  - now rewrite Hf.
Qed.

Lemma flat_map_filter_skip {B} (g : element -> list B) es :
  (forall e, resolvable all_nodes e = false -> g e = []) ->
  flat_map g (List.filter (resolvable all_nodes) es) = flat_map g es.
Proof.
  intros Hg. induction es as [|e es IH]; simpl; [reflexivity|].
  destruct (resolvable all_nodes e) eqn:He; simpl.
  - now rewrite IH.
  - now rewrite IH, Hg.
Qed.

Lemma lengths_of_filter es :
  lengths_of all_nodes (List.filter (resolvable all_nodes) es) =
  lengths_of all_nodes es.
Proof.
  unfold lengths_of. apply flat_map_filter_skip.
  intros e [-> | He]%resolvable_false; [reflexivity|].
  rewrite He. now destruct (od_get (el_start e) all_nodes).
Qed.

Lemma min_len_of_filter es :
  min_len_of all_nodes (List.filter (resolvable all_nodes) es) =
  min_len_of all_nodes es.
Proof.
  unfold min_len_of. rewrite lengths_of_filter.
  destruct es as [|e es]; [reflexivity|].
  destruct (List.filter (resolvable all_nodes) (e :: es)) as [|e' es'] eqn:Ef;
    [|reflexivity].
  rewrite <- lengths_of_filter, Ef. reflexivity.
Qed.

End Dangling.

(** C4, as stated, fails.  With eight members that all reference the missing
    joint 9, [DensityMultiplier] is 0.65 and [VisualScale] is 0.39; without
    them (no member) they are 0.75 and 0.45: the members are counted. *)
Lemma dangling_members_counted_counterexample :
  let all_nodes := all_nodes_of (br_nodes eight_dangling) in
  let all_elements := br_elements eight_dangling in
  Forall (fun e => resolvable all_nodes e = false) all_elements /\
  auto_mult_of all_elements = 0.65 /\
  auto_mult_of (List.filter (resolvable all_nodes) all_elements) = 0.75 /\
  visual_scale_in eight_dangling = Some 0.39 /\
  visual_scale_in
    {| br_nodes := br_nodes eight_dangling;
       br_elements := List.filter (resolvable all_nodes) all_elements |}
  = Some 0.45.
Proof.
  assert (Hcf : forall n, (n <= 12)%nat ->
            Py.max2 0.35 (sqrt (12 / Py.max2 12 (INR n))) = 1).
  { intros n Hn. rewrite !max2_Rmax.
    assert (INR n <= 12) by (apply (le_INR n 12) in Hn; simpl in Hn; lra).
    rewrite (Rmax_left 12) by assumption.
    replace (12 / 12) with 1 by lra. rewrite sqrt_1. apply Rmax_right. lra. }
  assert (Hclamp : Py.max2 0.1 (Py.min2 (2 * 0.3) 0.6) = 0.6).
  { rewrite max2_Rmax, min2_Rmin.
    rewrite Rmin_left by lra. rewrite Rmax_right by lra. lra. }
  split; [|split; [|split; [|split]]].
  - repeat constructor.
  - unfold auto_mult_of. simpl length. repeat case_decide; try lia; reflexivity.
  - unfold auto_mult_of. simpl length. repeat case_decide; try lia; reflexivity.
  - change (visual_scale_in eight_dangling)
      with (Some (visual_scale_of 2
                    (complexity_factor_of (br_elements eight_dangling))
                    (auto_mult_of (br_elements eight_dangling)))).
    f_equal. unfold visual_scale_of, complexity_factor_of.
    rewrite Hcf by (simpl; lia). rewrite Hclamp.
    unfold auto_mult_of. simpl length. repeat case_decide; try lia. lra.
  - change (visual_scale_in _)
      with (Some (visual_scale_of 2 (complexity_factor_of [])
                    (auto_mult_of []))).
    f_equal. unfold visual_scale_of, complexity_factor_of.
    rewrite Hcf by (simpl; lia). rewrite Hclamp.
    unfold auto_mult_of. simpl length. repeat case_decide; try lia. lra.
Qed.

Lemma draw_layers_filter all_nodes node_results vs cf mult all_elements sim :
  draw_layers all_nodes node_results vs cf mult
    (List.filter (resolvable all_nodes) all_elements) sim =
  draw_layers all_nodes node_results vs cf mult all_elements sim.
Proof.
  unfold draw_layers.
  rewrite (fold_filter_skip all_nodes (beam_body all_nodes vs cf))
    by (intros; now apply beam_body_dangling).
  destruct (fold_left (beam_body all_nodes vs cf) all_elements
              (new_figure, sim)) as [fig1 sim1].
  rewrite (fold_filter_skip all_nodes (label_body all_nodes cf _))
    by (intros; now apply label_body_dangling).
  reflexivity.
Qed.

Lemma filter_drop_dangling all_nodes es1 e es2 :
  resolvable all_nodes e = false ->
  List.filter (resolvable all_nodes) (es1 ++ e :: es2) =
  List.filter (resolvable all_nodes) (es1 ++ es2).
Proof.
  intros He. rewrite !List.filter_app. simpl. now rewrite He.
Qed.

(** C4, amended: a member whose start or end references a joint that does
    not exist adds nothing to the figure (no line, no arrow, no label) and
    leaves the legend registry as it is; taking it out of the model changes
    neither the figure drawn at a given [VisualScale] and
    [ComplexityFactor] nor [MinMemberLength].  (It still counts in the
    member count of [ComplexityFactor] and [DensityMultiplier].) *)
Theorem dangling_member_draws_nothing all_nodes node_results vs cf mult
  es1 e es2 sim :
  resolvable all_nodes e = false ->
  (forall st fig,
     beam_body all_nodes vs cf st e = st /\
     label_body all_nodes cf sim fig e = fig) /\
  draw_layers all_nodes node_results vs cf mult (es1 ++ e :: es2) sim =
  draw_layers all_nodes node_results vs cf mult (es1 ++ es2) sim /\
  min_len_of all_nodes (es1 ++ e :: es2) = min_len_of all_nodes (es1 ++ es2).
Proof.
  intros He. split; [|split].
  - intros st fig. split.
    + now apply beam_body_dangling.
    + now apply label_body_dangling.
  - rewrite <- (draw_layers_filter _ _ _ _ _ (es1 ++ e :: es2)).
    rewrite <- (draw_layers_filter _ _ _ _ _ (es1 ++ es2)).
    now rewrite filter_drop_dangling.
  - rewrite <- (min_len_of_filter _ (es1 ++ e :: es2)).
    rewrite <- (min_len_of_filter _ (es1 ++ es2)).
    now rewrite filter_drop_dangling.
Qed.

(** [dangling_member_draws_nothing] on the first member of
    [eight_dangling]. *)
Lemma dangling_member_draws_nothing_witness :
  let all_nodes := all_nodes_of (br_nodes eight_dangling) in
  let e := mk_element 1 1 9 in
  let es2 := map (fun i => mk_element i 1 9) [2; 3; 4; 5; 6; 7; 8]%Z in
  resolvable all_nodes e = false /\
  ((forall st fig,
      beam_body all_nodes 0.39 1 st e = st /\
      label_body all_nodes 1 (simulation_results_of None) fig e = fig) /\
   draw_layers all_nodes ∅ 0.39 1 0.6 ([] ++ e :: es2)
     (simulation_results_of None) =
   draw_layers all_nodes ∅ 0.39 1 0.6 ([] ++ es2)
     (simulation_results_of None) /\
   min_len_of all_nodes ([] ++ e :: es2) = min_len_of all_nodes ([] ++ es2)).
Proof.
  split; [reflexivity|].
  apply (dangling_member_draws_nothing
           (all_nodes_of (br_nodes eight_dangling)) ∅ 0.39 1 0.6 []
           (mk_element 1 1 9)).
  reflexivity.
Defined.

(** ** Internal-force arrows *)


Lemma unit_vector dx dy :
  0 < sqrt (dx ^ 2 + dy ^ 2) ->
  (dx / sqrt (dx ^ 2 + dy ^ 2)) ^ 2 + (dy / sqrt (dx ^ 2 + dy ^ 2)) ^ 2 = 1.
Proof.
  intros Hpos.
  assert (Hsq : sqrt (dx ^ 2 + dy ^ 2) * sqrt (dx ^ 2 + dy ^ 2)
                = dx ^ 2 + dy ^ 2).
  { apply sqrt_sqrt. pose proof (pow2_ge_0 dx). pose proof (pow2_ge_0 dy).
    lra. }
  set (len := sqrt (dx ^ 2 + dy ^ 2)) in *.
  replace ((dx / len) ^ 2 + (dy / len) ^ 2)
    with ((dx ^ 2 + dy ^ 2) / (len * len)) by (field; lra).
  rewrite <- Hsq. field. lra.
Qed.



(** ** Reaction arrows *)

(** C7, as stated, fails.  For a joint at (0, 0) with the reaction
    (0, 25) kN and [VisualScale] 0.45 the arrow runs from (0, -0.8325) to
    (0, -0.1125): it lies below the joint and points upward, along the
    reaction, not against it. *)
Lemma reaction_arrow_direction_counterexample :
  reaction_ends 0.45 0 0 0 25 = ((0, -0.8325), (0, -0.1125)) /\
  let '((t_x, t_y), (h_x, h_y)) := reaction_ends 0.45 0 0 0 25 in
  ~ (h_x - t_x) * 0 + (h_y - t_y) * 25 < 0.
Proof.
  assert (H : reaction_ends 0.45 0 0 0 25 = ((0, -0.8325), (0, -0.1125))).
  { unfold reaction_ends.
    replace (sqrt (0 ^ 2 + 25 ^ 2)) with 25
      by (symmetry; apply sqrt_lem_1; lra).
    repeat match goal with
           | |- (_, _) = (_, _) => f_equal
           end; lra. }
  split; [exact H|]. rewrite H. lra.
Qed.

(** What [draw_reaction] adds for a joint whose result has a magnitude above
    0.001: one arrow, whose head is at the joint minus
    [0.25 * visual_scale * u] and whose tail is [1.6 * visual_scale] further
    back, [u] being the unit vector of the reaction. *)
Lemma draw_reaction_arrow node_results vs cf fig node_id node res :
  node_results !! node_id = Some res ->
  let rx := default 0 (nr_rx res) / 1000.0 in
  let ry := default 0 (nr_ry res) / 1000.0 in
  let magnitude := sqrt (rx ^ 2 + ry ^ 2) in
  magnitude > 0.001 ->
  let ux := rx / magnitude in
  let uy := ry / magnitude in
  let head := (nd_x node - ux * (0.25 * vs), nd_y node - uy * (0.25 * vs)) in
  let tail := (fst head - 1.6 * vs * ux, snd head - 1.6 * vs * uy) in
  ux ^ 2 + uy ^ 2 = 1 /\
  reaction_ends vs (nd_x node) (nd_y node) rx ry = (tail, head) /\
  draw_reaction node_results vs cf fig node_id node =
    fig_app fig
      (arrow_traces vs cf (fst tail) (snd tail) (fst head) (snd head)
         "#8b5cf6" "Reaction Force")
      [arrow_label vs cf (fst tail) (snd tail) (fst head) (snd head)
         "#8b5cf6" "Reaction Force" [Lit "R: "; Fixed 1 magnitude] 0.45].
Proof.
  intros Hres rx ry magnitude Hmag ux uy head tail.
  assert (Hpos : 0 < magnitude) by lra.
  assert (Hends : reaction_ends vs (nd_x node) (nd_y node) rx ry
                  = (tail, head)).
  { unfold reaction_ends, tail, head. fold magnitude. fold ux uy. simpl fst.
    simpl snd.
    repeat match goal with
           | |- (_, _) = (_, _) => f_equal
           end; ring. }
  split; [apply unit_vector; exact Hpos|].
  split; [exact Hends|].
  unfold draw_reaction. rewrite Hres. fold rx ry. fold magnitude.
  destruct (decide (magnitude > 0.001)) as [_|Hn]; [|contradiction].
  rewrite Hends. unfold tail, head. cbn [fst snd].
  rewrite add_trace_arrow_app. reflexivity.
Qed.

(** ** Safety classification *)

Lemma classify_bands sf :
  (sf < 1 -> Spec.classify (Some sf) = Spec.Unsafe) /\
  (1 <= sf < 2 -> Spec.classify (Some sf) = Spec.Caution) /\
  (2 <= sf -> Spec.classify (Some sf) = Spec.Safe).
Proof.
  unfold Spec.classify. repeat split; intros; repeat case_decide;
    try reflexivity; lra.
Qed.

(** The three places that classify a member agree with the specification. *)
Lemma classify_style sim e :
  let c := Spec.classify (er_safety <$> sr_elements sim !! el_id e) in
  (beam_style sim e).1.1 = Spec.color c /\
  (beam_style sim e).1.2 = Spec.width c /\
  beam_legend_group sim e = Spec.label c /\
  label_bg_color sim e = Spec.color c.
Proof.
  unfold beam_style, beam_legend_group, label_bg_color, Spec.classify.
  destruct (sr_elements sim !! el_id e) as [res|]; simpl.
  - repeat case_decide; repeat split; reflexivity.
  - repeat split; reflexivity.
Qed.

Lemma beam_style_elements sim sim' e :
  sr_elements sim = sr_elements sim' ->
  beam_style sim e = beam_style sim' e /\
  beam_legend_group sim e = beam_legend_group sim' e /\
  label_bg_color sim e = label_bg_color sim' e.
Proof.
  intros H. unfold beam_style, beam_legend_group, label_bg_color.
  now rewrite H.
Qed.

Section Members.

Variable all_nodes : odict node.
Variable node_results : gmap Z node_result.
Variable visual_scale : R.
Variable complexity_factor : R.
Variable visualization_scale_multiplier : R.

Lemma beam_body_extends st e :
  extends (fst st)
    (fst (beam_body all_nodes visual_scale complexity_factor st e)) /\
  sr_elements (snd (beam_body all_nodes visual_scale complexity_factor st e))
  = sr_elements (snd st).
Proof.
  destruct (resolvable all_nodes e) eqn:Hres.
  - apply resolvable_true in Hres as (a & b & Ea & Eb).
    destruct st as [fig sim].
    destruct (beam_body_resolved all_nodes visual_scale complexity_factor
                fig sim e a b Ea Eb) as [-> Hext].
    split.
    + eapply extends_trans; [|apply extends_hidden_extends, Hext].
      rewrite add_trace_app. now eexists _, _.
    + pose proof (register_beam_legend_spec sim (beam_legend_group sim e)).
      destruct (register_beam_legend sim (beam_legend_group sim e)).
      tauto.
  - rewrite beam_body_dangling by assumption.
    split; [apply extends_refl|reflexivity].
Qed.

Lemma beam_fold_extends es : forall st,
  extends (fst st)
    (fst (fold_left (beam_body all_nodes visual_scale complexity_factor)
            es st)) /\
  sr_elements
    (snd (fold_left (beam_body all_nodes visual_scale complexity_factor)
            es st))
  = sr_elements (snd st).
Proof.
  induction es as [|x es IH]; intros st; simpl.
  - split; [apply extends_refl|reflexivity].
  - destruct (IH (beam_body all_nodes visual_scale complexity_factor st x))
      as [H1 H2].
    destruct (beam_body_extends st x) as [H3 H4].
    split; [eapply extends_trans; eassumption|congruence].
Qed.

(** The line of every member with both joints is in the figure. *)
Lemma beam_fold_has_trace es : forall st e a b,
  In e es ->
  od_get (el_start e) all_nodes = Some a ->
  od_get (el_end e) all_nodes = Some b ->
  exists show,
    In (beam_trace (nd_x a) (nd_y a) (nd_x b) (nd_y b)
          (beam_style (snd st) e).1.1 (beam_style (snd st) e).1.2
          (beam_style (snd st) e).2 (beam_legend_group (snd st) e) show)
       (fig_data
          (fst (fold_left
                  (beam_body all_nodes visual_scale complexity_factor)
                  es st))).
Proof.
  induction es as [|x es IH]; intros st e a b Hin Ea Eb; [destruct Hin|].
  simpl. destruct Hin as [->|Hin].
  - destruct st as [fig sim].
    destruct (beam_body_resolved all_nodes visual_scale complexity_factor
                fig sim e a b Ea Eb) as [_ Hext].
    eexists.
    eapply extends_data; [apply beam_fold_extends|].
    eapply extends_data; [apply extends_hidden_extends, Hext|].
    simpl. apply in_or_app. right. now left.
  - destruct (IH (beam_body all_nodes visual_scale complexity_factor st x)
                e a b Hin Ea Eb) as [show Hshow].
    destruct (beam_body_extends st x) as [_ Hel].
    destruct (beam_style_elements _ _ e Hel) as (-> & -> & _) in Hshow.
    now exists show.
Qed.

(** The badge of every member with both joints is in the figure. *)
Lemma label_fold_has es sim fig e a b :
  In e es ->
  od_get (el_start e) all_nodes = Some a ->
  od_get (el_end e) all_nodes = Some b ->
  In (beam_label complexity_factor sim e a b)
     (fig_annotations
        (fold_left (label_body all_nodes complexity_factor sim) es fig)).
Proof.
  intros Hin Ea Eb.
  rewrite (fold_fig_app _ (fun _ => [])
             (fun e => match od_get (el_start e) all_nodes,
                             od_get (el_end e) all_nodes with
                       | Some a, Some b =>
                           [beam_label complexity_factor sim e a b]
                       | _, _ => []
                       end)).
  - simpl. apply in_or_app. right. apply in_flat_map.
    exists e. split; [assumption|]. rewrite Ea, Eb. now left.
  - intros f x. unfold label_body.
    destruct (od_get (el_start x) all_nodes);
      [destruct (od_get (el_end x) all_nodes)|];
      now rewrite ?add_annotation_app, ?fig_app_nil.
Qed.

Lemma node_body_extends st item :
  extends (nl_fig st)
    (nl_fig (node_body node_results visual_scale complexity_factor st item)).
Proof.
  destruct item as [id n].
  destruct (node_body_after_support node_results visual_scale
              complexity_factor st id n) as (Hext & _ & _).
  eapply extends_trans; [|apply extends_hidden_extends, Hext].
  destruct (draw_support_cases visual_scale (nl_fig st) (nl_sim st) n)
    as [[_ ->]|(_ & sym & col & ->)]; simpl; [apply extends_refl|].
  rewrite add_trace_app. now eexists _, _.
Qed.

Lemma node_fold_extends l : forall st,
  extends (nl_fig st)
    (nl_fig (fold_left
               (node_body node_results visual_scale complexity_factor) l st)).
Proof.
  induction l as [|x l IH]; intros st; simpl; [apply extends_refl|].
  eapply extends_trans; [apply node_body_extends|apply IH].
Qed.

End Members.

Lemma node_shape_inv_fold node_results vs cf sim1 fig l :
  node_shape_inv sim1 (List.filter legend_only (fig_data fig))
    (fold_left (node_body node_results vs cf) l
       {| nl_fig := fig; nl_sim := sim1; node_plot_x := [];
          node_plot_y := []; node_hover_text := [] |}).
Proof.
  apply fold_left_invariant.
  - intros a x _. apply node_shape_inv_step.
  - unfold node_shape_inv. simpl. auto.
Qed.

(** In the finished figure every member with both joints has its line and
    its badge, styled from the entry of its id in the result file. *)
Lemma draw_layers_member all_nodes node_results vs cf mult all_elements sim0
  e a b :
  In e all_elements ->
  od_get (el_start e) all_nodes = Some a ->
  od_get (el_end e) all_nodes = Some b ->
  let fig := draw_layers all_nodes node_results vs cf mult all_elements sim0 in
  (exists show,
     In (beam_trace (nd_x a) (nd_y a) (nd_x b) (nd_y b)
           (beam_style sim0 e).1.1 (beam_style sim0 e).1.2
           (beam_style sim0 e).2 (beam_legend_group sim0 e) show)
        (fig_data fig)) /\
  (exists lbl,
     In lbl (fig_annotations fig) /\
     an_text lbl = [Lit "#"; IntStr (el_id e)] /\
     an_x lbl = (nd_x a + nd_x b) / 2 /\
     an_y lbl = (nd_y a + nd_y b) / 2 /\
     an_bgcolor lbl = label_bg_color sim0 e).
Proof.
  intros Hin Ea Eb fig. subst fig.
  destruct (draw_layers_phases all_nodes node_results vs cf mult
              all_elements sim0) as (fig1 & sim1 & st & E1 & Est & ->).
  destruct (beam_fold_has_trace all_nodes vs cf all_elements
              (new_figure, sim0) e a b Hin Ea Eb) as [show Hshow].
  destruct (beam_fold_extends all_nodes vs cf all_elements (new_figure, sim0))
    as [_ Hel].
  rewrite E1 in Hshow, Hel. cbn [fst snd] in Hshow, Hel.
  pose proof (node_shape_inv_fold node_results vs cf sim1
                (add_legend_entries fig1) all_nodes) as Hshape.
  rewrite <- Est in Hshape. destruct Hshape as (Hel' & _ & Hx).
  split.
  - exists show. cbn [update_layout fig_data].
    eapply extends_data;
      [apply extends_hidden_extends, draw_layers_tail, Hx|].
    rewrite Est. eapply extends_data; [apply node_fold_extends|].
    cbn [nl_fig]. rewrite add_legend_entries_app. cbn [fig_data fig_app].
    apply in_or_app. now left.
  - exists (beam_label cf (nl_sim st) e a b).
    split; [cbn [update_layout fig_annotations]; now apply label_fold_has|].
    repeat split.
    cbn [beam_label an_bgcolor].
    apply beam_style_elements. congruence.
Qed.

Lemma beam_style_hover sim e :
  exists rest, (beam_style sim e).2 = Lit "Beam #" :: IntStr (el_id e) :: rest.
Proof.
  unfold beam_style.
  destruct (sr_elements sim !! el_id e); repeat case_decide; simpl; eauto.
Qed.

(** C1: in a successful render every member of the model with both joints
    has a line and an id badge that are styled by one classification [c] of
    the safety factor of its result: below 1 Unsafe, from 1 (included) to
    2 (excluded) Caution, from 2 on Safe, and Draft without result.  The
    line has the colour, width and legend name of [c], the badge the colour
    of [c]. *)
Theorem classification_by_safety_factor b r ds mult fig h e :
  draw_bridge (Some b) r ds mult = Rendered fig h ->
  In e (br_elements b) ->
  resolvable (all_nodes_of (br_nodes b)) e = true ->
  let result := sr_elements (simulation_results_of r) !! el_id e in
  let c := Spec.classify (er_safety <$> result) in
  match result with
  | None => c = Spec.Draft
  | Some res =>
      (er_safety res < 1 -> c = Spec.Unsafe) /\
      (1 <= er_safety res < 2 -> c = Spec.Caution) /\
      (2 <= er_safety res -> c = Spec.Safe)
  end /\
  (exists t rest,
     In t (fig_data fig) /\
     tr_text t = Some (Lit "Beam #" :: IntStr (el_id e) :: rest) /\
     tr_line t = Some {| line_color := Spec.color c;
                         line_width := Spec.width c |} /\
     tr_name t = Some (Spec.label c) /\
     tr_legendgroup t = Some (Spec.label c)) /\
  (exists lbl,
     In lbl (fig_annotations fig) /\
     an_text lbl = [Lit "#"; IntStr (el_id e)] /\
     an_bgcolor lbl = Spec.color c).
Proof.
  intros Hd Hin Hres result c.
  apply draw_bridge_rendered in Hd as (_ & vs & _ & ->).
  apply resolvable_true in Hres as (a & b' & Ea & Eb).
  destruct (draw_layers_member _ (node_results_of r) vs
              (complexity_factor_of (br_elements b)) mult _
              (simulation_results_of r) e a b' Hin Ea Eb)
    as [[show Ht] (lbl & Hl & Htxt & _ & _ & Hbg)].
  destruct (classify_style (simulation_results_of r) e)
    as (Hcol & Hw & Hgrp & Hlab).
  fold result in Hcol, Hw, Hgrp, Hlab. fold c in Hcol, Hw, Hgrp, Hlab.
  split; [|split].
  - subst c. destruct result as [res|]; [apply classify_bands|reflexivity].
  - destruct (beam_style_hover (simulation_results_of r) e) as [rest Hrest].
    eexists _, rest. split; [exact Ht|].
    cbn [beam_trace tr_text tr_line tr_name tr_legendgroup].
    rewrite Hcol, Hw, Hgrp, Hrest. repeat split.
  - exists lbl. rewrite <- Hlab, <- Hbg. auto.
Qed.

(** [classification_by_safety_factor] on member 4 of the default truss,
    whose safety factor is exactly 2: it is Safe. *)
Lemma classification_by_safety_factor_witness :
  exists fig h,
    draw_bridge (Some default_truss) (Some default_results) 0 0.6 =
      Rendered fig h /\
    In (mk_element 4 2 4) (br_elements default_truss) /\
    resolvable (all_nodes_of (br_nodes default_truss)) (mk_element 4 2 4)
      = true /\
    (exists t rest,
       In t (fig_data fig) /\
       tr_text t = Some (Lit "Beam #" :: IntStr 4 :: rest) /\
       tr_line t = Some {| line_color := "#10b981"; line_width := 6 |} /\
       tr_name t = Some "Beam (Safe)" /\
       tr_legendgroup t = Some "Beam (Safe)") /\
    (exists lbl,
       In lbl (fig_annotations fig) /\
       an_text lbl = [Lit "#"; IntStr 4] /\
       an_bgcolor lbl = "#10b981").
Proof.
  destruct (default_truss_renders (Some default_results) 0 0.6)
    as (vs & _ & _ & Hd).
  assert (Hin : In (mk_element 4 2 4) (br_elements default_truss))
    by (simpl; auto).
  assert (Hres : resolvable (all_nodes_of (br_nodes default_truss))
                   (mk_element 4 2 4) = true) by reflexivity.
  eexists _, _. split; [exact Hd|]. split; [exact Hin|]. split; [exact Hres|].
  destruct (classification_by_safety_factor default_truss
              (Some default_results) 0 0.6 _ _ (mk_element 4 2 4)
              Hd Hin Hres) as ((_ & _ & Hsafe) & Ht & Hl).
  change (sr_elements (simulation_results_of (Some default_results))
            !! el_id (mk_element 4 2 4))
    with (Some {| er_id := 4; er_force := 50; er_safety := 2 |}) in *.
  cbn [fmap option_fmap option_map er_safety] in *.
  rewrite Hsafe in Ht, Hl by (simpl; lra).
  split; [exact Ht|exact Hl].
Defined.

(** ** The direction of an arrow (lines 96-107) *)

Lemma sqrt_one_plus_slope dx dy :
  dx <> 0 ->
  sqrt (1 + (dy / dx)²) = sqrt (dx ^ 2 + dy ^ 2) / Rabs dx.
Proof.
  intros Hdx.
  assert (Hsq : 0 < dx ^ 2).
  { rewrite <- Rsqr_pow2. now apply Rsqr_pos_lt. }
  replace (1 + (dy / dx)²) with ((dx ^ 2 + dy ^ 2) / dx ^ 2)
    by (unfold Rsqr; field; exact Hdx).
  rewrite sqrt_div; [|pose proof (pow2_ge_0 dy); lra|exact Hsq].
  f_equal. rewrite <- Rsqr_pow2. apply sqrt_Rsqr_abs.
Qed.

(** [np.arctan2] gives the angle of the vector: its cosine and sine are the
    components of the unit vector. *)
Lemma arctan2_cos_sin dx dy :
  0 < sqrt (dx ^ 2 + dy ^ 2) ->
  cos (Py.arctan2 dy dx) = dx / sqrt (dx ^ 2 + dy ^ 2) /\
  sin (Py.arctan2 dy dx) = dy / sqrt (dx ^ 2 + dy ^ 2).
Proof.
  intros Hlen. unfold Py.arctan2.
  destruct (decide (0 < dx)) as [Hp|Hnp].
  - rewrite cos_atan, sin_atan, sqrt_one_plus_slope by lra.
    rewrite Rabs_right by lra. split; field; lra.
  - destruct (decide (dx < 0)) as [Hn|Hnn].
    + assert (Hc : - cos (atan (dy / dx)) = dx / sqrt (dx ^ 2 + dy ^ 2)).
      { rewrite cos_atan, sqrt_one_plus_slope by lra.
        rewrite Rabs_left by lra. field; lra. }
      assert (Hs : - sin (atan (dy / dx)) = dy / sqrt (dx ^ 2 + dy ^ 2)).
      { rewrite sin_atan, sqrt_one_plus_slope by lra.
        rewrite Rabs_left by lra. field; lra. }
      destruct (decide (0 <= dy)).
      * now rewrite neg_cos, neg_sin.
      * replace (atan (dy / dx) - PI) with (- (- atan (dy / dx) + PI))
          by ring.
        rewrite cos_neg, sin_neg, neg_cos, neg_sin, cos_neg, sin_neg.
        rewrite Ropp_involutive. split; [exact Hc|exact Hs].
    + assert (dx = 0) as -> by lra.
      replace (0 ^ 2 + dy ^ 2) with (dy ^ 2) in * by ring.
      destruct (decide (0 < dy)) as [Hy|Hny].
      * rewrite cos_PI2, sin_PI2, sqrt_pow2 by lra. split; field; lra.
      * destruct (decide (dy < 0)) as [Hy|Hnn'].
        -- rewrite cos_neg, sin_neg, cos_PI2, sin_PI2.
           replace (dy ^ 2) with ((- dy) ^ 2) by ring.
           rewrite sqrt_pow2 by lra. split; field; lra.
        -- assert (dy = 0) as -> by lra.
           replace (0 ^ 2) with 0 in Hlen by ring.
           rewrite sqrt_0 in Hlen. lra.
Qed.

(** Where both components vanish the angle is 0: the arrow would point to
    the right. *)
Lemma arctan2_origin : Py.arctan2 0 0 = 0.
Proof.
  unfold Py.arctan2.
  repeat match goal with
         | |- context [decide ?P] => destruct (decide P); try lra
         end.
Qed.

(** The half-angle of the head: [cos (1.11 * pi)] is at most -0.9. *)
Lemma cos_head_angle : -1 <= cos (PI * 1.11) <= -0.9.
Proof.
  split; [apply COS_bound|].
  replace (PI * 1.11) with (PI * 0.11 + PI) by lra.
  rewrite neg_cos.
  replace (PI * 0.11) with (2 * (PI * 0.055)) by lra.
  rewrite cos_2a_sin.
  pose proof PI_RGT_0 as Hpi. pose proof PI_4 as Hpi4.
  assert (Hx : 0 < PI * 0.055) by lra.
  pose proof (sin_lt_x _ Hx) as Hs.
  assert (Hs0 : 0 <= sin (PI * 0.055)).
  { apply sin_ge_0; lra. }
  nra.
Qed.

(** The coordinates of the six traces of an arrow whose two ends differ. *)
Lemma arrow_traces_coords vs cf sx sy ex ey color group :
  let len := sqrt ((ex - sx) ^ 2 + (ey - sy) ^ 2) in
  0 < len ->
  let ux := (ex - sx) / len in
  let uy := (ey - sy) / len in
  let k := cos (PI * 1.11) in
  let s := sin (PI * 1.11) in
  let shaft :=
    ([Some (sx + 0.0384 * vs * ux); Some (ex - 0.3744 * vs * ux); None],
     [Some (sy + 0.0384 * vs * uy); Some (ey - 0.3744 * vs * uy); None]) in
  let head :=
    ([Some ex; Some (ex + 0.48 * vs * (k * ux - s * uy));
      Some (ex + 0.48 * vs * (k * ux + s * uy)); Some ex; None],
     [Some ey; Some (ey + 0.48 * vs * (k * uy + s * ux));
      Some (ey + 0.48 * vs * (k * uy - s * ux)); Some ey; None]) in
  map (fun t => (tr_x t, tr_y t)) (arrow_traces vs cf sx sy ex ey color group)
    = [shaft; head; shaft; head; shaft; head].
Proof.
  intros len Hlen ux uy k s shaft head.
  destruct (arctan2_cos_sin (ex - sx) (ey - sy) Hlen) as [Hc Hs].
  fold len in Hc, Hs. fold ux in Hc. fold uy in Hs.
  unfold arrow_traces, shaft, head. cbn [map tr_x tr_y arrow_line arrow_head].
  rewrite cos_plus, sin_plus, cos_minus, sin_minus, Hc, Hs.
  fold k s.
  repeat match goal with
         | |- (_ :: _) = (_ :: _) => f_equal
         | |- (_, _) = (_, _) => f_equal
         | |- Some _ = Some _ => f_equal
         end; clearbody ux uy k s; lra.
Qed.

(** A figure that holds the six traces of an arrow shows the arrow. *)
Lemma arrow_traces_drawn fig vs cf tail head color group :
  0 < sqrt ((head.1 - tail.1) ^ 2 + (head.2 - tail.2) ^ 2) ->
  (forall t,
     In t (arrow_traces vs cf tail.1 tail.2 head.1 head.2 color group) ->
     In t (fig_data fig)) ->
  arrow_drawn fig vs tail head color.
Proof.
  intros Hlen Hin.
  pose proof (arrow_traces_coords vs cf tail.1 tail.2 head.1 head.2 color
                group Hlen) as Hco.
  cbv zeta in Hco.
  pose proof (f_equal (fun l => nth 4 l ([], [])) Hco) as H5.
  pose proof (f_equal (fun l => nth 5 l ([], [])) Hco) as H6.
  unfold arrow_traces in H5, H6. cbn [map nth] in H5, H6.
  pose proof (f_equal fst H5) as H5x. pose proof (f_equal snd H5) as H5y.
  pose proof (f_equal fst H6) as H6x. pose proof (f_equal snd H6) as H6y.
  cbn [fst snd] in H5x, H5y, H6x, H6y.
  split.
  - eexists _, _. split; [apply Hin; unfold arrow_traces; do 4 right; left;
                          reflexivity|].
    split; [exact H5x|]. split; [exact H5y|reflexivity].
  - eexists. split; [apply Hin; unfold arrow_traces; do 5 right; left;
                     reflexivity|].
    split; [exact H6x|]. split; [exact H6y|]. split; reflexivity.
Qed.

(** ** What each loop adds, exactly *)

Lemma list_sum_zero {A} (l : list A) :
  list_sum (map (fun _ => 0%nat) l) = 0%nat.
Proof. induction l; simpl; auto. Qed.

Lemma list_sum_indicator {A} (p : A -> bool) (l : list A) :
  list_sum (map (fun x => if p x then 1%nat else 0%nat) l) =
  length (List.filter p l).
Proof.
  induction l as [|x l IH]; [reflexivity|].
  simpl. destruct (p x); simpl; lia.
Qed.

Lemma list_sum_every {A} (l : list A) :
  list_sum (map (fun _ => 1%nat) l) = length l.
Proof. induction l; simpl; auto. Qed.

Lemma list_sum_map_zero {A} (f : A -> nat) (l : list A) :
  (forall x, f x = 0%nat) -> list_sum (map f l) = 0%nat.
Proof. intros H. induction l as [|x l IH]; simpl; [|rewrite H]; auto. Qed.

Lemma list_sum_map_scaled {A} (k : nat) (f : A -> nat) (p : A -> bool)
  (l : list A) :
  (forall x, f x = if p x then k else 0%nat) ->
  list_sum (map f l) = (k * length (List.filter p l))%nat.
Proof.
  intros H. induction l as [|x l IH]; simpl; [lia|].
  rewrite H, IH. destruct (p x); simpl; lia.
Qed.

Section Weights.

Variable w : trace -> nat.
Variables wb we ws wj : nat.
Variable wa : string -> nat.

Hypothesis w_beam : forall sx sy ex ey col wd hover g show,
  w (beam_trace sx sy ex ey col wd hover g show) = wb.
Hypothesis w_entry : forall n c, w (legend_entry n c) = we.
Hypothesis w_support : forall vs x y s sym col show,
  w (support_trace vs x y s sym col show) = ws.
Hypothesis w_joints : forall vs mult xs ys hover,
  w (joints_trace vs mult xs ys hover) = wj.
Hypothesis w_arrow : forall vs cf sx sy ex ey color group,
  list_sum (map w (arrow_traces vs cf sx sy ex ey color group)) = wa color.

Lemma grows_refl fig : grows w 0 [] fig fig.
Proof. exists []. now rewrite fig_app_nil. Qed.

Lemma grows_trans k1 a1 k2 a2 f1 f2 f3 :
  grows w k1 a1 f1 f2 -> grows w k2 a2 f2 f3 ->
  grows w (k1 + k2) (a1 ++ a2)%list f1 f3.
Proof.
  intros (t1 & -> & <-) (t2 & -> & <-). exists (t1 ++ t2)%list.
  now rewrite fig_app_app, map_app, list_sum_app.
Qed.

Lemma grows_eq k k' a a' f f' :
  grows w k a f f' -> k = k' -> a = a' -> grows w k' a' f f'.
Proof. now intros H <- <-. Qed.

Lemma add_trace_grows fig t : grows w (w t) [] fig (add_trace fig t).
Proof. exists [t]. rewrite add_trace_app. split; [reflexivity|simpl; lia]. Qed.

Lemma add_annotation_grows fig a : grows w 0 [a] fig (add_annotation fig a).
Proof. exists []. now rewrite add_annotation_app. Qed.

Lemma fold_grows {A} (f : figure -> A -> figure) (c : A -> nat)
  (N : A -> list annotation) (l : list A) :
  (forall fig x, grows w (c x) (N x) fig (f fig x)) ->
  forall fig,
    grows w (list_sum (map c l)) (flat_map N l) fig (fold_left f l fig).
Proof.
  intros Hf. induction l as [|x l IH]; intros fig; simpl.
  - apply grows_refl.
  - eapply grows_trans; [apply Hf|apply IH].
Qed.

Lemma add_trace_arrow_grows vs cf fig sx sy ex ey color name group txt off :
  grows w (wa color)
    (fig_annotations
       (add_trace_arrow vs cf new_figure sx sy ex ey color name group txt off))
    fig (add_trace_arrow vs cf fig sx sy ex ey color name group txt off).
Proof.
  rewrite !add_trace_arrow_app. eexists. split; [reflexivity|apply w_arrow].
Qed.

Lemma add_trace_arrow_silent vs cf fig sx sy ex ey color name group off :
  grows w (wa color) [] fig
    (add_trace_arrow vs cf fig sx sy ex ey color name group None off).
Proof.
  eapply grows_eq; [apply add_trace_arrow_grows|reflexivity|].
  now rewrite add_trace_arrow_app.
Qed.

Lemma draw_internal_forces_grows vs cf fig sim e sx sy ex ey :
  grows w
    (match sr_elements sim !! el_id e with
     | Some res =>
         if bool_decide (Rabs (er_force res) > 0.1)
         then (2 * wa (internal_arrow_style (er_force res)).1)%nat
         else 0%nat
     | None => 0%nat
     end) [] fig
    (draw_internal_forces vs cf fig sim e sx sy ex ey).
Proof.
  unfold draw_internal_forces.
  destruct (sr_elements sim !! el_id e) as [res|]; [|apply grows_refl].
  destruct (decide (Rabs (er_force res) > 0.1)) as [H|H].
  - rewrite bool_decide_eq_true_2 by exact H.
    destruct (internal_arrow_style (er_force res)) as [c g].
    unfold internal_arrow_ends.
    destruct (bool_decide (er_force res <= 0)); cbn [map fold_left fst];
      (eapply grows_eq;
       [eapply grows_trans; apply add_trace_arrow_silent|lia|reflexivity]).
  - rewrite bool_decide_eq_false_2 by exact H. apply grows_refl.
Qed.

Lemma register_beam_legend_elements sim g :
  sr_elements (register_beam_legend sim g).2 = sr_elements sim.
Proof. unfold register_beam_legend. now destruct (decide _). Qed.

Lemma register_support_legend_elements sim g :
  sr_elements (register_support_legend sim g).2 = sr_elements sim.
Proof. unfold register_support_legend. now destruct (decide _). Qed.

Lemma member_weight_elements all_nodes sim sim' e :
  sr_elements sim' = sr_elements sim ->
  member_weight wb wa all_nodes sim' e = member_weight wb wa all_nodes sim e.
Proof. intros H. unfold member_weight. now rewrite H. Qed.

Lemma beam_body_grows all_nodes vs cf fig sim e :
  let st' := beam_body all_nodes vs cf (fig, sim) e in
  grows w (member_weight wb wa all_nodes sim e) [] fig st'.1 /\
  sr_elements st'.2 = sr_elements sim.
Proof.
  unfold member_weight, beam_body, resolvable.
  destruct (od_get (el_start e) all_nodes) as [a|];
    [|split; [apply grows_refl|reflexivity]].
  destruct (od_get (el_end e) all_nodes) as [b|];
    [|split; [apply grows_refl|reflexivity]].
  rewrite !bool_decide_eq_true_2 by eauto. cbn [andb].
  destruct (beam_style sim e) as [[c wd] hover].
  pose proof (register_beam_legend_elements sim (beam_legend_group sim e))
    as Hel.
  destruct (register_beam_legend sim (beam_legend_group sim e)) as [show sim'].
  cbn [fst snd] in *. split; [|exact Hel].
  eapply grows_eq;
    [eapply grows_trans;
       [apply add_trace_grows|apply draw_internal_forces_grows]| |reflexivity].
  now rewrite w_beam, Hel.
Qed.

Lemma beam_fold_grows all_nodes vs cf l : forall fig sim,
  let st' := fold_left (beam_body all_nodes vs cf) l (fig, sim) in
  grows w (list_sum (map (member_weight wb wa all_nodes sim) l)) [] fig st'.1
  /\ sr_elements st'.2 = sr_elements sim.
Proof.
  induction l as [|e l IH]; intros fig sim; cbn [fold_left map list_sum].
  - split; [apply grows_refl|reflexivity].
  - destruct (beam_body_grows all_nodes vs cf fig sim e) as [Hg Hel].
    destruct (beam_body all_nodes vs cf (fig, sim) e) as [fig' sim'].
    cbn [fst snd] in Hg, Hel.
    destruct (IH fig' sim') as [Hg' Hel'].
    split; [|now rewrite Hel'].
    eapply grows_eq; [eapply grows_trans; [exact Hg|exact Hg']| |reflexivity].
    rewrite (List.map_ext _ _
               (fun x => member_weight_elements all_nodes sim sim' x Hel)).
    reflexivity.
Qed.

Lemma draw_support_grows vs fig sim n :
  let st' := draw_support vs (fig, sim) n in
  grows w (if is_support n then ws else 0) [] fig st'.1 /\
  sr_elements st'.2 = sr_elements sim.
Proof.
  unfold draw_support, is_support, support_type_of.
  set (stype := default "Free Joint" (nd_type n)).
  destruct (default ("circle", "#1e3d59") (markers !! stype)) as [sym col].
  destruct (decide (stype ≠ "Free Joint")) as [H|H].
  - rewrite bool_decide_eq_true_2 by exact H.
    pose proof (register_support_legend_elements sim stype) as Hel.
    destruct (register_support_legend sim stype) as [show sim'].
    split; [|exact Hel].
    eapply grows_eq; [apply add_trace_grows|apply w_support|reflexivity].
  - rewrite bool_decide_eq_false_2 by exact H.
    split; [apply grows_refl|reflexivity].
Qed.

Lemma draw_load_grows vs cf fig n :
  grows w (if is_loaded n then wa "#f43f5e" else 0) (load_badge vs cf n) fig
    (draw_load vs cf fig n).
Proof.
  unfold load_badge, draw_load, is_loaded.
  destruct (decide (_ > 0.001)) as [H|H].
  - rewrite bool_decide_eq_true_2 by exact H. apply add_trace_arrow_grows.
  - rewrite bool_decide_eq_false_2 by exact H. apply grows_refl.
Qed.

Lemma draw_reaction_grows node_results vs cf fig id n :
  grows w (if has_reaction node_results (id, n) then wa "#8b5cf6" else 0)
    (reaction_badge node_results vs cf (id, n)) fig
    (draw_reaction node_results vs cf fig id n).
Proof.
  unfold reaction_badge, draw_reaction, has_reaction. cbn [fst snd].
  destruct (node_results !! id) as [res|]; [|apply grows_refl].
  destruct (decide (_ > 0.001)) as [H|H].
  - rewrite bool_decide_eq_true_2 by exact H.
    destruct (reaction_ends _ _ _ _ _) as [[tx ty] [hx hy]].
    apply add_trace_arrow_grows.
  - rewrite bool_decide_eq_false_2 by exact H. apply grows_refl.
Qed.

Lemma node_body_grows node_results vs cf st item :
  let st' := node_body node_results vs cf st item in
  grows w (joint_weight ws wa node_results item)
    (load_badge vs cf item.2 ++ reaction_badge node_results vs cf item)%list
    (nl_fig st) (nl_fig st') /\
  sr_elements (nl_sim st') = sr_elements (nl_sim st) /\
  node_plot_x st' = (node_plot_x st ++ [Some (nd_x item.2)])%list /\
  node_plot_y st' = (node_plot_y st ++ [Some (nd_y item.2)])%list /\
  node_hover_text st' =
    (node_hover_text st ++ [[Lit "Joint "; IntStr item.1]])%list.
Proof.
  destruct item as [id n]. unfold node_body, joint_weight. cbn [fst snd].
  destruct (draw_support_grows vs (nl_fig st) (nl_sim st) n) as [Hg Hel].
  destruct (draw_support vs (nl_fig st, nl_sim st) n) as [fig' sim'].
  cbn [fst snd nl_fig nl_sim node_plot_x node_plot_y node_hover_text] in *.
  split; [|now repeat split].
  eapply grows_eq;
    [eapply grows_trans;
       [exact Hg|
        eapply grows_trans;
          [apply draw_load_grows|apply draw_reaction_grows]]
    |lia|reflexivity].
Qed.

Lemma node_fold_grows node_results vs cf l : forall st,
  let st' := fold_left (node_body node_results vs cf) l st in
  grows w (list_sum (map (joint_weight ws wa node_results) l))
    (flat_map
       (fun item =>
          load_badge vs cf item.2 ++ reaction_badge node_results vs cf item)
       l)%list
    (nl_fig st) (nl_fig st') /\
  sr_elements (nl_sim st') = sr_elements (nl_sim st) /\
  node_plot_x st' = (node_plot_x st ++ map (fun i => Some (nd_x i.2)) l)%list /\
  node_plot_y st' = (node_plot_y st ++ map (fun i => Some (nd_y i.2)) l)%list /\
  node_hover_text st' =
    (node_hover_text st ++ map (fun i => [Lit "Joint "; IntStr i.1]) l)%list.
Proof.
  induction l as [|x l IH]; intros st;
    cbn [fold_left map list_sum flat_map].
  - rewrite !app_nil_r. split; [apply grows_refl|now repeat split].
  - destruct (node_body_grows node_results vs cf st x)
      as (Hg & Hel & Hx & Hy & Hh).
    destruct (IH (node_body node_results vs cf st x))
      as (Hg' & Hel' & Hx' & Hy' & Hh').
    split; [eapply grows_trans; [exact Hg|exact Hg']|].
    rewrite Hel', Hx', Hy', Hh', Hel, Hx, Hy, Hh, <- !app_assoc.
    now repeat split.
Qed.

Lemma label_body_grows all_nodes cf sim fig e :
  grows w 0 (member_badge all_nodes cf sim e) fig
    (label_body all_nodes cf sim fig e).
Proof.
  unfold member_badge, label_body.
  destruct (od_get (el_start e) all_nodes); [|apply grows_refl].
  destruct (od_get (el_end e) all_nodes); [|apply grows_refl].
  apply add_annotation_grows.
Qed.

Lemma member_badge_elements all_nodes cf sim sim' e :
  sr_elements sim' = sr_elements sim ->
  member_badge all_nodes cf sim' e = member_badge all_nodes cf sim e.
Proof.
  intros H. unfold member_badge, label_body, beam_label, label_bg_color.
  now rewrite H.
Qed.

(** The whole figure: what the four loops and the two single traces add to
    the empty figure, in the order of the code. *)
Lemma draw_layers_exact all_nodes node_results vs cf mult all_elements sim0 :
  exists members forces,
    draw_layers all_nodes node_results vs cf mult all_elements sim0 =
    update_layout
      (fig_app new_figure
         (members
          ++ map (fun nc => legend_entry nc.1 nc.2) force_legend
          ++ forces
          ++ [joints_trace vs mult
                (map (fun i => Some (nd_x i.2)) all_nodes)
                (map (fun i => Some (nd_y i.2)) all_nodes)
                (map (fun i => [Lit "Joint "; IntStr i.1]) all_nodes)])%list
         (flat_map
            (fun item =>
               load_badge vs cf item.2 ++
               reaction_badge node_results vs cf item) all_nodes
          ++ map (joint_label cf) all_nodes
          ++ flat_map (member_badge all_nodes cf sim0) all_elements)%list)
      the_layout /\
    list_sum (map w members) =
      list_sum (map (member_weight wb wa all_nodes sim0) all_elements) /\
    list_sum (map w forces) =
      list_sum (map (joint_weight ws wa node_results) all_nodes).
Proof.
  destruct (draw_layers_phases all_nodes node_results vs cf mult all_elements
              sim0) as (fig1 & sim1 & st & E1 & Est & ->).
  destruct (beam_fold_grows all_nodes vs cf all_elements new_figure sim0)
    as [(members & Hm & Hlm) Hel1].
  rewrite E1 in Hm, Hel1. cbn [fst snd] in Hm, Hel1.
  destruct (node_fold_grows node_results vs cf all_nodes
              {| nl_fig := add_legend_entries fig1; nl_sim := sim1;
                 node_plot_x := []; node_plot_y := [];
                 node_hover_text := [] |})
    as ((forces & Hf & Hlf) & Hel2 & Hx & Hy & Hh).
  rewrite <- Est in Hf, Hel2, Hx, Hy, Hh.
  cbn [nl_fig nl_sim node_plot_x node_plot_y node_hover_text app]
    in Hf, Hel2, Hx, Hy, Hh.
  exists members, forces. split; [|split; [exact Hlm|exact Hlf]].
  f_equal.
  rewrite (fold_fig_app (label_body all_nodes cf (nl_sim st))
             (fun _ => []) (member_badge all_nodes cf (nl_sim st))
             all_elements).
  2:{ intros fig e. unfold member_badge, label_body.
      destruct (od_get (el_start e) all_nodes);
        [|now rewrite fig_app_nil].
      destruct (od_get (el_end e) all_nodes); [|now rewrite fig_app_nil].
      now rewrite add_annotation_app. }
  rewrite (fold_fig_app
             (fun fig item => add_annotation fig (joint_label cf item))
             (fun _ => []) (fun item => [joint_label cf item]) all_nodes
             (fun fig x => add_annotation_app fig (joint_label cf x))).
  rewrite add_trace_app, Hf, add_legend_entries_app, Hm, Hx, Hy, Hh.
  rewrite !fig_app_app. cbn [app].
  assert (Hnil : forall A (l : list A),
            flat_map (fun _ : A => @nil trace) l = []).
  { intros A l. induction l; simpl; auto. }
  assert (Hmap : forall l : list (Z * node),
            flat_map (fun item => [joint_label cf item]) l
            = map (joint_label cf) l).
  { intros l. induction l as [|x l IH]; [reflexivity|].
    simpl. now rewrite IH. }
  rewrite !Hnil, Hmap, !app_nil_r.
  rewrite (flat_map_ext (member_badge all_nodes cf (nl_sim st))
             (member_badge all_nodes cf sim0)); [reflexivity|].
  intros e. apply member_badge_elements. now rewrite Hel2, Hel1.
Qed.

(** The total weight of a figure. *)
Lemma draw_layers_weight all_nodes node_results vs cf mult all_elements sim0 :
  list_sum
    (map w
       (fig_data
          (draw_layers all_nodes node_results vs cf mult all_elements sim0)))
  = (list_sum (map (member_weight wb wa all_nodes sim0) all_elements)
     + 4 * we
     + list_sum (map (joint_weight ws wa node_results) all_nodes)
     + wj)%nat.
Proof.
  destruct (draw_layers_exact all_nodes node_results vs cf mult all_elements
              sim0) as (members & forces & -> & Hm & Hf).
  cbn [update_layout fig_data fig_app new_figure app].
  rewrite !map_app, !list_sum_app, Hm, Hf.
  cbn [force_legend map fst snd]. rewrite !w_entry, w_joints.
  change (list_sum [we; we; we; we]) with (we + (we + (we + (we + 0))))%nat.
  change (list_sum [wj]) with (wj + 0)%nat. lia.
Qed.

End Weights.

(** ** The heads of the arrows of one colour *)

Lemma is_head_of_arrow_head c xs ys col wd g :
  is_head_of c (arrow_head xs ys col wd g) = bool_decide (col = c).
Proof.
  unfold is_head_of. cbn [arrow_head tr_fill tr_fillcolor].
  apply bool_decide_ext. split; [now intros [_ [= ->]]|now intros ->].
Qed.

Lemma arrow_traces_heads c vs cf sx sy ex ey color group :
  c <> dark_c -> c <> "white" ->
  list_sum (map (head_of c) (arrow_traces vs cf sx sy ex ey color group)) =
  if bool_decide (color = c) then 1%nat else 0%nat.
Proof.
  intros Hd Hw. unfold arrow_traces, head_of. cbn [map list_sum fold_right].
  rewrite !is_head_of_arrow_head.
  rewrite (bool_decide_eq_false_2 (dark_c = c)) by congruence.
  rewrite (bool_decide_eq_false_2 ("white" = c)) by congruence.
  unfold is_head_of. cbn [arrow_line tr_fill].
  rewrite !bool_decide_eq_false_2 by (now intros [? _]).
  now destruct (bool_decide (color = c)).
Qed.

(** The number of heads of colour [c] in a figure, from the members and the
    joints of the model. *)
Lemma draw_layers_heads c all_nodes node_results vs cf mult all_elements
  sim0 :
  c <> dark_c -> c <> "white" ->
  let wa col := if bool_decide (col = c) then 1%nat else 0%nat in
  length
    (List.filter (is_head_of c)
       (fig_data
          (draw_layers all_nodes node_results vs cf mult all_elements sim0)))
  = (list_sum (map (member_weight 0 wa all_nodes sim0) all_elements)
     + list_sum (map (joint_weight 0 wa node_results) all_nodes))%nat.
Proof.
  intros Hd Hw wa.
  rewrite <- list_sum_indicator.
  change (fun x => if is_head_of c x then 1%nat else 0%nat) with (head_of c).
  rewrite (draw_layers_weight (head_of c) 0 0 0 0 wa); [lia| | | | |].
  - intros. reflexivity.
  - intros. reflexivity.
  - intros. reflexivity.
  - intros. reflexivity.
  - intros. now apply arrow_traces_heads.
Qed.

Lemma internal_arrow_style_color f :
  (internal_arrow_style f).1 = "#fb923c" \/
  (internal_arrow_style f).1 = "#22d3ee".
Proof.
  unfold internal_arrow_style. destruct (bool_decide (f <= 0)); auto.
Qed.

(** One purple head for each joint that has a reaction. *)
Lemma reaction_heads_count all_nodes node_results vs cf mult all_elements
  sim0 :
  length
    (List.filter (is_head_of "#8b5cf6")
       (fig_data
          (draw_layers all_nodes node_results vs cf mult all_elements sim0)))
  = length (List.filter (has_reaction node_results) all_nodes).
Proof.
  rewrite draw_layers_heads by discriminate. cbv zeta.
  rewrite list_sum_map_zero.
  - rewrite (list_sum_map_scaled 1 _ (has_reaction node_results)); [lia|].
    intros item. unfold joint_weight.
    destruct (is_support item.2), (is_loaded item.2),
      (has_reaction node_results item); reflexivity.
  - intros e. unfold member_weight.
    destruct (resolvable all_nodes e); [|reflexivity].
    destruct (sr_elements sim0 !! el_id e) as [res|]; [|reflexivity].
    destruct (bool_decide (Rabs (er_force res) > 0.1)); [|reflexivity].
    destruct (internal_arrow_style_color (er_force res)) as [-> | ->];
      reflexivity.
Qed.


(** ** Segments along a unit vector *)

(** The segment from [t] to [t + d * u], for a unit vector [u] and
    [d > 0], has the length [d] and the direction [u]. *)
Lemma segment_along d ux uy tx ty hx hy :
  0 < d -> ux ^ 2 + uy ^ 2 = 1 ->
  hx - tx = d * ux -> hy - ty = d * uy ->
  let len := sqrt ((hx - tx) ^ 2 + (hy - ty) ^ 2) in
  len = d /\ (hx - tx) / len = ux /\ (hy - ty) / len = uy.
Proof.
  intros Hd Hu Hx Hy len.
  assert (Hlen : len = d).
  { unfold len. rewrite Hx, Hy.
    replace ((d * ux) ^ 2 + (d * uy) ^ 2) with (d ^ 2 * (ux ^ 2 + uy ^ 2))
      by ring.
    rewrite Hu, Rmult_1_r. apply sqrt_pow2. lra. }
  rewrite Hlen, Hx, Hy. repeat split; field; lra.
Qed.

(** Where the badge of an arrow sits: [text_offset * visual_scale] beyond
    the head for a name with "Force" and without "Reaction", behind the tail
    otherwise. *)
Lemma arrow_label_anchor vs cf sx sy ex ey color name txt off :
  let len := sqrt ((ex - sx) ^ 2 + (ey - sy) ^ 2) in
  0 < len ->
  let ux := (ex - sx) / len in
  let uy := (ey - sy) / len in
  let lbl := arrow_label vs cf sx sy ex ey color name txt off in
  (an_x lbl, an_y lbl) =
  if Py.contains "Force" name && negb (Py.contains "Reaction" name)
  then (ex + ux * (off * vs), ey + uy * (off * vs))
  else (sx - ux * (off * vs), sy - uy * (off * vs)).
Proof.
  intros len Hlen ux uy lbl.
  destruct (arctan2_cos_sin (ex - sx) (ey - sy) Hlen) as [Hc Hs].
  fold len in Hc, Hs. fold ux in Hc. fold uy in Hs.
  unfold lbl, arrow_label. rewrite Hc, Hs. cbn [fst snd].
  now destruct (Py.contains "Force" name), (Py.contains "Reaction" name).
Qed.

(** ** One reaction arrow per joint *)

Lemma adds_reaction_labels_refl fig : adds_reaction_labels 0 fig fig.
Proof. exists [], []. now rewrite fig_app_nil. Qed.

Lemma adds_reaction_labels_trans j k f1 f2 f3 :
  adds_reaction_labels j f1 f2 -> adds_reaction_labels k f2 f3 ->
  adds_reaction_labels (j + k) f1 f3.
Proof.
  intros (t1 & a1 & -> & H1) (t2 & a2 & -> & H2).
  exists (t1 ++ t2)%list, (a1 ++ a2)%list. rewrite fig_app_app.
  split; [reflexivity|].
  now rewrite List.filter_app, length_app, H1, H2.
Qed.

Lemma adds_reaction_labels_count k fig fig' :
  adds_reaction_labels k fig fig' ->
  length (List.filter is_reaction_label (fig_annotations fig')) =
  (length (List.filter is_reaction_label (fig_annotations fig)) + k)%nat.
Proof.
  intros (ts & ans & -> & <-). simpl.
  now rewrite List.filter_app, length_app.
Qed.

Lemma add_trace_no_label fig t : adds_reaction_labels 0 fig (add_trace fig t).
Proof. exists [t], []. now rewrite add_trace_app. Qed.

Lemma add_annotation_no_label fig a :
  is_reaction_label a = false ->
  adds_reaction_labels 0 fig (add_annotation fig a).
Proof.
  intros H. exists [], [a]. rewrite add_annotation_app.
  split; [reflexivity|]. simpl. now rewrite H.
Qed.

Lemma fold_no_label {A} (f : figure -> A -> figure) (l : list A) :
  (forall fig x, adds_reaction_labels 0 fig (f fig x)) ->
  forall fig, adds_reaction_labels 0 fig (fold_left f l fig).
Proof.
  intros Hf. induction l as [|x l IH]; intros fig; simpl.
  - apply adds_reaction_labels_refl.
  - apply (adds_reaction_labels_trans 0 0 _ _ _ (Hf fig x) (IH _)).
Qed.

Section ReactionCount.

Variable all_nodes : odict node.
Variable node_results : gmap Z node_result.
Variable visual_scale : R.
Variable complexity_factor : R.
Variable visualization_scale_multiplier : R.

Lemma arrow_label_style sx sy ex ey color name txt off :
  an_bgcolor
    (arrow_label visual_scale complexity_factor sx sy ex ey color name txt off)
  = color /\
  an_text
    (arrow_label visual_scale complexity_factor sx sy ex ey color name txt off)
  = txt.
Proof.
  unfold arrow_label.
  destruct (Py.contains "Force" name), (Py.contains "Reaction" name);
    split; reflexivity.
Qed.

Lemma add_trace_arrow_labels fig sx sy ex ey color name group txt off :
  adds_reaction_labels
    (match txt with
     | Some t => if truthy t && bool_decide (color = "#8b5cf6") then 1 else 0
     | None => 0
     end)
    fig
    (add_trace_arrow visual_scale complexity_factor fig sx sy ex ey color
       name group txt off).
Proof.
  rewrite add_trace_arrow_app. eexists _, _. split; [reflexivity|].
  destruct txt as [t|]; [|reflexivity].
  destruct (truthy t); [|reflexivity]. cbn [andb List.filter].
  unfold is_reaction_label.
  rewrite (proj1 (arrow_label_style sx sy ex ey color name t off)).
  now destruct (bool_decide (color = "#8b5cf6")).
Qed.

Lemma draw_internal_forces_no_label fig sim e sx sy ex ey :
  adds_reaction_labels 0 fig
    (draw_internal_forces visual_scale complexity_factor fig sim e
       sx sy ex ey).
Proof.
  unfold draw_internal_forces.
  destruct (sr_elements sim !! el_id e) as [res|];
    [|apply adds_reaction_labels_refl].
  case_decide; [|apply adds_reaction_labels_refl].
  destruct (internal_arrow_style (er_force res)) as [color group].
  apply fold_no_label.
  intros f [[tx ty] [hx hy]].
  apply (add_trace_arrow_labels f tx ty hx hy color "Internal Force" group
           None 0.45).
Qed.

Lemma beam_body_no_label st e :
  adds_reaction_labels 0 (fst st)
    (fst (beam_body all_nodes visual_scale complexity_factor st e)).
Proof.
  destruct st as [fig sim]. unfold beam_body.
  destruct (od_get (el_start e) all_nodes);
    [|apply adds_reaction_labels_refl].
  destruct (od_get (el_end e) all_nodes);
    [|apply adds_reaction_labels_refl].
  destruct (beam_style sim e) as [[c w] h].
  destruct (register_beam_legend sim (beam_legend_group sim e))
    as [show sim'].
  cbn [fst].
  eapply (adds_reaction_labels_trans 0 0); cycle 1.
  - apply draw_internal_forces_no_label.
  - apply add_trace_no_label.
Qed.

Lemma beam_fold_no_label es : forall st,
  adds_reaction_labels 0 (fst st)
    (fst (fold_left (beam_body all_nodes visual_scale complexity_factor)
            es st)).
Proof.
  induction es as [|x es IH]; intros st; simpl.
  - apply adds_reaction_labels_refl.
  - apply (adds_reaction_labels_trans 0 0 _ _ _ (beam_body_no_label st x)
             (IH _)).
Qed.

Lemma draw_support_no_label fig sim n :
  adds_reaction_labels 0 fig (fst (draw_support visual_scale (fig, sim) n)).
Proof.
  destruct (draw_support_cases visual_scale fig sim n)
    as [[_ ->]|(_ & sym & col & ->)]; simpl.
  - apply adds_reaction_labels_refl.
  - apply add_trace_no_label.
Qed.

Lemma draw_load_no_label fig n :
  adds_reaction_labels 0 fig
    (draw_load visual_scale complexity_factor fig n).
Proof.
  unfold draw_load. case_decide; [|apply adds_reaction_labels_refl].
  apply (add_trace_arrow_labels fig _ _ _ _ "#f43f5e" "Load Force"
           "Load Force" (Some [Fixed 1 _; Lit " kN"]) 0.45).
Qed.

Lemma draw_reaction_labels fig id n :
  adds_reaction_labels
    (if has_reaction node_results (id, n) then 1 else 0) fig
    (draw_reaction node_results visual_scale complexity_factor fig id n).
Proof.
  unfold draw_reaction, has_reaction. cbn [fst].
  destruct (node_results !! id) as [res|];
    [|apply adds_reaction_labels_refl].
  case_decide.
  - rewrite bool_decide_eq_true_2 by assumption.
    apply (add_trace_arrow_labels fig _ _ _ _ "#8b5cf6" "Reaction Force"
             "Reaction Force" (Some [Lit "R: "; Fixed 1 _]) 0.45).
  - rewrite bool_decide_eq_false_2 by assumption.
    apply adds_reaction_labels_refl.
Qed.

Lemma node_body_labels st item :
  adds_reaction_labels
    (if has_reaction node_results item then 1 else 0) (nl_fig st)
    (nl_fig (node_body node_results visual_scale complexity_factor st item)).
Proof.
  destruct item as [id n]. unfold node_body.
  pose proof (draw_support_no_label (nl_fig st) (nl_sim st) n) as Hs.
  destruct (draw_support visual_scale (nl_fig st, nl_sim st) n)
    as [fig sim]. cbn [fst nl_fig] in *.
  eapply (adds_reaction_labels_trans 0); [exact Hs|].
  eapply (adds_reaction_labels_trans 0); [apply draw_load_no_label|].
  apply draw_reaction_labels.
Qed.

Lemma node_fold_labels l : forall st,
  adds_reaction_labels
    (length (List.filter (has_reaction node_results) l)) (nl_fig st)
    (nl_fig (fold_left
               (node_body node_results visual_scale complexity_factor) l st)).
Proof.
  induction l as [|x l IH]; intros st; simpl.
  - apply adds_reaction_labels_refl.
  - pose proof (adds_reaction_labels_trans _ _ _ _ _
                  (node_body_labels st x) (IH _)) as H.
    destruct (has_reaction node_results x); exact H.
Qed.

Lemma label_body_no_label sim fig e :
  adds_reaction_labels 0 fig (label_body all_nodes complexity_factor sim fig e).
Proof.
  unfold label_body.
  destruct (od_get (el_start e) all_nodes) as [a|];
    [|apply adds_reaction_labels_refl].
  destruct (od_get (el_end e) all_nodes) as [b|];
    [|apply adds_reaction_labels_refl].
  apply add_annotation_no_label.
  unfold is_reaction_label, beam_label, label_bg_color. cbn [an_bgcolor].
  destruct (sr_elements sim !! el_id e) as [res|]; [|reflexivity].
  destruct (decide (er_safety res < 1)); [reflexivity|].
  destruct (decide (er_safety res < 2)); reflexivity.
Qed.

Lemma joint_label_no_label fig item :
  adds_reaction_labels 0 fig
    (add_annotation fig (joint_label complexity_factor item)).
Proof.
  apply add_annotation_no_label. destruct item as [id n]. reflexivity.
Qed.

(** The figure has one reaction badge for each joint that has a reaction. *)
Lemma draw_layers_reaction_labels all_elements sim0 :
  length
    (List.filter is_reaction_label
       (fig_annotations
          (draw_layers all_nodes node_results visual_scale complexity_factor
             visualization_scale_multiplier all_elements sim0))) =
  length (List.filter (has_reaction node_results) all_nodes).
Proof.
  destruct (draw_layers_phases all_nodes node_results visual_scale
              complexity_factor visualization_scale_multiplier all_elements
              sim0) as (fig1 & sim1 & st & E1 & Est & ->).
  cbn [update_layout fig_annotations].
  pose proof (beam_fold_no_label all_elements (new_figure, sim0)) as H1.
  rewrite E1 in H1. cbn [fst] in H1.
  pose proof (node_fold_labels all_nodes
                {| nl_fig := add_legend_entries fig1; nl_sim := sim1;
                   node_plot_x := []; node_plot_y := [];
                   node_hover_text := [] |}) as H2.
  rewrite <- Est in H2. cbn [nl_fig] in H2.
  assert (H12 : adds_reaction_labels 0 fig1 (add_legend_entries fig1)).
  { rewrite add_legend_entries_app. now eexists _, _. }
  assert (H3 : adds_reaction_labels 0 (nl_fig st)
                 (add_trace (nl_fig st)
                    (joints_trace visual_scale visualization_scale_multiplier
                       (node_plot_x st) (node_plot_y st)
                       (node_hover_text st))))
    by apply add_trace_no_label.
  pose proof (fold_no_label
                (fun fig item =>
                   add_annotation fig (joint_label complexity_factor item))
                all_nodes joint_label_no_label) as H4.
  pose proof (fold_no_label
                (label_body all_nodes complexity_factor (nl_sim st))
                all_elements (label_body_no_label (nl_sim st))) as H5.
  rewrite (adds_reaction_labels_count _ _ _ (H5 _)).
  rewrite (adds_reaction_labels_count _ _ _ (H4 _)).
  rewrite (adds_reaction_labels_count _ _ _ H3).
  rewrite (adds_reaction_labels_count _ _ _ H2).
  rewrite (adds_reaction_labels_count _ _ _ H12).
  rewrite (adds_reaction_labels_count _ _ _ H1).
  simpl. lia.
Qed.

End ReactionCount.

Lemma node_fold_has_reaction node_results vs cf l :
  forall st id n res,
    In (id, n) l ->
    node_results !! id = Some res ->
    let rx := default 0 (nr_rx res) / 1000.0 in
    let ry := default 0 (nr_ry res) / 1000.0 in
    let magnitude := sqrt (rx ^ 2 + ry ^ 2) in
    magnitude > 0.001 ->
    let ends := reaction_ends vs (nd_x n) (nd_y n) rx ry in
    let fig := nl_fig (fold_left (node_body node_results vs cf) l st) in
    (forall t,
       In t (arrow_traces vs cf ends.1.1 ends.1.2 ends.2.1 ends.2.2
               "#8b5cf6" "Reaction Force") ->
       In t (fig_data fig)) /\
    In (arrow_label vs cf ends.1.1 ends.1.2 ends.2.1 ends.2.2
          "#8b5cf6" "Reaction Force" [Lit "R: "; Fixed 1 magnitude] 0.45)
       (fig_annotations fig).
Proof.
  induction l as [|x l IH]; intros st id n res Hin Hres rx ry magnitude Hmag
    ends fig; [destruct Hin|].
  subst fig. simpl fold_left. destruct Hin as [->|Hin].
  - pose proof (node_fold_extends node_results vs cf l
                  (node_body node_results vs cf st (id, n))) as Hext.
    assert (Hstep : exists fig0,
              nl_fig (node_body node_results vs cf st (id, n)) =
              draw_reaction node_results vs cf fig0 id n).
    { unfold node_body.
      destruct (draw_support vs (nl_fig st, nl_sim st) n) as [f s].
      simpl. eauto. }
    destruct Hstep as [fig0 Hstep].
    destruct (draw_reaction_arrow node_results vs cf fig0 id n res Hres Hmag)
      as (_ & Hends & Hdraw).
    fold rx ry magnitude in Hends, Hdraw. fold ends in Hends.
    rewrite Hstep, Hdraw in Hext. rewrite Hends. cbn [fst snd].
    split.
    + intros t Ht. eapply extends_data; [exact Hext|].
      simpl. apply in_or_app. now right.
    + eapply extends_annotations; [exact Hext|].
      simpl. apply in_or_app. right. now left.
  - apply (IH (node_body node_results vs cf st x) id n res Hin Hres Hmag).
Qed.

(** C7, amended: in a successful render, for every joint whose result has a
    magnitude [sqrt(rx^2 + ry^2) / 1000 > 0.001], with [u] the unit vector
    of the reaction, the figure shows a purple arrow whose head is at the
    joint minus [0.25 * VisualScale * u] and whose tail is
    [1.6 * VisualScale] further back: a stroke along that segment and a
    filled triangle with its apex at the head and its base behind it.  The
    arrow lies on the side opposite the reaction and points along the
    reaction, toward the joint.  Its badge reads "R: " and the magnitude and
    sits [0.45 * VisualScale] behind the tail.  The figure has as many
    purple heads, and as many such badges, as there are joints with such a
    result: one arrow each. *)
Theorem reaction_arrow_toward_joint b r ds mult fig h node_id node res :
  draw_bridge (Some b) r ds mult = Rendered fig h ->
  In (node_id, node) (all_nodes_of (br_nodes b)) ->
  node_results_of r !! node_id = Some res ->
  let rx := default 0 (nr_rx res) / 1000.0 in
  let ry := default 0 (nr_ry res) / 1000.0 in
  let magnitude := sqrt (rx ^ 2 + ry ^ 2) in
  magnitude > 0.001 ->
  let cf := complexity_factor_of (br_elements b) in
  let ux := rx / magnitude in
  let uy := ry / magnitude in
  exists vs,
    visual_scale_in b = Some vs /\ 0 < vs /\
    let head :=
      (nd_x node - ux * (0.25 * vs), nd_y node - uy * (0.25 * vs)) in
    let tail := (fst head - 1.6 * vs * ux, snd head - 1.6 * vs * uy) in
    let len := sqrt ((head.1 - tail.1) ^ 2 + (head.2 - tail.2) ^ 2) in
    ux ^ 2 + uy ^ 2 = 1 /\
    (len = 1.6 * vs /\
     (head.1 - tail.1) / len = ux /\ (head.2 - tail.2) / len = uy) /\
    arrow_drawn fig vs tail head "#8b5cf6" /\
    cos (PI * 1.11) <= -0.9 /\
    (exists lbl,
       In lbl (fig_annotations fig) /\
       lbl = arrow_label vs cf (fst tail) (snd tail) (fst head) (snd head)
               "#8b5cf6" "Reaction Force" [Lit "R: "; Fixed 1 magnitude]
               0.45 /\
       an_text lbl = [Lit "R: "; Fixed 1 magnitude] /\
       an_bgcolor lbl = "#8b5cf6" /\
       an_x lbl = tail.1 - ux * (0.45 * vs) /\
       an_y lbl = tail.2 - uy * (0.45 * vs)) /\
    length (List.filter is_reaction_label (fig_annotations fig)) =
    length (List.filter (has_reaction (node_results_of r))
              (all_nodes_of (br_nodes b))) /\
    length (List.filter (is_head_of "#8b5cf6") (fig_data fig)) =
    length (List.filter (has_reaction (node_results_of r))
              (all_nodes_of (br_nodes b))).
Proof.
  intros Hd Hin Hres rx ry magnitude Hmag cf ux uy.
  apply draw_bridge_rendered in Hd as (_ & vs & Hvs & ->).
  pose proof (visual_scale_in_pos _ _ Hvs) as Hpos.
  exists vs. split; [exact Hvs|]. split; [exact Hpos|].
  intros head tail len.
  destruct (draw_reaction_arrow (node_results_of r) vs cf new_figure node_id
              node res Hres Hmag) as (Hunit & Hends & _).
  fold rx ry magnitude ux uy head tail in Hunit, Hends.
  split; [exact Hunit|].
  assert (Hseg : len = 1.6 * vs /\
                 (head.1 - tail.1) / len = ux /\
                 (head.2 - tail.2) / len = uy).
  { apply (segment_along (1.6 * vs) ux uy); [lra|exact Hunit| |];
      unfold tail, head; cbn [fst snd]; ring. }
  split; [exact Hseg|].
  assert (Hlen : 0 < len) by (destruct Hseg as [-> _]; lra).
  destruct (draw_layers_phases (all_nodes_of (br_nodes b)) (node_results_of r)
              vs cf mult (br_elements b) (simulation_results_of r))
    as (fig1 & sim1 & st & E1 & Est & Hfig).
  pose proof (node_fold_has_reaction (node_results_of r) vs cf
                (all_nodes_of (br_nodes b))
                {| nl_fig := add_legend_entries fig1; nl_sim := sim1;
                   node_plot_x := []; node_plot_y := [];
                   node_hover_text := [] |}
                node_id node res Hin Hres Hmag) as Hhas.
  cbv zeta in Hhas. fold rx ry magnitude in Hhas.
  rewrite Hends, <- Est in Hhas. cbn [fst snd] in Hhas.
  destruct Hhas as [Htr Hlbl].
  pose proof (node_shape_inv_fold (node_results_of r) vs cf sim1
                (add_legend_entries fig1) (all_nodes_of (br_nodes b)))
    as Hshape.
  rewrite <- Est in Hshape. destruct Hshape as (_ & _ & Hx).
  pose proof (extends_hidden_extends _ _
                (draw_layers_tail (all_nodes_of (br_nodes b)) vs cf mult
                   (br_elements b) st Hx)) as Htail.
  split; [|split; [apply cos_head_angle|split; [|split]]].
  - apply (arrow_traces_drawn _ vs cf tail head "#8b5cf6" "Reaction Force");
      [exact Hlen|].
    intros t Ht. fold cf. rewrite Hfig. cbn [update_layout fig_data].
    eapply extends_data; [exact Htail|]. now apply Htr.
  - eexists. split; [|split; [reflexivity|]].
    + fold cf. rewrite Hfig. cbn [update_layout fig_annotations].
      eapply extends_annotations; [exact Htail|]. exact Hlbl.
    + split; [apply arrow_label_style|]. split; [apply arrow_label_style|].
      pose proof (arrow_label_anchor vs cf tail.1 tail.2 head.1 head.2
                    "#8b5cf6" "Reaction Force" [Lit "R: "; Fixed 1 magnitude]
                    0.45 Hlen) as Hanchor.
      cbv zeta in Hanchor. fold len in Hanchor.
      destruct Hseg as (_ & Hux & Huy). rewrite Hux, Huy in Hanchor.
      change (Py.contains "Force" "Reaction Force"
              && negb (Py.contains "Reaction" "Reaction Force"))
        with false in Hanchor.
      injection Hanchor as Hax Hay. split; assumption.
  - apply draw_layers_reaction_labels.
  - apply reaction_heads_count.
Qed.

(** [reaction_arrow_toward_joint] on joint 1 of the default truss. *)
Lemma reaction_arrow_toward_joint_witness :
  let node := mk_node 1 0 0 (Some "Pinned Support") in
  let res := {| nr_id := 1; nr_rx := Some 0; nr_ry := Some 25000 |} in
  exists fig h,
    draw_bridge (Some default_truss) (Some default_results) 0 0.6 =
      Rendered fig h /\
    In (1%Z, node) (all_nodes_of (br_nodes default_truss)) /\
    node_results_of (Some default_results) !! 1%Z = Some res /\
    sqrt ((0 / 1000.0) ^ 2 + (25000 / 1000.0) ^ 2) > 0.001 /\
    exists vs,
      visual_scale_in default_truss = Some vs /\ 0 < vs /\
      (exists lbl,
         In lbl (fig_annotations fig) /\
         an_text lbl =
           [Lit "R: ";
            Fixed 1 (sqrt ((0 / 1000.0) ^ 2 + (25000 / 1000.0) ^ 2))] /\
         an_bgcolor lbl = "#8b5cf6") /\
      length (List.filter is_reaction_label (fig_annotations fig)) =
      length
        (List.filter (has_reaction (node_results_of (Some default_results)))
           (all_nodes_of (br_nodes default_truss))) /\
      length (List.filter (is_head_of "#8b5cf6") (fig_data fig)) =
      length
        (List.filter (has_reaction (node_results_of (Some default_results)))
           (all_nodes_of (br_nodes default_truss))).
Proof.
  intros node res.
  destruct (default_truss_renders (Some default_results) 0 0.6)
    as (vs0 & _ & _ & Hd).
  assert (Hin : In (1%Z, node) (all_nodes_of (br_nodes default_truss)))
    by (left; reflexivity).
  assert (Hres : node_results_of (Some default_results) !! 1%Z = Some res)
    by reflexivity.
  assert (Hmag : sqrt ((0 / 1000.0) ^ 2 + (25000 / 1000.0) ^ 2) > 0.001).
  { replace (sqrt ((0 / 1000.0) ^ 2 + (25000 / 1000.0) ^ 2)) with 25;
      [lra|]. symmetry; apply sqrt_lem_1; lra. }
  eexists _, _. split; [exact Hd|].
  split; [exact Hin|]. split; [exact Hres|]. split; [exact Hmag|].
  destruct (reaction_arrow_toward_joint default_truss (Some default_results)
              0 0.6 _ _ 1 node res Hd Hin Hres Hmag)
    as (vs & Hvs & Hpos & _ & _ & _ & _ &
        (lbl & Hl & _ & Htxt & Hbg & _) & Hcount & Hheads).
  exists vs. split; [exact Hvs|]. split; [exact Hpos|].
  split; [|split; [exact Hcount|exact Hheads]].
  exists lbl. auto.
Defined.

(** ** Internal-force arrows in the figure *)






(** ** Without a result file *)

(** Without a result file every member with both joints is drawn as a
    draft. *)
Lemma missing_results_draft b ds mult fig h e :
  draw_bridge (Some b) None ds mult = Rendered fig h ->
  In e (br_elements b) ->
  resolvable (all_nodes_of (br_nodes b)) e = true ->
  exists t,
    In t (fig_data fig) /\
    tr_name t = Some "Beam (Draft)" /\
    tr_line t = Some {| line_color := "#3b82f6"; line_width := 4 |} /\
    tr_text t = Some [Lit "Beam #"; IntStr (el_id e)].
Proof.
  intros Hd Hin Hres.
  apply draw_bridge_rendered in Hd as (_ & vs & _ & ->).
  apply resolvable_true in Hres as (a & b' & Ea & Eb).
  destruct (draw_layers_member _ (node_results_of None) vs
              (complexity_factor_of (br_elements b)) mult _
              (simulation_results_of None) e a b' Hin Ea Eb)
    as [[show Ht] _].
  eexists. split; [exact Ht|].
  unfold beam_style, beam_legend_group. cbn [simulation_results_of sr_elements].
  rewrite lookup_empty. repeat split.
Qed.

(** * Further properties of the renderer *)

(** ** The dictionary of joints (line 66) *)

Lemma od_get_od_set {V} k k' (v : V) d :
  od_get k (od_set k' v d) = if decide (k = k') then Some v else od_get k d.
Proof.
  induction d as [|[k0 v0] d IH]; simpl.
  - now destruct (decide (k = k')).
  - destruct (decide (k' = k0)) as [->|Hne]; simpl.
    + destruct (decide (k = k0)); reflexivity.
    + rewrite IH. destruct (decide (k = k0)) as [->|]; [|reflexivity].
      destruct (decide (k0 = k')); [congruence|reflexivity].
Qed.

Lemma od_get_keys {V} k (d : odict V) :
  In k (map fst d) <-> is_Some (od_get k d).
Proof.
  induction d as [|[k0 v0] d IH]; simpl.
  - split; [intros []|intros [x Hx]; discriminate].
  - destruct (decide (k = k0)) as [->|Hne].
    + split; [eauto|now left].
    + rewrite <- IH. split; [intros [H|H]; [congruence|exact H]|now right].
Qed.

Lemma od_set_keys {V} k (v : V) d :
  map fst (od_set k v d) =
  if in_dec Z.eq_dec k (map fst d) then map fst d
  else (map fst d ++ [k])%list.
Proof.
  induction d as [|[k0 v0] d IH]; simpl.
  - reflexivity.
  - destruct (decide (k = k0)) as [->|Hne]; simpl.
    + destruct (Z.eq_dec k0 k0); [reflexivity|congruence].
    + rewrite IH. destruct (Z.eq_dec k0 k); [congruence|].
      now destruct (in_dec Z.eq_dec k (map fst d)).
Qed.

Lemma all_nodes_of_snoc nodes n :
  all_nodes_of (nodes ++ [n]) = od_set (nd_id n) n (all_nodes_of nodes).
Proof. unfold all_nodes_of. now rewrite fold_left_app. Qed.

Lemma all_nodes_of_keys nodes :
  map fst (all_nodes_of nodes) = rev (nodup Z.eq_dec (rev (map nd_id nodes))).
Proof.
  induction nodes as [|n nodes IH] using rev_ind; [reflexivity|].
  rewrite all_nodes_of_snoc, od_set_keys, map_app, rev_app_distr. simpl.
  rewrite IH.
  destruct (in_dec Z.eq_dec (nd_id n)
              (rev (nodup Z.eq_dec (rev (map nd_id nodes))))) as [H|H];
    destruct (in_dec Z.eq_dec (nd_id n) (rev (map nd_id nodes))) as [H'|H'];
    try reflexivity.
  - elim H'. apply in_rev in H. now apply nodup_In in H.
  - elim H. apply in_rev. rewrite rev_involutive. now apply nodup_In.
Qed.

Lemma all_nodes_of_get nodes k :
  od_get k (all_nodes_of nodes) =
  List.find (fun n => bool_decide (nd_id n = k)) (rev nodes).
Proof.
  induction nodes as [|n nodes IH] using rev_ind; [reflexivity|].
  rewrite all_nodes_of_snoc, od_get_od_set, rev_app_distr. simpl.
  destruct (decide (k = nd_id n)) as [->|Hne].
  - now rewrite bool_decide_eq_true_2.
  - rewrite bool_decide_eq_false_2 by congruence. apply IH.
Qed.

(** X1: the dictionary of joints has each id once; the ids stand in the
    order of their first occurrence in the file; the entry of an id is the
    last joint of the file with that id, and an id has an entry exactly when
    a joint of the file has it. *)
Theorem all_nodes_last_wins (nodes : list node) :
  NoDup (map fst (all_nodes_of nodes)) /\
  map fst (all_nodes_of nodes) =
    rev (nodup Z.eq_dec (rev (map nd_id nodes))) /\
  (forall k,
     od_get k (all_nodes_of nodes) =
     List.find (fun n => bool_decide (nd_id n = k)) (rev nodes)) /\
  (forall k,
     is_Some (od_get k (all_nodes_of nodes)) <-> In k (map nd_id nodes)).
Proof.
  split; [|split; [apply all_nodes_of_keys|split; [apply all_nodes_of_get|]]].
  - rewrite all_nodes_of_keys. apply NoDup_ListNoDup, NoDup_rev, NoDup_nodup.
  - intros k. rewrite <- od_get_keys, all_nodes_of_keys, <- in_rev, nodup_In.
    symmetry. apply in_rev.
Qed.

(** ** When the render raises (lines 82-87) *)




(** ** Ranges of the derived sizes (lines 72, 90-91, 109-111, 271, 317) *)

Lemma visual_scale_of_range ml es :
  0.01925 <= visual_scale_of ml (complexity_factor_of es) (auto_mult_of es)
  <= 0.45.
Proof.
  rewrite visual_scale_of_clamp.
  pose proof (complexity_factor_range es) as [Hc1 Hc2].
  assert (Ha : 0.55 <= auto_mult_of es <= 0.75)
    by (destruct (auto_mult_cases es) as [->|[->| ->]]; lra).
  assert (Hm : 0.1 <= Rmax 0.1 (Rmin (ml * 0.3) 0.6) <= 0.6).
  { split; [apply Rmax_l|]. apply Rmax_lub; [lra|apply Rmin_r]. }
  set (A := Rmax 0.1 (Rmin (ml * 0.3) 0.6)) in *.
  set (C := complexity_factor_of es) in *.
  assert (Hac : 0.035 <= A * C <= 0.6) by (split; nra).
  split; nra.
Qed.


(** ** What every trace and every badge of a figure satisfies *)

Lemma extends_with_refl P Q fig : extends_with P Q fig fig.
Proof. exists [], []. rewrite fig_app_nil. repeat split; constructor. Qed.

Lemma extends_with_trans P Q f1 f2 f3 :
  extends_with P Q f1 f2 -> extends_with P Q f2 f3 -> extends_with P Q f1 f3.
Proof.
  intros (t1 & a1 & -> & H1 & H1') (t2 & a2 & -> & H2 & H2').
  exists (t1 ++ t2)%list, (a1 ++ a2)%list. rewrite fig_app_app.
  split; [reflexivity|]. split; now apply Forall_app.
Qed.

Lemma extends_with_all P Q fig fig' :
  extends_with P Q fig fig' ->
  Forall P (fig_data fig) -> Forall Q (fig_annotations fig) ->
  Forall P (fig_data fig') /\ Forall Q (fig_annotations fig').
Proof.
  intros (ts & ans & -> & H1 & H2) Hd Ha. simpl.
  split; now apply Forall_app.
Qed.

Lemma add_trace_with P Q fig t : P t -> extends_with P Q fig (add_trace fig t).
Proof.
  intros H. exists [t], []. rewrite add_trace_app.
  repeat split; repeat constructor. exact H.
Qed.

Lemma add_annotation_with P Q fig a :
  Q a -> extends_with P Q fig (add_annotation fig a).
Proof.
  intros H. exists [], [a]. rewrite add_annotation_app.
  repeat split; repeat constructor. exact H.
Qed.

Lemma fold_extends_with {A} P Q (f : figure -> A -> figure) (l : list A) :
  (forall fig x, extends_with P Q fig (f fig x)) ->
  forall fig, extends_with P Q fig (fold_left f l fig).
Proof.
  intros Hf. induction l as [|x l IH]; intros fig; simpl.
  - apply extends_with_refl.
  - eapply extends_with_trans; [apply Hf|apply IH].
Qed.

Section Anatomy.

Variable all_nodes : odict node.
Variable node_results : gmap Z node_result.
Variable visual_scale : R.
Variable complexity_factor : R.
Variable visualization_scale_multiplier : R.
Variable P : trace -> Prop.
Variable Q : annotation -> Prop.

Hypothesis P_beam : forall sim e a b show,
  P (beam_trace (nd_x a) (nd_y a) (nd_x b) (nd_y b) (beam_style sim e).1.1
       (beam_style sim e).1.2 (beam_style sim e).2
       (beam_legend_group sim e) show).
Hypothesis P_arrow : forall sx sy ex ey color group,
  Forall P (arrow_traces visual_scale complexity_factor sx sy ex ey color
              group).
Hypothesis P_entry : forall nc, In nc force_legend -> P (legend_entry nc.1 nc.2).
Hypothesis P_support : forall x y s sym col show,
  P (support_trace visual_scale x y s sym col show).
Hypothesis P_joints : forall xs ys hover,
  P (joints_trace visual_scale visualization_scale_multiplier xs ys hover).
Hypothesis Q_arrow : forall sx sy ex ey color name txt off,
  Q (arrow_label visual_scale complexity_factor sx sy ex ey color name txt
       off).
Hypothesis Q_joint : forall item, Q (joint_label complexity_factor item).
Hypothesis Q_beam : forall sim e a b, Q (beam_label complexity_factor sim e a b).

Lemma add_trace_arrow_with fig sx sy ex ey color name group txt off :
  extends_with P Q fig
    (add_trace_arrow visual_scale complexity_factor fig sx sy ex ey color
       name group txt off).
Proof.
  rewrite add_trace_arrow_app. eexists _, _. split; [reflexivity|].
  split; [apply P_arrow|].
  destruct txt as [t|]; [destruct (truthy t)|]; repeat constructor.
  apply Q_arrow.
Qed.

Lemma beam_body_with st e :
  extends_with P Q (fst st)
    (fst (beam_body all_nodes visual_scale complexity_factor st e)).
Proof.
  destruct st as [fig sim]. unfold beam_body.
  destruct (od_get (el_start e) all_nodes) as [a|];
    [|apply extends_with_refl].
  destruct (od_get (el_end e) all_nodes) as [b|];
    [|apply extends_with_refl].
  pose proof (P_beam sim e a b) as Hb.
  destruct (beam_style sim e) as [[c w] hov].
  destruct (register_beam_legend sim (beam_legend_group sim e))
    as [show sim'].
  cbn [fst snd] in *.
  eapply extends_with_trans; [apply add_trace_with, Hb|].
  unfold draw_internal_forces.
  destruct (sr_elements sim' !! el_id e) as [res|];
    [|apply extends_with_refl].
  case_decide; [|apply extends_with_refl].
  destruct (internal_arrow_style (er_force res)) as [color group].
  apply fold_extends_with.
  intros f [[tx ty] [hx hy]]. apply add_trace_arrow_with.
Qed.

Lemma beam_fold_with es : forall st,
  extends_with P Q (fst st)
    (fst (fold_left (beam_body all_nodes visual_scale complexity_factor)
            es st)).
Proof.
  induction es as [|x es IH]; intros st; simpl.
  - apply extends_with_refl.
  - eapply extends_with_trans; [apply beam_body_with|apply IH].
Qed.

Lemma node_body_with st item :
  extends_with P Q (nl_fig st)
    (nl_fig (node_body node_results visual_scale complexity_factor st item)).
Proof.
  destruct item as [id n]. unfold node_body.
  assert (Hs : extends_with P Q (nl_fig st)
                 (fst (draw_support visual_scale (nl_fig st, nl_sim st) n))).
  { destruct (draw_support_cases visual_scale (nl_fig st) (nl_sim st) n)
      as [[_ ->]|(_ & sym & col & ->)]; cbn [fst].
    - apply extends_with_refl.
    - apply add_trace_with, P_support. }
  destruct (draw_support visual_scale (nl_fig st, nl_sim st) n) as [fig sim].
  cbn [fst nl_fig] in *.
  eapply extends_with_trans; [exact Hs|].
  apply (extends_with_trans _ _ _
           (draw_load visual_scale complexity_factor fig n)).
  - unfold draw_load. case_decide; [|apply extends_with_refl].
    apply add_trace_arrow_with.
  - unfold draw_reaction.
    destruct (node_results !! id) as [nr|]; [|apply extends_with_refl].
    case_decide; [|apply extends_with_refl].
    apply add_trace_arrow_with.
Qed.

Lemma node_fold_with l : forall st,
  extends_with P Q (nl_fig st)
    (nl_fig (fold_left
               (node_body node_results visual_scale complexity_factor) l st)).
Proof.
  induction l as [|x l IH]; intros st; simpl.
  - apply extends_with_refl.
  - eapply extends_with_trans; [apply node_body_with|apply IH].
Qed.

(** Every trace of the figure is in [P] and every badge in [Q], as soon as
    the traces and badges that the layers build are. *)
Lemma draw_layers_all all_elements sim0 :
  let fig := draw_layers all_nodes node_results visual_scale
               complexity_factor visualization_scale_multiplier
               all_elements sim0 in
  Forall P (fig_data fig) /\ Forall Q (fig_annotations fig).
Proof.
  destruct (draw_layers_phases all_nodes node_results visual_scale
              complexity_factor visualization_scale_multiplier all_elements
              sim0) as (fig1 & sim1 & st & E1 & Est & ->).
  cbn [update_layout fig_data fig_annotations].
  apply (extends_with_all P Q new_figure); [|constructor|constructor].
  pose proof (beam_fold_with all_elements (new_figure, sim0)) as H1.
  rewrite E1 in H1. cbn [fst] in H1.
  eapply extends_with_trans; [exact H1|].
  apply (extends_with_trans _ _ _ (add_legend_entries fig1)).
  { rewrite add_legend_entries_app. eexists _, _. split; [reflexivity|].
    split; [|constructor].
    apply List.Forall_forall. intros t Ht.
    apply in_map_iff in Ht as (nc & <- & Hnc). now apply P_entry. }
  pose proof (node_fold_with all_nodes
                {| nl_fig := add_legend_entries fig1; nl_sim := sim1;
                   node_plot_x := []; node_plot_y := [];
                   node_hover_text := [] |}) as H2.
  rewrite <- Est in H2. cbn [nl_fig] in H2.
  eapply extends_with_trans; [exact H2|].
  eapply extends_with_trans; cycle 1.
  { apply fold_extends_with. intros fig e. unfold label_body.
    destruct (od_get (el_start e) all_nodes) as [a|];
      [|apply extends_with_refl].
    destruct (od_get (el_end e) all_nodes) as [b|];
      [|apply extends_with_refl].
    apply add_annotation_with, Q_beam. }
  eapply extends_with_trans; cycle 1.
  { apply fold_extends_with. intros fig item.
    apply add_annotation_with, Q_joint. }
  apply add_trace_with, P_joints.
Qed.

End Anatomy.

(** ** Ranges of the sizes in a figure (lines 72, 90-91, 109-111, 271, 317) *)

Lemma beam_style_width sim e :
  (beam_style sim e).1.2 = 4 \/ (beam_style sim e).1.2 = 5 \/
  (beam_style sim e).1.2 = 6.
Proof.
  unfold beam_style. destruct (sr_elements sim !! el_id e) as [res|]; simpl;
    [|now left].
  destruct (decide (er_safety res < 1)); [now right; right|].
  destruct (decide (er_safety res < 2)); simpl; auto.
Qed.

Lemma arrow_label_font vs cf sx sy ex ey color name txt off :
  an_font_size (arrow_label vs cf sx sy ex ey color name txt off) =
  Py.min2 10 (8.0 + 2.5 * cf).
Proof.
  unfold arrow_label.
  now destruct (Py.contains "Force" name), (Py.contains "Reaction" name).
Qed.

(** X3: in every render with the default multiplier 0.6, the markers have a
    size from 10 to 24.75, the strokes a width from 0.8 to 8 and the badges
    a font from 8.7 to 10, whatever the size of the model; the visual scale
    itself lies between 0.01925 and 0.45. *)
Theorem figure_sizes_range b r ds fig h :
  draw_bridge (Some b) r ds 0.6 = Rendered fig h ->
  (exists vs, visual_scale_in b = Some vs /\ 0.01925 <= vs <= 0.45) /\
  Forall trace_sizes_ok (fig_data fig) /\
  Forall badge_font_ok (fig_annotations fig).
Proof.
  intros Hd. apply draw_bridge_rendered in Hd as (_ & vs & Hvs & ->).
  assert (Hr : 0.01925 <= vs <= 0.45).
  { unfold visual_scale_in in Hvs.
    destruct (min_len_of _ _) as [ml|]; [|discriminate].
    injection Hvs as <-. apply visual_scale_of_range. }
  pose proof (complexity_factor_range (br_elements b)) as Hc.
  set (cf := complexity_factor_of (br_elements b)) in *.
  split; [now exists vs|].
  apply draw_layers_all.
  - intros sim e a p show. split; simpl; [discriminate|].
    intros l [= <-]. simpl.
    destruct (beam_style_width sim e) as [->|[->| ->]]; lra.
  - intros sx sy ex ey color group. unfold arrow_traces.
    repeat (apply List.Forall_cons; [split|]); try apply List.Forall_nil;
      cbn [arrow_line arrow_head tr_marker tr_line]; try discriminate;
      intros l [= <-]; cbn [line_width]; rewrite ?max2_Rmax;
      try lra; split;
      try (apply Rmax_lub; lra);
      try (eapply Rle_trans; [|apply Rmax_l]; lra).
  - intros nc _. split; simpl; [|discriminate].
    intros m [= <-]. simpl. lra.
  - intros x y s sym col show. split; simpl; [|discriminate].
    intros m [= <-]. simpl. rewrite max2_Rmax.
    split; [eapply Rle_trans; [|apply Rmax_l]; lra|apply Rmax_lub; lra].
  - intros xs ys hover. split; simpl; [|discriminate].
    intros m [= <-]. simpl. rewrite max2_Rmax, Rmax_left by lra. lra.
  - intros. unfold badge_font_ok. rewrite arrow_label_font, min2_Rmin.
    split; [apply Rmin_glb; lra|apply Rmin_l].
  - intros [id n]. unfold badge_font_ok. simpl. rewrite min2_Rmin.
    split; [apply Rmin_glb; lra|apply Rmin_l].
  - intros. unfold badge_font_ok. simpl. rewrite min2_Rmin.
    split; [apply Rmin_glb; lra|apply Rmin_l].
Qed.

(** [figure_sizes_range] on the default truss with its results. *)
Lemma figure_sizes_range_witness :
  exists fig h,
    draw_bridge (Some default_truss) (Some default_results) 0 0.6 =
      Rendered fig h /\
    Forall trace_sizes_ok (fig_data fig) /\
    Forall badge_font_ok (fig_annotations fig).
Proof.
  destruct (default_truss_renders (Some default_results) 0 0.6)
    as (vs0 & _ & _ & Hd).
  eexists _, _. split; [exact Hd|].
  apply (figure_sizes_range default_truss (Some default_results) 0 _ _ Hd).
Defined.

(** ** The shape of an arrow (lines 96-107) *)

(** X4: the arrow drawn from a tail to a different head, in the
    coordinates of its two ends.  With [u] the unit vector from tail to
    head, the three shaft strokes run from the tail plus
    [0.0384 * visual_scale * u] to the head minus [0.3744 * visual_scale * u];
    the three head outlines are the closed triangle whose apex is the head
    and whose two other corners lie [0.48 * visual_scale] from it, mirrored
    across the shaft and at least 0.9 of that distance behind the apex, so
    the shaft always ends inside the triangle. *)
Theorem arrow_shape vs cf sx sy ex ey color group :
  let len := sqrt ((ex - sx) ^ 2 + (ey - sy) ^ 2) in
  0 < len ->
  let ux := (ex - sx) / len in
  let uy := (ey - sy) / len in
  let k := cos (PI * 1.11) in
  let s := sin (PI * 1.11) in
  let shaft :=
    ([Some (sx + 0.0384 * vs * ux); Some (ex - 0.3744 * vs * ux); None],
     [Some (sy + 0.0384 * vs * uy); Some (ey - 0.3744 * vs * uy); None]) in
  let head :=
    ([Some ex; Some (ex + 0.48 * vs * (k * ux - s * uy));
      Some (ex + 0.48 * vs * (k * ux + s * uy)); Some ex; None],
     [Some ey; Some (ey + 0.48 * vs * (k * uy + s * ux));
      Some (ey + 0.48 * vs * (k * uy - s * ux)); Some ey; None]) in
  map (fun t => (tr_x t, tr_y t)) (arrow_traces vs cf sx sy ex ey color group)
    = [shaft; head; shaft; head; shaft; head] /\
  k ^ 2 + s ^ 2 = 1 /\ k <= -0.9 /\ ux ^ 2 + uy ^ 2 = 1.
Proof.
  intros len Hlen ux uy k s shaft head.
  split; [|split; [|split]].
  - apply arrow_traces_coords. exact Hlen.
  - unfold k, s. rewrite <- !Rsqr_pow2, Rplus_comm. apply sin2_cos2.
  - apply cos_head_angle.
  - apply unit_vector. exact Hlen.
Qed.

(** [arrow_shape] on the arrow from (0, 0) to (3, 4). *)
Lemma arrow_shape_witness :
  let len := sqrt ((3 - 0) ^ 2 + (4 - 0) ^ 2) in
  0 < len /\ ((3 - 0) / len) ^ 2 + ((4 - 0) / len) ^ 2 = 1.
Proof.
  assert (H : 0 < sqrt ((3 - 0) ^ 2 + (4 - 0) ^ 2)) by (apply sqrt_lt_R0; lra).
  split; [exact H|].
  apply (arrow_shape 1 1 0 0 3 4 "#f43f5e" "Load Force" H).
Defined.

(** ** The order of the badges and of the traces (lines 140-352) *)

Lemma every_trace_arrow vs cf sx sy ex ey color group :
  list_sum (map every_trace (arrow_traces vs cf sx sy ex ey color group))
  = 6%nat.
Proof. reflexivity. Qed.

Lemma load_badge_length vs cf n :
  length (load_badge vs cf n) = if is_loaded n then 1%nat else 0%nat.
Proof.
  unfold load_badge, draw_load, is_loaded.
  destruct (decide (_ > 0.001)) as [H|H].
  - rewrite bool_decide_eq_true_2 by exact H.
    now rewrite add_trace_arrow_app.
  - now rewrite bool_decide_eq_false_2 by exact H.
Qed.

Lemma reaction_badge_length node_results vs cf item :
  length (reaction_badge node_results vs cf item) =
  if has_reaction node_results item then 1%nat else 0%nat.
Proof.
  unfold reaction_badge, draw_reaction, has_reaction.
  destruct (node_results !! item.1) as [res|]; [|reflexivity].
  destruct (decide (_ > 0.001)) as [H|H].
  - rewrite bool_decide_eq_true_2 by exact H.
    destruct (reaction_ends _ _ _ _ _) as [[tx ty] [hx hy]].
    now rewrite add_trace_arrow_app.
  - now rewrite bool_decide_eq_false_2 by exact H.
Qed.

Lemma member_badge_length all_nodes cf sim e :
  length (member_badge all_nodes cf sim e) =
  if resolvable all_nodes e then 1%nat else 0%nat.
Proof.
  destruct (resolvable all_nodes e) eqn:Hr.
  - apply resolvable_true in Hr as (a & b & Ea & Eb).
    unfold member_badge, label_body. now rewrite Ea, Eb.
  - unfold member_badge. now rewrite label_body_dangling.
Qed.

(** X5: the badges of a figure, in order.  First, joint by joint in the
    order of the dictionary, the badge of the load and then that of the
    reaction of the joint (one each, where the joint has such a force); then
    the number of every joint; then the number of every member both of
    whose joints exist, in the order of the model.  The arrows of the
    internal forces have no badge. *)
Theorem annotations_in_order b r ds mult fig h :
  draw_bridge (Some b) r ds mult = Rendered fig h ->
  let all_nodes := all_nodes_of (br_nodes b) in
  let node_results := node_results_of r in
  let cf := complexity_factor_of (br_elements b) in
  exists vs,
    visual_scale_in b = Some vs /\
    fig_annotations fig =
      (flat_map
         (fun item =>
            load_badge vs cf item.2 ++ reaction_badge node_results vs cf item)
         all_nodes
       ++ map (joint_label cf) all_nodes
       ++ flat_map (member_badge all_nodes cf (simulation_results_of r))
            (br_elements b))%list /\
    (forall item,
       length (load_badge vs cf item.2) =
         (if is_loaded item.2 then 1 else 0)%nat /\
       length (reaction_badge node_results vs cf item) =
         (if has_reaction node_results item then 1 else 0)%nat) /\
    (forall e,
       length (member_badge all_nodes cf (simulation_results_of r) e) =
         (if resolvable all_nodes e then 1 else 0)%nat).
Proof.
  intros Hd all_nodes node_results cf.
  apply draw_bridge_rendered in Hd as (_ & vs & Hvs & ->).
  subst all_nodes node_results cf.
  exists vs. split; [exact Hvs|].
  destruct (draw_layers_exact every_trace 1 1 (fun _ => 6%nat)
              (fun _ _ _ _ _ _ _ _ _ => eq_refl)
              (fun _ _ _ _ _ _ _ => eq_refl)
              (fun _ _ _ _ _ _ _ _ => eq_refl)
              (all_nodes_of (br_nodes b)) (node_results_of r) vs
              (complexity_factor_of (br_elements b)) mult (br_elements b)
              (simulation_results_of r))
    as (members & forces & -> & _ & _).
  split; [reflexivity|]. split.
  - intros item. split;
      [apply load_badge_length|apply reaction_badge_length].
  - intros e. apply member_badge_length.
Qed.

(** [annotations_in_order] on the default truss with its results. *)
Lemma annotations_in_order_witness :
  exists fig h vs,
    draw_bridge (Some default_truss) (Some default_results) 0 0.6 =
      Rendered fig h /\
    visual_scale_in default_truss = Some vs /\
    fig_annotations fig =
      (flat_map
         (fun item =>
            load_badge vs (complexity_factor_of (br_elements default_truss))
              item.2 ++
            reaction_badge (node_results_of (Some default_results)) vs
              (complexity_factor_of (br_elements default_truss)) item)
         (all_nodes_of (br_nodes default_truss))
       ++ map (joint_label (complexity_factor_of (br_elements default_truss)))
            (all_nodes_of (br_nodes default_truss))
       ++ flat_map
            (member_badge (all_nodes_of (br_nodes default_truss))
               (complexity_factor_of (br_elements default_truss))
               (simulation_results_of (Some default_results)))
            (br_elements default_truss))%list.
Proof.
  destruct (default_truss_renders (Some default_results) 0 0.6)
    as (vs0 & _ & _ & Hd).
  destruct (annotations_in_order default_truss (Some default_results) 0 0.6
              _ _ Hd) as (vs & Hvs & Han & _).
  eexists _, _, vs. split; [exact Hd|]. split; [exact Hvs|exact Han].
Defined.

(** X6: the traces of a figure, in layers.  First those of the members (a
    line for each member both of whose joints exist, and twelve more when
    its result has a force above 0.1 in absolute value), then the four
    entries of the force legend, then those of the joints (a glyph for a
    support, six traces for the arrow of a load and six for that of a
    reaction), and last, on top, the one trace of the joints, with one point
    and one hover text per joint in the order of the dictionary. *)
Theorem traces_in_layers b r ds mult fig h :
  draw_bridge (Some b) r ds mult = Rendered fig h ->
  let all_nodes := all_nodes_of (br_nodes b) in
  exists vs members forces,
    visual_scale_in b = Some vs /\
    fig_data fig =
      (members
       ++ map (fun nc => legend_entry nc.1 nc.2) force_legend
       ++ forces
       ++ [joints_trace vs mult
             (map (fun i => Some (nd_x i.2)) all_nodes)
             (map (fun i => Some (nd_y i.2)) all_nodes)
             (map (fun i => [Lit "Joint "; IntStr i.1]) all_nodes)])%list /\
    length members =
      list_sum
        (map (member_weight 1 (fun _ => 6%nat) all_nodes
                (simulation_results_of r)) (br_elements b)) /\
    length forces =
      list_sum
        (map (joint_weight 1 (fun _ => 6%nat) (node_results_of r))
           all_nodes) /\
    fig_layout fig = Some the_layout.
Proof.
  intros Hd all_nodes.
  apply draw_bridge_rendered in Hd as (_ & vs & Hvs & ->).
  subst all_nodes.
  destruct (draw_layers_exact every_trace 1 1 (fun _ => 6%nat)
              (fun _ _ _ _ _ _ _ _ _ => eq_refl)
              (fun _ _ _ _ _ _ _ => eq_refl)
              (fun _ _ _ _ _ _ _ _ => eq_refl)
              (all_nodes_of (br_nodes b)) (node_results_of r) vs
              (complexity_factor_of (br_elements b)) mult (br_elements b)
              (simulation_results_of r))
    as (members & forces & -> & Hm & Hf).
  exists vs, members, forces. split; [exact Hvs|].
  split; [reflexivity|].
  unfold every_trace in Hm, Hf. rewrite list_sum_every in Hm, Hf.
  split; [exact Hm|]. split; [exact Hf|reflexivity].
Qed.

(** [traces_in_layers] on the default truss with its results. *)
Lemma traces_in_layers_witness :
  exists fig h vs members forces,
    draw_bridge (Some default_truss) (Some default_results) 0 0.6 =
      Rendered fig h /\
    visual_scale_in default_truss = Some vs /\
    fig_data fig =
      (members
       ++ map (fun nc => legend_entry nc.1 nc.2) force_legend
       ++ forces
       ++ [joints_trace vs 0.6
             (map (fun i => Some (nd_x i.2))
                (all_nodes_of (br_nodes default_truss)))
             (map (fun i => Some (nd_y i.2))
                (all_nodes_of (br_nodes default_truss)))
             (map (fun i => [Lit "Joint "; IntStr i.1])
                (all_nodes_of (br_nodes default_truss)))])%list.
Proof.
  destruct (default_truss_renders (Some default_results) 0 0.6)
    as (vs0 & _ & _ & Hd).
  destruct (traces_in_layers default_truss (Some default_results) 0 0.6
              _ _ Hd) as (vs & members & forces & Hvs & Hdata & _).
  eexists _, _, vs, members, forces.
  split; [exact Hd|]. split; [exact Hvs|exact Hdata].
Defined.

(** * The page around the renderer *)

(** ** The tables and the model file (lines 530-567) *)

Lemma lookup_map {A B} (f : A -> B) (l : list A) i :
  map f l !! i = f <$> l !! i.
Proof.
  revert i. induction l as [|x l IH]; intros [|i]; simpl; auto.
Qed.

Lemma all_nodes_of_has nodes k :
  is_Some (od_get k (all_nodes_of nodes)) <-> In k (map nd_id nodes).
Proof.
  rewrite <- od_get_keys, all_nodes_of_keys, <- in_rev, nodup_In.
  symmetry. apply in_rev.
Qed.


(** *** The joints *)

Lemma node_step_spec st row :
  let st' := node_step st row in
  (forall k, k ∈ st.1 <-> In k (map wn_id st.2)) ->
  (forall k, k ∈ st'.1 <-> In k (map wn_id st'.2)) /\
  exists added, st'.2 = (st.2 ++ added)%list /\
    forall w, In w added ->
      wn_loadX w = 0 /\ wn_loadY w = 0 /\
      wn_type w = row_support row /\
      wn_isFixedX w =
        str_lower (bool_decide (wn_type w = "Pinned Support")
                   || bool_decide (wn_type w = "Fixed (Rigid)")) /\
      wn_isFixedY w =
        str_lower (negb (bool_decide (wn_type w = "Free Joint"))) /\
      exists idx, row_joint row = Some idx /\ wn_id w = Py.int idx /\
                  row_x row = Some (wn_x w) /\ row_y row = Some (wn_y w).
Proof.
  destruct st as [valid final]. unfold node_step. cbn [fst snd].
  intros Hinv.
  destruct (row_joint row) as [idx|];
    [|split; [exact Hinv|];
      exists []; rewrite app_nil_r; split; [auto|intros ? []]].
  destruct (row_x row) as [x|];
    [|split; [exact Hinv|];
      exists []; rewrite app_nil_r; split; [auto|intros ? []]].
  destruct (row_y row) as [y|];
    [|split; [exact Hinv|];
      exists []; rewrite app_nil_r; split; [auto|intros ? []]].
  cbn [fst snd]. split.
  - intros k.
    rewrite elem_of_union, elem_of_singleton, Hinv, map_app, in_app_iff.
    simpl. split; [intros [->|H]; auto|intros [H|[<-|[]]]; auto].
  - eexists. split; [reflexivity|].
    intros w [<-|[]]. cbn. repeat split. now exists idx.
Qed.

(** What the loop over the rows of the joints returns: [valid_node_ids] is
    the set of the ids of the joints of the list, and every joint of the
    list comes from a row without an empty cell, unloaded. *)
Lemma process_nodes_spec rows :
  let st := process_nodes rows in
  (forall k, k ∈ st.1 <-> In k (map wn_id st.2)) /\
  forall w, In w st.2 ->
    wn_loadX w = 0 /\ wn_loadY w = 0 /\
    wn_isFixedX w =
      str_lower (bool_decide (wn_type w = "Pinned Support")
                 || bool_decide (wn_type w = "Fixed (Rigid)")) /\
    wn_isFixedY w =
      str_lower (negb (bool_decide (wn_type w = "Free Joint"))) /\
    exists row idx, In row rows /\ row_joint row = Some idx /\
      wn_id w = Py.int idx /\ row_x row = Some (wn_x w) /\
      row_y row = Some (wn_y w) /\ row_support row = wn_type w.
Proof.
  unfold process_nodes.
  assert (H : forall rows0 st,
            (forall k, k ∈ st.1 <-> In k (map wn_id st.2)) ->
            let st' := fold_left node_step rows0 st in
            (forall k, k ∈ st'.1 <-> In k (map wn_id st'.2)) /\
            forall w, In w st'.2 ->
              In w st.2 \/
              (wn_loadX w = 0 /\ wn_loadY w = 0 /\
               wn_isFixedX w =
                 str_lower (bool_decide (wn_type w = "Pinned Support")
                            || bool_decide (wn_type w = "Fixed (Rigid)")) /\
               wn_isFixedY w =
                 str_lower (negb (bool_decide (wn_type w = "Free Joint"))) /\
               exists row idx, In row rows0 /\ row_joint row = Some idx /\
                 wn_id w = Py.int idx /\ row_x row = Some (wn_x w) /\
                 row_y row = Some (wn_y w) /\ row_support row = wn_type w)).
  { induction rows0 as [|row rows0 IH]; intros st Hinv; cbn [fold_left].
    - split; [exact Hinv|auto].
    - destruct (node_step_spec st row Hinv) as (Hinv' & added & Eadd & Hadd).
      destruct (IH (node_step st row) Hinv') as [Hinv'' Hw].
      split; [exact Hinv''|].
      intros w Hin. destruct (Hw w Hin) as [Hold|Hnew].
      + rewrite Eadd in Hold. apply in_app_or in Hold as [Hold|Hold];
          [now left|right].
        destruct (Hadd w Hold) as (H1 & H2 & H3 & H4 & H5 & idx & H6 & H7 &
                                   H8 & H9).
        repeat (split; [assumption|]).
        exists row, idx. repeat split; auto. now left.
      + right. destruct Hnew as (H1 & H2 & H3 & H4 & row' & idx & H5 & H6).
        repeat (split; [assumption|]).
        exists row', idx. split; [now right|exact H6]. }
  destruct (H rows (∅, [])) as [Hinv Hw].
  { intros k. cbn. rewrite elem_of_empty. tauto. }
  split; [exact Hinv|].
  intros w Hin. destruct (Hw w Hin) as [[]|Hnew]. exact Hnew.
Qed.

(** *** The loads *)



Lemma same_joint_refl w : same_joint w w.
Proof. now repeat split. Qed.

Lemma same_joint_trans a b c :
  same_joint a b -> same_joint b c -> same_joint a c.
Proof.
  intros (H1 & H2 & H3 & H4 & H5 & H6) (K1 & K2 & K3 & K4 & K5 & K6).
  repeat split; congruence.
Qed.

(** One row of the loads changes at most the object that [node_map] names
    for its target, and only its load. *)
Lemma load_step_lookup nm l row i n :
  l !! i = Some n ->
  exists n',
    load_step nm l row !! i = Some n' /\ same_joint n n' /\
    forall id, (forall k, nm !! k = Some i <-> k = id) ->
      wn_loadX n' = load_term cos id (wn_loadX n) row /\
      wn_loadY n' = load_term sin id (wn_loadY n) row.
Proof.
  intros Hi. unfold load_step, load_term.
  destruct (row_target row) as [tj|];
    [|exists n; split; [exact Hi|split; [apply same_joint_refl|auto]]].
  destruct (row_weight row) as [mag|];
    [|exists n; split; [exact Hi|split; [apply same_joint_refl|auto]]].
  destruct (row_angle row) as [ang|];
    [|exists n; split; [exact Hi|split; [apply same_joint_refl|auto]]].
  destruct (nm !! Py.int tj) as [ref|] eqn:Eref.
  - destruct (decide (ref = i)) as [->|Hne].
    + exists (add_load mag (radians ang) n).
      split; [now rewrite list_lookup_alter_eq, Hi|].
      split; [now repeat split|].
      intros id Hid. apply Hid in Eref.
      now rewrite bool_decide_eq_true_2 by exact Eref.
    + exists n. split; [now rewrite list_lookup_alter_ne|].
      split; [apply same_joint_refl|].
      intros id Hid.
      rewrite bool_decide_eq_false_2; [auto|].
      intros Heq. apply Hid in Heq. congruence.
  - exists n. split; [exact Hi|]. split; [apply same_joint_refl|].
    intros id Hid.
    rewrite bool_decide_eq_false_2; [auto|].
    intros Heq. apply Hid in Heq. congruence.
Qed.

Lemma load_fold_lookup nm rows : forall l i n,
  l !! i = Some n ->
  exists n',
    fold_left (load_step nm) rows l !! i = Some n' /\ same_joint n n' /\
    forall id, (forall k, nm !! k = Some i <-> k = id) ->
      wn_loadX n' = fold_left (load_term cos id) rows (wn_loadX n) /\
      wn_loadY n' = fold_left (load_term sin id) rows (wn_loadY n).
Proof.
  induction rows as [|row rows IH]; intros l i n Hi; cbn [fold_left].
  - exists n. split; [exact Hi|]. split; [apply same_joint_refl|auto].
  - destruct (load_step_lookup nm l row i n Hi) as (n1 & H1 & Hs1 & Hl1).
    destruct (IH _ i n1 H1) as (n2 & H2 & Hs2 & Hl2).
    exists n2. split; [exact H2|].
    split; [eapply same_joint_trans; eassumption|].
    intros id Hid. destruct (Hl1 id Hid) as [<- <-]. now apply Hl2.
Qed.

Lemma load_step_length nm l row : length (load_step nm l row) = length l.
Proof.
  unfold load_step.
  destruct (row_target row), (row_weight row), (row_angle row); try reflexivity.
  destruct (nm !! _); [apply length_alter|reflexivity].
Qed.

Lemma load_fold_length nm rows : forall l,
  length (fold_left (load_step nm) rows l) = length l.
Proof.
  induction rows as [|row rows IH]; intros l; cbn [fold_left]; [reflexivity|].
  now rewrite IH, load_step_length.
Qed.

(** The loads leave the joints of the list in place: each object is the
    joint it was, with a load. *)
Lemma process_loads_same l rows i :
  match l !! i, process_loads l rows !! i with
  | Some n, Some n' => same_joint n n'
  | None, None => True
  | _, _ => False
  end.
Proof.
  unfold process_loads.
  destruct (l !! i) as [n|] eqn:Hi.
  - destruct (load_fold_lookup (node_map_of l) rows l i n Hi)
      as (n' & -> & Hs & _). exact Hs.
  - rewrite (proj2 (lookup_ge_None _ _)); [exact I|].
    rewrite load_fold_length. now apply lookup_ge_None.
Qed.

Lemma process_loads_ids l rows :
  map wn_id (process_loads l rows) = map wn_id l.
Proof.
  apply list_eq. intros i. rewrite !lookup_map.
  pose proof (process_loads_same l rows i) as H.
  destruct (l !! i), (process_loads l rows !! i); try contradiction;
    [|reflexivity].
  destruct H as [H _]. simpl. now rewrite H.
Qed.

(** *** The members *)

Lemma process_beams_spec valid E A yield rows :
  Forall
    (fun e => wb_start e <> wb_end e /\ wb_start e ∈ valid /\
              wb_end e ∈ valid /\
              wb_E e = E /\ wb_A e = A /\ wb_yield e = yield)
    (process_beams valid E A yield rows).
Proof.
  unfold process_beams.
  assert (H : forall rows0 l,
            Forall
              (fun e => wb_start e <> wb_end e /\ wb_start e ∈ valid /\
                        wb_end e ∈ valid /\
                        wb_E e = E /\ wb_A e = A /\ wb_yield e = yield) l ->
            Forall
              (fun e => wb_start e <> wb_end e /\ wb_start e ∈ valid /\
                        wb_end e ∈ valid /\
                        wb_E e = E /\ wb_A e = A /\ wb_yield e = yield)
              (fold_left (beam_step valid E A yield) rows0 l)).
  { induction rows0 as [|row rows0 IH]; intros l Hl; cbn [fold_left];
      [exact Hl|].
    apply IH. unfold beam_step.
    destruct (row_beam row), (row_from row) as [s|], (row_to row) as [e|];
      try exact Hl.
    destruct (bool_decide (Py.int s ≠ Py.int e)) eqn:H1; [|exact Hl].
    destruct (bool_decide (Py.int s ∈ valid)) eqn:H2; [|exact Hl].
    destruct (bool_decide (Py.int e ∈ valid)) eqn:H3; [|exact Hl].
    cbn [andb]. apply Forall_app. split; [exact Hl|].
    apply List.Forall_cons; [|apply List.Forall_nil].
    apply bool_decide_eq_true in H1, H2, H3. cbn. repeat split; assumption. }
  apply H. apply List.Forall_nil.
Qed.

Lemma read_node_ids l : map nd_id (map read_node l) = map wn_id l.
Proof. induction l as [|w l IH]; simpl; [|rewrite IH]; reflexivity. Qed.

(** The ids of the joints of the model file are the valid ids. *)
Lemma written_model_ids nodes loads k :
  In k (map nd_id (map read_node (written_nodes nodes loads))) <->
  k ∈ (process_nodes nodes).1.
Proof.
  unfold written_nodes.
  rewrite read_node_ids, process_loads_ids.
  symmetry. apply (proj1 (process_nodes_spec nodes)).
Qed.

(** X7: every member that the page writes to the model file joins two
    different joints of that file.  The renderer draws each of them: none
    is skipped for a missing joint, so the number of members that drives
    the complexity factor and the density multiplier is the number of
    members drawn. *)
Theorem written_members_are_drawable nodes loads beams E A yield :
  let model := written_model nodes loads beams E A yield in
  let all_nodes := all_nodes_of (br_nodes model) in
  Forall
    (fun e => el_start e <> el_end e /\ resolvable all_nodes e = true)
    (br_elements model) /\
  List.filter (resolvable all_nodes) (br_elements model) = br_elements model.
Proof.
  intros model all_nodes.
  assert (H : Forall
                (fun e => el_start e <> el_end e /\
                          resolvable all_nodes e = true)
                (br_elements model)).
  { unfold model, written_model, written_beams. cbn [br_elements].
    pose proof (process_beams_spec (process_nodes nodes).1 E A yield beams)
      as Hb.
    induction Hb as [|wb l (Hne & Hs & He & _) _ IH]; simpl;
      [apply List.Forall_nil|].
    apply List.Forall_cons; [|exact IH].
    split; [exact Hne|].
    apply resolvable_true.
    apply written_model_ids with (loads := loads) in Hs, He.
    apply all_nodes_of_has in Hs as [a Ha], He as [b' Hb'].
    exists a, b'. split; assumption. }
  split; [exact H|].
  induction H as [|e l [_ Hr] _ IH]; simpl; [reflexivity|].
  now rewrite Hr, IH.
Qed.

Lemma py_int_IZR z : Py.int (IZR z) = z.
Proof.
  unfold Py.int. destruct (decide (0 <= IZR z)).
  - apply ZfloorZ.
  - rewrite <- (Z.opp_involutive z) at 1. rewrite opp_IZR, ZceilN, ZfloorZ.
    lia.
Qed.

(** With the tables of a new session the page writes the five members of
    the default truss, between its four joints. *)
Lemma default_tables_written E A yield :
  let model :=
    written_model default_node_rows default_load_rows default_beam_rows
      E A yield in
  br_elements model = br_elements default_truss /\
  map (fun n => (nd_id n, nd_x n, nd_y n, nd_type n)) (br_nodes model) =
  map (fun n => (nd_id n, nd_x n, nd_y n, nd_type n))
    (br_nodes default_truss).
Proof.
  assert (Hn : process_nodes default_node_rows =
               ({[4%Z]} ∪ ({[3%Z]} ∪ ({[2%Z]} ∪ ({[1%Z]} ∪ ∅))),
                [ {| wn_id := 1; wn_x := 0; wn_y := 0;
                     wn_isFixedX := "true"; wn_isFixedY := "true";
                     wn_loadX := 0; wn_loadY := 0;
                     wn_type := "Pinned Support" |};
                  {| wn_id := 2; wn_x := 4; wn_y := 0;
                     wn_isFixedX := "false"; wn_isFixedY := "false";
                     wn_loadX := 0; wn_loadY := 0;
                     wn_type := "Free Joint" |};
                  {| wn_id := 3; wn_x := 8; wn_y := 0;
                     wn_isFixedX := "false"; wn_isFixedY := "true";
                     wn_loadX := 0; wn_loadY := 0;
                     wn_type := "Roller Support" |};
                  {| wn_id := 4; wn_x := 4; wn_y := 4;
                     wn_isFixedX := "false"; wn_isFixedY := "false";
                     wn_loadX := 0; wn_loadY := 0;
                     wn_type := "Free Joint" |} ])).
  { unfold process_nodes, default_node_rows.
    cbn [fold_left node_step row_joint row_x row_y row_support app].
    rewrite !py_int_IZR. reflexivity. }
  intros model. split.
  - unfold model, written_model, written_beams. cbn [br_elements].
    rewrite Hn. cbn [fst].
    unfold process_beams, default_beam_rows.
    cbn [fold_left beam_step row_beam row_from row_to].
    rewrite !py_int_IZR.
    repeat (rewrite bool_decide_eq_true_2 by discriminate;
            rewrite !bool_decide_eq_true_2 by set_solver;
            cbn [andb app]).
    reflexivity.
  - unfold model, written_model, written_nodes, process_loads.
    cbn [br_nodes]. rewrite Hn. cbn [snd].
    unfold default_load_rows.
    cbn [fold_left load_step row_target row_weight row_angle].
    rewrite py_int_IZR.
    change (node_map_of _ !! 2%Z) with (Some 1%nat).
    reflexivity.
Qed.

(** *** What the renderer reads for a joint *)


(** *** Supports *)


(** ** The results panel and the figure (lines 627-631, 655-659) *)




Lemma min_safety_factor_spec r :
  (rs_elements r = [] /\ min_safety_factor r = 0) \/
  (rs_elements r <> [] /\
   (exists res, In res (rs_elements r) /\
                er_safety res = min_safety_factor r) /\
   forall res, In res (rs_elements r) ->
               min_safety_factor r <= er_safety res).
Proof.
  unfold min_safety_factor.
  destruct (rs_elements r) as [|x l] eqn:E; [now left|right].
  split; [discriminate|].
  destruct (Py.min (map er_safety (x :: l))) as [m|] eqn:Em;
    [|discriminate].
  apply py_min_is_min in Em as [Hin Hle]. cbn [default].
  split.
  - apply in_map_iff in Hin as (res & <- & Hres). eauto.
  - intros res Hres. apply Hle. now apply in_map.
Qed.


Lemma banner_safe_iff r :
  banner_safe r = true <->
  rs_elements r <> [] /\
  forall res, In res (rs_elements r) -> er_safety res > 1.
Proof.
  unfold banner_safe. rewrite bool_decide_eq_true.
  destruct (min_safety_factor_spec r)
    as [[E ->]|(Hne & (res0 & Hin0 & H0) & Hle)].
  - rewrite E. split; [lra|intros [H _]; now elim H].
  - split.
    + intros Hgt. split; [exact Hne|].
      intros res Hres. specialize (Hle res Hres). lra.
    + intros [_ H]. rewrite <- H0. now apply H.
Qed.


(** The two cases of the banner on two result files: every member above
    its limit, and one member exactly at its limit. *)
Lemma banner_examples :
  banner_safe safe_results = true /\ banner_safe limit_results = false.
Proof.
  split.
  - apply banner_safe_iff. split; [discriminate|].
    intros res [<-|[<-|[]]]; simpl; lra.
  - destruct (banner_safe limit_results) eqn:Hb; [|reflexivity].
    apply banner_safe_iff in Hb as [_ H].
    specialize (H {| er_id := 2; er_force := 5; er_safety := 1 |}
                  (or_intror (or_introl eq_refl))).
    simpl in H. lra.
Qed.
